(** * HSR-Index: the GenBank harvester and the species priority scorer

    A shallow embedding of the two scripts of the repository,

      - [Priorization.py]: four criterion scorers, the weighted
        contributions and the final score of every species, the
        columns read from the input file and the highlighted cells of
        the HTML tables;
      - [Auxiliary scripts/genbi.py]: the functions for ITIS, the
        GenBank searches, the record filter [extract_info] with its
        registry of accepted accessions, and the aggregation loops of
        [main];

    followed by the properties proved about them.

    Conventions.  Python [str] values are modelled as [string] (one
    character per byte, so the case conversions are the ASCII ones).
    A Python function that may raise returns a [result]; the exception is
    a value of [exn].  Python [float] is IEEE binary64, modelled by the
    primitive [float] of the system, so every arithmetic operation below
    rounds exactly as the program's does.  The progress bars of the
    GenBank searches and the export of the tables to files are not
    modelled. *)

From Stdlib Require Import ZArith Floats Ascii String List Lia Bool.
From stdpp Require Import gmap strings list pretty.

Set Warnings "-inexact-float,-abstract-large-number".
Set Default Proof Using "Type".

Local Open Scope string_scope.
Local Open Scope list_scope.
Local Open Scope Z_scope.

(* ===================================================================== *)
(** * Part I.  Definitions                                                *)
(* ===================================================================== *)

(** ** Python values, exceptions and strings *)

Module Py.

(** The exceptions the two scripts can meet.  [LoopsForever] is not an
    exception: it is the outcome of a loop that never ends. *)
Inductive exn : Type :=
| ValueError
| TypeError
| IndexError
| KeyError
| AttributeError
| NameError
| IOError
| OverflowError
| LoopsForever.

(** The outcome of a call: a returned value or a raised exception. *)
Inductive result (A : Type) : Type :=
| Ok (a : A)
| Raise (e : exn).
Arguments Ok {A} a.
Arguments Raise {A} e.

Definition bind {A B : Type} (m : result A) (k : A -> result B) : result B :=
  match m with
  | Ok a => k a
  | Raise e => Raise e
  end.

(** [try: body except (e1, e2, ...): handler] *)
Definition try_except {A : Type} (body : result A)
    (caught : exn -> bool) (handler : exn -> result A) : result A :=
  match body with
  | Ok a => Ok a
  | Raise e => if caught e then handler e else Raise e
  end.

Definition is_ValueError_or_TypeError (e : exn) : bool :=
  match e with
  | ValueError | TypeError => true
  | _ => false
  end.

(** [except Exception] catches every exception. *)
Definition is_Exception (e : exn) : bool :=
  match e with
  | LoopsForever => false
  | _ => true
  end.

(** A 64-bit signed integer, the integer type of a pandas column. *)
Definition in_int64 (n : Z) : bool := (- 2 ^ 63 <=? n) && (n <? 2 ^ 63).

Record int64 : Type := MkInt64 {
  int64_val : Z;
  int64_range : in_int64 int64_val = true
}.

(** The value of one cell of a data frame read by [pandas.read_csv]
    (a float, where a missing cell is NaN; an integer of a column of
    64-bit integers; a boolean; a string), or [None].  A table that
    holds a longer integer is not described by these cells; the scorers
    are defined on every scalar, see [pyobj]. *)
Inductive pyval : Type :=
| PyNone
| PyBool (b : bool)
| PyInt (n : int64)
| PyFloat (f : float)
| PyStr (s : string).

(** The builtins whose results the scripts only compare or print:
    [float(s)] on a string ([None] stands for [ValueError]) and
    [str(f)] on a float; and the limit [sys.get_int_max_str_digits()] on
    the digits of an integer that [str] converts: 0 when the interpreter
    has no limit, else at least 640. *)
Class Builtins : Type := {
  float_of_str : string -> option float;
  str_of_float : float -> string;
  int_max_str_digits : nat
}.

(** Conversion of an integer to the nearest binary64 value. *)
Definition float_of_Z (n : Z) : float :=
  SF2Prim (binary_normalize 53 1024 n 0 false).

(** A scalar as a function can be handed it: [None], a boolean, an
    integer of any size, a float or a string.  The value of a cell is
    such a scalar. *)
Inductive pyobj : Type :=
| ObjNone
| ObjBool (b : bool)
| ObjInt (n : Z)
| ObjFloat (f : float)
| ObjStr (s : string).

Definition obj (v : pyval) : pyobj :=
  match v with
  | PyNone => ObjNone
  | PyBool b => ObjBool b
  | PyInt n => ObjInt (int64_val n)
  | PyFloat f => ObjFloat f
  | PyStr s => ObjStr s
  end.

Coercion obj : pyval >-> pyobj.

(** [float(n)] raises [OverflowError] on an integer that rounds beyond
    the largest binary64 number, [2^1024 - 2^971]: from the half-way
    point [2^1024 - 2^970] on. *)
Definition float_overflows (n : Z) : bool :=
  2 ^ 1024 - 2 ^ 970 <=? Z.abs n.

(** [str(n)] raises [ValueError] on an integer of more digits than the
    limit, when there is one. *)
Definition str_overflows `{Builtins} (n : Z) : bool :=
  (0 <? int_max_str_digits)%nat &&
  (10 ^ Z.of_nat (Nat.max 640 int_max_str_digits) <=? Z.abs n).

(** [float(v)] *)
Definition py_float `{Builtins} (v : pyobj) : result float :=
  match v with
  | ObjNone => Raise TypeError
  | ObjBool b => Ok (if b then 1%float else 0%float)
  | ObjInt n =>
      if float_overflows n then Raise OverflowError else Ok (float_of_Z n)
  | ObjFloat f => Ok f
  | ObjStr s =>
      match float_of_str s with
      | Some f => Ok f
      | None => Raise ValueError
      end
  end.

(** [str(v)] *)
Definition obj_str `{Builtins} (v : pyobj) : result string :=
  match v with
  | ObjNone => Ok "None"
  | ObjBool b => Ok (if b then "True" else "False")
  | ObjInt n => if str_overflows n then Raise ValueError else Ok (pretty n)
  | ObjFloat f => Ok (str_of_float f)
  | ObjStr s => Ok s
  end.

(** [str(v)] on the value of a cell, whose integers have at most 19
    digits. *)
Definition py_str `{Builtins} (v : pyval) : string :=
  match v with
  | PyNone => "None"
  | PyBool b => if b then "True" else "False"
  | PyInt n => pretty (int64_val n)
  | PyFloat f => str_of_float f
  | PyStr s => s
  end.

(** [pd.isna(v)] on a scalar *)
Definition pd_isna (v : pyobj) : bool :=
  match v with
  | ObjNone => true
  | ObjFloat f => PrimFloat.is_nan f
  | _ => false
  end.

(** [v == ""] *)
Definition eq_empty_str (v : pyobj) : bool :=
  match v with
  | ObjStr s => String.eqb s ""
  | _ => false
  end.

(** [v is None] *)
Definition is_None (v : pyobj) : bool :=
  match v with
  | ObjNone => true
  | _ => false
  end.

(** *** Strings

    A text is a string of bytes.  The functions below are Python's on a
    text of ASCII characters: [lower] and [upper] fold the 26 letters and
    [strip] and [split] take the ASCII blanks away.  A byte beyond ASCII
    is left as it is, whereas Python also folds the letters and strips
    the blanks of Unicode; a statement that depends on the difference is
    made of ASCII texts only. *)

Definition is_upper_ascii (c : ascii) : bool :=
  let n := N_of_ascii c in ((65 <=? n) && (n <=? 90))%N.

Definition is_lower_ascii (c : ascii) : bool :=
  let n := N_of_ascii c in ((97 <=? n) && (n <=? 122))%N.

Definition lower_ascii (c : ascii) : ascii :=
  if is_upper_ascii c then ascii_of_N (N_of_ascii c + 32) else c.

Definition upper_ascii (c : ascii) : ascii :=
  if is_lower_ascii c then ascii_of_N (N_of_ascii c - 32) else c.

Fixpoint map_string (f : ascii -> ascii) (s : string) : string :=
  match s with
  | EmptyString => EmptyString
  | String c s' => String (f c) (map_string f s')
  end.

(** [s.lower()] and [s.upper()], on the ASCII letters *)
Definition lower (s : string) : string := map_string lower_ascii s.
Definition upper (s : string) : string := map_string upper_ascii s.

(** [s.startswith(p)] *)
Definition startswith (p s : string) : bool := String.prefix p s.

(** [needle in hay] *)
Fixpoint contains (needle hay : string) : bool :=
  startswith needle hay ||
  match hay with
  | EmptyString => false
  | String _ hay' => contains needle hay'
  end.

(** [s.split(sep)] for a separator of one character: never empty. *)
Fixpoint split_char (sep : ascii) (s : string) : list string :=
  match s with
  | EmptyString => [EmptyString]
  | String c s' =>
      if Ascii.eqb c sep then EmptyString :: split_char sep s'
      else match split_char sep s' with
           | h :: t => String c h :: t
           | [] => [String c EmptyString]
           end
  end.

(** The ASCII characters [str.strip] and [str.split()] treat as blank:
    9 to 13 and 28 to 32. *)
Definition is_space (c : ascii) : bool :=
  let n := N_of_ascii c in
  (((9 <=? n) && (n <=? 13)) || ((28 <=? n) && (n <=? 32)))%N.

Fixpoint lstrip (s : string) : string :=
  match s with
  | EmptyString => EmptyString
  | String c s' => if is_space c then lstrip s' else s
  end.

Fixpoint rev_string_onto (s acc : string) : string :=
  match s with
  | EmptyString => acc
  | String c s' => rev_string_onto s' (String c acc)
  end.

Definition rev_string (s : string) : string := rev_string_onto s EmptyString.

(** [s.strip()] *)
Definition strip (s : string) : string :=
  rev_string (lstrip (rev_string (lstrip s))).

(** [s.split()]: the maximal runs of non-blank characters.  [cur] is the
    run being read, reversed. *)
Fixpoint split_ws_aux (s cur : string) : list string :=
  match s with
  | EmptyString =>
      match cur with
      | EmptyString => []
      | _ => [rev_string cur]
      end
  | String c s' =>
      if is_space c then
        match cur with
        | EmptyString => split_ws_aux s' EmptyString
        | _ => rev_string cur :: split_ws_aux s' EmptyString
        end
      else split_ws_aux s' (String c cur)
  end.

Definition split_ws (s : string) : list string := split_ws_aux s EmptyString.

(** [sep.join(parts)] *)
Fixpoint join (sep : string) (parts : list string) : string :=
  match parts with
  | [] => EmptyString
  | [p] => p
  | p :: rest => p +:+ sep +:+ join sep rest
  end.

End Py.

Import Py.

#[global] Instance result_ret : MRet result := @Ok.
#[global] Instance result_bind : MBind result := fun A B k m => Py.bind m k.

(* ===================================================================== *)
(** ** Priorization.py                                                    *)
(* ===================================================================== *)

Module Priorization.

Section Scorers.
Context `{Builtins}.

(** The table of [calculate_iucn_score]. *)
Definition scores : gmap string Z :=
  <["CR" := 7]> (<["EN" := 6]> (<["VU" := 5]> (<["NT" := 4]>
  (<["DD" := 4]> (<["LC" := 3]> (<["NE" := 1]> ∅)))))).

Definition missing (v : pyobj) : bool :=
  pd_isna v || eq_empty_str v || is_None v.

Definition calculate_iucn_score (status : pyobj) : result Z :=
  if missing status then Ok 3
  else
    text ← obj_str status;
    Ok (default 3 (scores !! upper text)).

Definition calculate_area_loss_score (percentage : pyobj) : result Z :=
  if missing percentage then Ok 3
  else
    try_except
      (percentage ← py_float percentage;
       if (80 <? percentage)%float then Ok 5
       else if (60 <? percentage)%float then Ok 4
       else if (40 <? percentage)%float then Ok 3
       else if (20 <? percentage)%float then Ok 2
       else Ok 1)
      is_ValueError_or_TypeError (fun _ => Ok 3).

Definition calculate_eoo_score (eoo : pyobj) : result Z :=
  if missing eoo then Ok 3
  else
    try_except
      (eoo ← py_float eoo;
       if (eoo <? 100)%float then Ok 5
       else if (eoo <? 5000)%float then Ok 4
       else if (eoo <? 20000)%float then Ok 3
       else if (eoo <? 50000)%float then Ok 2
       else Ok 1)
      is_ValueError_or_TypeError (fun _ => Ok 3).

Definition calculate_human_footprint_score (overlap : pyobj) : result Z :=
  if missing overlap then Ok 3
  else
    try_except
      (overlap ← py_float overlap;
       if (80 <? overlap)%float then Ok 5
       else if (60 <? overlap)%float then Ok 4
       else if (40 <? overlap)%float then Ok 3
       else if (20 <? overlap)%float then Ok 2
       else Ok 1)
      is_ValueError_or_TypeError (fun _ => Ok 3).

(** One line of the normalised input table [df_normalized]. *)
Record SpeciesRow : Type := MkSpeciesRow {
  species_name : pyval;
  iucn_status : pyval;
  area_loss_ssp245 : pyval;
  area_loss_ssp585 : pyval;
  eoo : pyval;
  human_footprint : pyval
}.

(** The two climate scenarios differ in the area-loss column read. *)
Inductive Scenario : Type := SSP245 | SSP585.

Definition area_loss (sc : Scenario) (r : SpeciesRow) : pyval :=
  match sc with
  | SSP245 => area_loss_ssp245 r
  | SSP585 => area_loss_ssp585 r
  end.

(** [Series.round(2)] is numpy's rounding: multiply by 100, round to
    the nearest integer (ties to even), divide by 100.  Below 2^52 the
    nearest integer is obtained by adding and subtracting 2^52. *)
Definition two52 : float := 4503599627370496%float.

Definition rint (x : float) : float :=
  if (PrimFloat.abs x <? two52)%float then
    if (x <? 0)%float then ((x - two52) + two52)%float
    else ((x + two52) - two52)%float
  else x.

Definition round2 (x : float) : float := (rint (x * 100) / 100)%float.

(** The numeric value of a percentage contribution, before it is
    rendered with [astype(str) + '%']. *)
Definition percentage (contribution_abs final : float) : float :=
  round2 (contribution_abs / final * 100)%float.

Definition render_percentage (p : float) : string :=
  str_of_float p +:+ "%".

(** One line of [df_ssp245] or [df_ssp585] after the contribution
    columns have been added. *)
Record ScoredRow : Type := MkScoredRow {
  input : SpeciesRow;
  iucn_score : Z;
  area_loss_score : Z;
  eoo_score : Z;
  human_footprint_score : Z;
  iucn_contribution_abs : float;
  area_loss_contribution_abs : float;
  eoo_contribution_abs : float;
  human_footprint_contribution_abs : float;
  final_score : float;
  iucn_contribution : string;
  area_loss_contribution : string;
  eoo_contribution : string;
  human_footprint_contribution : string
}.

(** The contribution columns of [prioritize_species], computed from
    the four score columns, on one line. *)
Definition contribution_columns (r : SpeciesRow) (iucn loss eoo_s hf : Z)
    : ScoredRow :=
  let iucn_abs := (float_of_Z iucn * 0.25)%float in
  let loss_abs := (float_of_Z loss * 0.25)%float in
  let eoo_abs := (float_of_Z eoo_s * 0.25)%float in
  let hf_abs := (float_of_Z hf * 0.25)%float in
  let final := (iucn_abs + loss_abs + eoo_abs + hf_abs)%float in
  {| input := r;
     iucn_score := iucn;
     area_loss_score := loss;
     eoo_score := eoo_s;
     human_footprint_score := hf;
     iucn_contribution_abs := iucn_abs;
     area_loss_contribution_abs := loss_abs;
     eoo_contribution_abs := eoo_abs;
     human_footprint_contribution_abs := hf_abs;
     final_score := final;
     iucn_contribution := render_percentage (percentage iucn_abs final);
     area_loss_contribution := render_percentage (percentage loss_abs final);
     eoo_contribution := render_percentage (percentage eoo_abs final);
     human_footprint_contribution :=
       render_percentage (percentage hf_abs final) |}.

(** The score columns, then the contribution columns, for one
    scenario, on one line. *)
Definition score_row (sc : Scenario) (r : SpeciesRow) : result ScoredRow :=
  iucn ← calculate_iucn_score (iucn_status r);
  loss ← calculate_area_loss_score (area_loss sc r);
  eoo_s ← calculate_eoo_score (eoo r);
  hf ← calculate_human_footprint_score (human_footprint r);
  Ok (contribution_columns r iucn loss eoo_s hf).

(** The numeric percentages of a scored line. *)
Definition percentages (s : ScoredRow) : list float :=
  [ percentage (iucn_contribution_abs s) (final_score s);
    percentage (area_loss_contribution_abs s) (final_score s);
    percentage (eoo_contribution_abs s) (final_score s);
    percentage (human_footprint_contribution_abs s) (final_score s) ].

Definition contributions_abs (s : ScoredRow) : list float :=
  [ iucn_contribution_abs s; area_loss_contribution_abs s;
    eoo_contribution_abs s; human_footprint_contribution_abs s ].

(** Sum of a column list, left to right from zero. *)
Definition fsum (l : list float) : float :=
  fold_left PrimFloat.add l 0%float.

(** [|x - y| <= tol] *)
Definition within (tol x y : float) : bool :=
  (PrimFloat.abs (x - y) <=? tol)%float.

(** The invariants of a scored line, as one executable test: the final
    score is at least 1 and not zero, the absolute contributions add up
    to it (exactly, hence within 1e-9), and the percentages add up to 100
    within 0.1. *)
Definition row_invariant (s : ScoredRow) : bool :=
  (1 <=? final_score s)%float &&
  negb (final_score s =? 0)%float &&
  (fsum (contributions_abs s) =? final_score s)%float &&
  within 1e-9 (fsum (contributions_abs s)) (final_score s) &&
  within 0.1 (fsum (percentages s)) 100.

(** The test above on every combination of scores the scorers can
    return. *)
Definition row_invariant_all (r : SpeciesRow) : bool :=
  forallb (λ a, forallb (λ b, forallb (λ c, forallb (λ d,
    row_invariant (contribution_columns r a b c d))
    (seqZ 1 5)) (seqZ 1 5)) (seqZ 1 5)) (seqZ 1 7).

(** The whole scenario table: every line scored, in input order. *)
Definition score_table (sc : Scenario) (df : list SpeciesRow)
    : result (list ScoredRow) :=
  mapM (score_row sc) df.

End Scorers.

(** *** Sample inputs *)

(** The builtins on the few texts the examples use: [float] reads three
    numerals and refuses every other text; [str] of a float is not
    needed by the examples. *)
Definition sample_builtins : Builtins :=
  {| float_of_str := fun s =>
       if String.eqb s "90" then Some 90%float
       else if String.eqb s "50" then Some 50%float
       else if String.eqb s "12.5" then Some 12.5%float
       else None;
     str_of_float := fun _ => "";
     int_max_str_digits := 4300 |}.

(** The example of the specification: status CR, 90 % area loss, an
    extent of 50 km2, 90 % human footprint. *)
Definition critical_row : SpeciesRow :=
  {| species_name := PyStr "Alpha a";
     iucn_status := PyStr "CR";
     area_loss_ssp245 := PyStr "90";
     area_loss_ssp585 := PyFloat 90%float;
     eoo := PyStr "50";
     human_footprint := PyFloat 90%float |}.

(** A line with every metric missing. *)
Definition missing_row : SpeciesRow :=
  {| species_name := PyStr "Beta b";
     iucn_status := PyFloat nan;
     area_loss_ssp245 := PyFloat nan;
     area_loss_ssp585 := PyFloat nan;
     eoo := PyFloat nan;
     human_footprint := PyFloat nan |}.

End Priorization.

(* ===================================================================== *)
(** ** Auxiliary scripts/genbi.py                                         *)
(* ===================================================================== *)

Module Genbi.

(** *** Data *)

Definition gene_variants : list string :=
  [ "cytochrome oxidase subunit 1"; "cytochrome c oxidase I"; "COI"; "COX1";
    "MTCO1"; "MT-CO1"; "cytochrome c oxidase subunit I"; "coi"; "(coi)";
    "(coi) gene"; "cytochrome oxidase subunit 1 (COI) gene";
    "cytochrome b"; "Cytochrome b"; "CYTB"; "cytb"; "cytochrome B"; "MT-CYB";
    "mt-cyb"; "cytochrome b gene"; "(cytb)"; "(cytb) gene"; "mt-Cytb" ].

Definition coi_variants : list string := take 11 gene_variants.
Definition cytb_variants : list string := drop 11 gene_variants.

(** A feature of a GenBank record: its kind and its qualifiers, each a
    list of values. *)
Record SeqFeature : Type := MkSeqFeature {
  type : string;
  qualifiers : gmap string (list string)
}.

(** What [extract_info] reads of a Biopython [SeqRecord]. *)
Record SeqRecord : Type := MkSeqRecord {
  id : string;
  annotations : gmap string string;
  description : string;
  features : list SeqFeature;
  seq : string
}.

(** The value of [gene]: ['CYTB'], ['COI'] or ['Unknown']. *)
Inductive Gene : Type := CYTB | COI | Unknown.

(** The list [info] built by [extract_info], one field per position.
    [species_name] is [None] when a taxon-wide search meets a record
    without organism annotation. *)
Record Info : Type := MkInfo {
  accession : string;
  species_name : option string;
  search_method : string;
  gene : Gene;
  specimen_voucher : string;
  country : string;
  state : string;
  locality : string;
  latitude : string;
  longitude : string;
  num_bases : nat;
  release_date : string;
  bold_code : string
}.

(** An entry of [especies_con_sinonimias]. *)
Record Especie : Type := MkEspecie {
  tsn : string;
  nombre_cientifico : string;
  sinonimias : list string
}.

(** A line of [df_final]: an accepted sequence, or the line written when
    a name has no sequences (every column ['NA'] but the species and the
    ["Synonims"] column). *)
Inductive DfRow : Type :=
| Sequence (info : Info)
| NoSequences (species synonims : string).

(** An entry of the result of a taxonomy fetch. *)
Record Taxon : Type := MkTaxon {
  Rank : string;
  ScientificName : string
}.

(** The answer of [Entrez.esearch], read by [Entrez.read]. *)
Record SearchResult : Type := MkSearchResult {
  IdList : list string;
  Count : nat
}.

(** *** The Entrez service

    The service is outside the program.  A search term selects a fixed
    list of identifiers in a database; a request for it answers the page
    [retstart, retstart + retmax) of that list together with the length of
    the whole list, or fails.  A fetch answers a record or fails. *)
Class Entrez : Type := {
  search_hits : string -> string -> list string;
  search_raises : string -> string -> nat -> bool;
  fetch_genbank : string * string -> result SeqRecord;
  fetch_taxonomy : string -> result (list Taxon)
}.

(** The requests sent to the service, in order. *)
Inductive Request : Type :=
| Esearch (db term : string) (retmax retstart : nat)
| EfetchNucleotide (accession : string * string)
| EfetchTaxonomy (tax_id : string).

(** What the program prints. *)
Inductive Line : Type :=
| SearchError (query : string) (e : exn)
| VariantSearchError (taxon gene_variant : string) (e : exn)
| RecordError (accession : string * string) (e : exn)
| TaxonomyError (taxon : string) (e : exn)
| NothingFound (taxon : string)
| Progress (text : string).

(** The state outside the local variables: the global dictionary
    [info_secuencias], the requests sent so far and the printed lines. *)
Record World : Type := MkWorld {
  info_secuencias : gmap string Info;
  requests : list Request;
  stdout : list Line
}.

(** *** Computations: state passing with exceptions

    A raised exception keeps the changes made to the world before it. *)
Definition M (A : Type) : Type := World -> result A * World.

#[global] Instance M_ret : MRet M := fun A a w => (Ok a, w).

#[global] Instance M_bind : MBind M := fun A B k m w =>
  match m w with
  | (Ok a, w') => k a w'
  | (Raise e, w') => (Raise e, w')
  end.

Definition lift {A : Type} (r : result A) : M A := fun w => (r, w).

(** [try: body except Exception as e: handler].  The outcome
    [LoopsForever] is not an exception and is not caught. *)
Definition try_catch {A : Type} (body : M A) (handler : exn -> M A) : M A :=
  fun w =>
    match body w with
    | (Ok a, w') => (Ok a, w')
    | (Raise e, w') => if is_Exception e then handler e w' else (Raise e, w')
    end.

Definition print (l : Line) : M unit := fun w =>
  (Ok (), {| info_secuencias := info_secuencias w;
             requests := requests w;
             stdout := stdout w ++ [l] |}).

Definition send (r : Request) : M unit := fun w =>
  (Ok (), {| info_secuencias := info_secuencias w;
             requests := requests w ++ [r];
             stdout := stdout w |}).

(** [for x in l: acc = body(acc, x)] *)
Fixpoint foldM {A X : Type} (body : A -> X -> M A) (acc : A) (l : list X)
    : M A :=
  match l with
  | [] => mret acc
  | x :: l' => acc' ← body acc x; foldM body acc' l'
  end.

(** *** extract_info *)

(** [l[0]] *)
Definition first_item {A : Type} (l : list A) : result A :=
  match l with
  | x :: _ => Ok x
  | [] => Raise IndexError
  end.

(** [qualifiers.get(key, ['NA'])[0]] *)
Definition get_first (q : gmap string (list string)) (key : string)
    : result string :=
  first_item (default ["NA"] (q !! key)).

Definition is_source (f : SeqFeature) : bool := String.eqb (type f) "source".

(** [any(v.lower() in description_lower for v in variants)] *)
Definition mentions_any (variants : list string) (description_lower : string)
    : bool :=
  existsb (fun v => contains (lower v) description_lower) variants.

(** Lines 185-186: the species name, starred when the record's organism
    differs from the name searched in ITIS. *)
Definition flag_species_name (record : SeqRecord)
    (valid_species_name : option string) (search_method : string)
    : result (option string) :=
  if String.eqb search_method "From ITIS" then
    let organism := lower (default "" (annotations record !! "organism")) in
    match valid_species_name with
    | None => Raise AttributeError
    | Some name =>
        if negb (String.eqb organism (lower name))
        then Ok (Some (name +:+ "*"))
        else Ok (Some name)
    end
  else Ok valid_species_name.

(** Lines 199-203. *)
Definition extract_specimen_voucher (record : SeqRecord) : result string :=
  match find is_source (features record) with
  | Some feature => get_first (qualifiers feature) "specimen_voucher"
  | None => Ok "NA"
  end.

(** Lines 206-218, on the qualifiers of the first feature. *)
Definition extract_geography (q : gmap string (list string))
    : string * string * string :=
  match q !! "country" with
  | Some (location :: _) =>
      let country_parts := split_char ":" location in
      let country :=
        match country_parts with
        | p0 :: _ => strip p0
        | [] => "NA"
        end in
      match country_parts with
      | _ :: p1 :: _ =>
          let state_locality_parts := split_char "," p1 in
          let state :=
            match state_locality_parts with
            | s0 :: _ => strip s0
            | [] => "NA"
            end in
          let locality :=
            match state_locality_parts with
            | _ :: (_ :: _) as rest => strip (join ", " rest)
            | _ => "NA"
            end in
          (country, state, locality)
      | _ => (country, "NA", "NA")
      end
  | _ => ("NA", "NA", "NA")
  end.

(** The characters of the class [[0-9.-]]. *)
Definition is_coordinate_char (c : ascii) : bool :=
  let n := N_of_ascii c in
  (((48 <=? n) && (n <=? 57)) || (n =? 46) || (n =? 45))%N.

(** The longest prefix of coordinate characters, and the rest. *)
Fixpoint span_coordinate (s : string) : string * string :=
  match s with
  | EmptyString => (EmptyString, EmptyString)
  | String c s' =>
      if is_coordinate_char c then
        let '(run, rest) := span_coordinate s' in (String c run, rest)
      else (EmptyString, s)
  end.

(** [re.match(r'([0-9.-]+ [NS]) ([0-9.-]+ [WE])', lat_lon)]: the two
    groups, when the text starts with a match.  A run of the class is
    followed by a blank, which is not in the class, so the greedy run is
    the only one that can match. *)
Definition match_lat_lon (lat_lon : string) : option (string * string) :=
  match span_coordinate lat_lon with
  | (String c1 run1, String " " (String ns (String " " rest))) =>
      if Ascii.eqb ns "N" || Ascii.eqb ns "S" then
        match span_coordinate rest with
        | (String c2 run2, String " " (String we _)) =>
            if Ascii.eqb we "W" || Ascii.eqb we "E" then
              Some (String c1 run1 +:+ " " +:+ String ns EmptyString,
                    String c2 run2 +:+ " " +:+ String we EmptyString)
            else None
        | _ => None
        end
      else None
  | _ => None
  end.

(** Lines 256-260. *)
Definition extract_release_date (record : SeqRecord) : result string :=
  match find (fun f => is_source f &&
                bool_decide (is_Some (qualifiers f !! "collection_date")))
             (features record) with
  | Some feature =>
      first_item (default [] (qualifiers feature !! "collection_date"))
  | None => Ok "NA"
  end.

(** Lines 265-270, for one feature: the first BOLD cross-reference of the
    feature replaces the code found so far. *)
Definition bold_code_of_feature (bold : string) (f : SeqFeature)
    : result string :=
  match qualifiers f !! "db_xref" with
  | Some db_xrefs =>
      match find (startswith "BOLD:") db_xrefs with
      | Some xref =>
          match split_char ":" xref with
          | _ :: p1 :: _ => first_item (split_char "." p1)
          | _ => Raise IndexError
          end
      | None => Ok bold
      end
  | None => Ok bold
  end.

(** Lines 263-270. *)
Fixpoint extract_bold_code (bold : string) (fs : list SeqFeature)
    : result string :=
  match fs with
  | [] => Ok bold
  | f :: fs' => b ← bold_code_of_feature bold f; extract_bold_code b fs'
  end.

Definition unwanted_terms : list string :=
  [ "von willebrand factor"; "nad"; "NADH"; "12s"; "16s"; "rRNA"; "tRNA";
    "ribosomal"; "COX2"; "COXII"; "COXIII"; "COX3" ].

(** Lines 234-236: the test of the upper filter. *)
Definition upper_filter_rejects (incluir_mitocondriales : string)
    (num_bases : nat) : bool :=
  String.eqb (lower incluir_mitocondriales) "No" && (1300 <? num_bases)%nat.

(** Lines 238-247: the gene of the record, or nothing when a cytochrome b
    record is shorter than 1000 or longer than 1200 bases. *)
Definition classify (description_lower : string) (num_bases : nat)
    : option Gene :=
  if mentions_any cytb_variants description_lower then
    if ((num_bases <? 1000) || (1200 <? num_bases))%nat then None
    else Some CYTB
  else if mentions_any coi_variants description_lower then Some COI
  else Some Unknown.

(** The fields read before the filters. *)
Record Fields : Type := MkFields {
  fields_species_name : option string;
  fields_specimen_voucher : string;
  fields_geography : string * string * string;
  fields_lat_lon : option (string * string)
}.

(** Lines 184-224.  The classification of lines 188-194 is not written
    out: its result is overwritten at line 238 before any use. *)
Definition read_fields (record : SeqRecord)
    (valid_species_name : option string) (search_method : string)
    : result Fields :=
  species_name ← flag_species_name record valid_species_name search_method;
  specimen_voucher ← extract_specimen_voucher record;
  feature0 ← first_item (features record);
  let geography := extract_geography (qualifiers feature0) in
  lat_lon ← get_first (qualifiers feature0) "lat_lon";
  Ok {| fields_species_name := species_name;
        fields_specimen_voucher := specimen_voucher;
        fields_geography := geography;
        fields_lat_lon := match_lat_lon lat_lon |}.

(** Lines 184-273: everything between the registry test and the
    registration. *)
Definition build_info (record : SeqRecord)
    (valid_species_name : option string)
    (search_method incluir_mitocondriales : string)
    : result (option Info) :=
  fields ← read_fields record valid_species_name search_method;
  let num_bases := String.length (seq record) in
  if (num_bases <? 590)%nat then Ok None
  else if upper_filter_rejects incluir_mitocondriales num_bases then Ok None
  else
    let description_lower := lower (description record) in
    match classify description_lower num_bases with
    | None => Ok None
    | Some gene =>
        if existsb (fun term => contains (lower term) description_lower)
             unwanted_terms
        then Ok None
        else
          release_date ← extract_release_date record;
          bold_code ← extract_bold_code "NA" (features record);
          Ok (Some {| accession := id record;
                      species_name := fields_species_name fields;
                      search_method := search_method;
                      gene := gene;
                      specimen_voucher := fields_specimen_voucher fields;
                      country := (fields_geography fields).1.1;
                      state := (fields_geography fields).1.2;
                      locality := (fields_geography fields).2;
                      latitude := from_option fst "NA" (fields_lat_lon fields);
                      longitude := from_option snd "NA" (fields_lat_lon fields);
                      num_bases := num_bases;
                      release_date := release_date;
                      bold_code := bold_code |})
    end.

(** Line 276: [info_secuencias[accession] = info]. *)
Definition registered (info : Info) (w : World) : World :=
  {| info_secuencias := <[accession info := info]> (info_secuencias w);
     requests := requests w;
     stdout := stdout w |}.

Definition register (info : Info) : M unit := fun w =>
  (Ok (), registered info w).

(** Lines 178-278. *)
Definition extract_info (record : SeqRecord)
    (valid_species_name : option string)
    (search_method incluir_mitocondriales : string) : M (option Info) :=
  fun w =>
    if bool_decide (is_Some (info_secuencias w !! id record)) then (Ok None, w)
    else
      (built ← lift (build_info record valid_species_name search_method
                       incluir_mitocondriales);
       match built with
       | None => mret None
       | Some info => register info;; mret (Some info)
       end) w.

(** *** Searches *)

Section Service.
Context `{Entrez}.

(** [Entrez.esearch(db=db, term=term, retmax=retmax, retstart=retstart)]
    followed by [Entrez.read]. *)
Definition esearch (db term : string) (retmax retstart : nat)
    : M SearchResult :=
  send (Esearch db term retmax retstart);;
  if search_raises db term retstart then lift (Raise IOError)
  else mret {| IdList := take retmax (drop retstart (search_hits db term));
               Count := length (search_hits db term) |}.

(** Lines 140-147. *)
Definition query_of (gene_variant species : string) : string :=
  if contains " " gene_variant then
    join " AND " (map (fun term => term +:+ "[All Fields]")
                      (split_ws gene_variant))
      +:+ " AND " +:+ species +:+ "[ORGN]"
  else gene_variant +:+ "[Gene] AND " +:+ species +:+ "[ORGN]".

(** [[(id, method) for id in id_list]] *)
Definition tagged (method : string) (id_list : list string)
    : list (string * string) :=
  map (fun i => (i, method)) id_list.

(** Lines 158-163: the loop asking for further pages.  The locals [ids]
    and [retstart] are returned with the way the loop ended, since they
    keep their values when a request raises.  [fuel] bounds the number of
    pages; the loop of the program has no bound. *)
Fixpoint more_pages (fuel : nat) (query method : string) (retmax : nat)
    (count : nat) (ids : list (string * string)) (retstart : nat) (w : World)
    : (list (string * string) * nat * result unit) * World :=
  if (retstart + retmax <? count)%nat then
    match fuel with
    | O => ((ids, retstart, Raise LoopsForever), w)
    | S fuel' =>
        let retstart := (retstart + retmax)%nat in
        match esearch "nucleotide" query retmax retstart w with
        | (Ok record, w') =>
            more_pages fuel' query method retmax (Count record)
              (ids ++ tagged method (IdList record)) retstart w'
        | (Raise e, w') => ((ids, retstart, Raise e), w')
        end
    end
  else ((ids, retstart, Ok ()), w).

(** Lines 138-168: one turn of the loop over [gene_variants]. *)
Definition search_variant (species method : string) (retmax : nat)
    (locals : list (string * string) * nat) (gene_variant : string)
    : M (list (string * string) * nat) :=
  fun w =>
    let '(ids, retstart) := locals in
    let query := query_of gene_variant species in
    let '((ids', retstart', outcome), w') :=
      match esearch "nucleotide" query retmax retstart w with
      | (Ok record, w1) =>
          more_pages (Count record) query method retmax (Count record)
            (ids ++ tagged method (IdList record)) retstart w1
      | (Raise e, w1) => ((ids, retstart, Raise e), w1)
      end in
    match outcome with
    | Ok _ => (Ok (ids', retstart'), w')
    | Raise e =>
        if is_Exception e
        then (print (SearchError query e);; mret (ids', retstart')) w'
        else (Raise e, w')
    end.

(** Lines 135-170. *)
Definition search_genbank (species method : string) (retmax retstart : nat)
    : M (list (string * string)) :=
  locals ← foldM (search_variant species method retmax) ([], retstart)
             gene_variants;
  mret (fst locals).

(** Lines 287, 338 and 387: the query of a taxon-wide search. *)
Definition taxon_query (taxon_name gene_variant : string) : string :=
  taxon_name +:+ "[ORGN] AND " +:+ gene_variant +:+ "[Gene]".

(** The body shared by [search_genbank_directly], [search_genbank_family]
    and [search_genbank_genus]: one request for each gene variant, the
    identifiers gathered in a set. *)
Definition search_taxon_variant (taxon_name : string)
    (on_error : string -> exn -> Line)
    (all_ids : gset string) (gene_variant : string) : M (gset string) :=
  let query := taxon_query taxon_name gene_variant in
  try_catch
    (record ← esearch "nucleotide" query 10000 0;
     mret (all_ids ∪ list_to_set (IdList record)))
    (fun e => print (on_error query e);; mret all_ids).

(** Lines 280-301.  The order in which a Python set is listed is not
    specified; [elements] lists it in some order. *)
Definition search_genbank_directly (order_name : string)
    : M (list (string * string)) :=
  all_ids ← foldM (search_taxon_variant order_name
                     (fun query e => SearchError query e)) ∅ gene_variants;
  mret (tagged "Direct GenBank Search" (elements all_ids)).

(** Lines 331-350. *)
Definition search_genbank_family (family_name : string)
    : M (list (string * string)) :=
  family_ids ← foldM (fun ids gene_variant =>
                  search_taxon_variant family_name
                    (fun _ e => VariantSearchError family_name gene_variant e)
                    ids gene_variant) ∅ gene_variants;
  mret (tagged "Family Search" (elements family_ids)).

(** Lines 380-399. *)
Definition search_genbank_genus (genus_name : string)
    : M (list (string * string)) :=
  genus_ids ← foldM (fun ids gene_variant =>
                  search_taxon_variant genus_name
                    (fun _ e => VariantSearchError genus_name gene_variant e)
                    ids gene_variant) ∅ gene_variants;
  mret (tagged "Genus Search" (elements genus_ids)).

(** The loop of lines 317-324 and 366-373: the names of the fetched
    taxa of the wanted rank.  The names gathered so far are returned
    with the way the loop ended. *)
Fixpoint taxa_of_rank (rank : string) (tax_ids : list string)
    (names : list string) (w : World) : (list string * result unit) * World :=
  match tax_ids with
  | [] => ((names, Ok ()), w)
  | tax_id :: rest =>
      match send (EfetchTaxonomy tax_id) w with
      | (_, w') =>
          match fetch_taxonomy tax_id with
          | Ok fetch_results =>
              taxa_of_rank rank rest
                (names ++ map ScientificName
                   (filter (fun t => Rank t = rank) fetch_results)) w'
          | Raise e => ((names, Raise e), w')
          end
      end
  end.

(** The body shared by [get_families_from_order] (lines 303-329) and
    [get_genera_from_family] (lines 352-378). *)
Definition taxa_under (taxon_name rank : string) : M (list string) :=
  fun w =>
    let query := taxon_name +:+ "[ORGN] AND " +:+ rank +:+ "[Rank]" in
    match esearch "taxonomy" query 500 0 w with
    | (Ok search_results, w1) =>
        match IdList search_results with
        | [] => (print (NothingFound taxon_name);; mret []) w1
        | tax_ids =>
            match taxa_of_rank rank tax_ids [] w1 with
            | ((names, Ok _), w2) => (Ok names, w2)
            | ((names, Raise e), w2) =>
                if is_Exception e
                then (print (TaxonomyError taxon_name e);; mret names) w2
                else (Raise e, w2)
            end
        end
    | (Raise e, w1) =>
        if is_Exception e
        then (print (TaxonomyError taxon_name e);; mret []) w1
        else (Raise e, w1)
    end.

Definition get_families_from_order (order_name : string) : M (list string) :=
  taxa_under order_name "family".

Definition get_genera_from_family (family_name : string) : M (list string) :=
  taxa_under family_name "genus".

(** Lines 172-176.  The callers hand over an element of the list of a
    search, the pair of an identifier and a method, as it is. *)
Definition fetch_sequence (accession : string * string) : M SeqRecord :=
  send (EfetchNucleotide accession);; lift (fetch_genbank accession).

(** *** main *)

(** The block repeated at lines 444-453, 463-471, 479-487, 494-502 and
    510-518: every accession is fetched and filtered inside its own
    [try]; an exception is printed and the loop goes on.  [name_of] gives
    the species name handed to [extract_info]. *)
Definition process_accession (name_of : SeqRecord -> option string)
    (search_method incluir_mitocondriales : string)
    (df_final : list DfRow) (accession : string * string) : M (list DfRow) :=
  try_catch
    (record ← fetch_sequence accession;
     info ← extract_info record (name_of record) search_method
              incluir_mitocondriales;
     mret (match info with
           | Some i => df_final ++ [Sequence i]
           | None => df_final
           end))
    (fun e => print (RecordError accession e);; mret df_final).

Definition process_accessions (name_of : SeqRecord -> option string)
    (search_method incluir_mitocondriales : string)
    (ids : list (string * string)) (df_final : list DfRow) : M (list DfRow) :=
  foldM (process_accession name_of search_method incluir_mitocondriales)
    df_final ids.

(** [record.annotations.get('organism')] *)
Definition organism (record : SeqRecord) : option string :=
  annotations record !! "organism".

(** Lines 438-456: one turn of the loop over the species. *)
Definition search_especie (incluir_mitocondriales : string)
    (locals : gset string * list DfRow) (especie : Especie)
    : M (gset string * list DfRow) :=
  let '(nombres_buscados, df_final) := locals in
  let nombre_valido := nombre_cientifico especie in
  if bool_decide (nombre_valido ∈ nombres_buscados) then mret locals
  else
    let nombres_buscados := {[nombre_valido]} ∪ nombres_buscados in
    ids_especie ← search_genbank nombre_valido "From ITIS" 100 0;
    match ids_especie with
    | [] =>
        mret (nombres_buscados,
              df_final ++ [NoSequences nombre_valido "No sequences"])
    | _ =>
        df ← process_accessions (fun _ => Some nombre_valido) "From ITIS"
               incluir_mitocondriales ids_especie df_final;
        mret (nombres_buscados, df)
    end.

(** Lines 458-474: one turn of the loop over the synonyms.  The loop
    stands after the loop over the species, not inside it: [nombre_valido]
    is the name of the last species. *)
Definition search_sinonimia (incluir_mitocondriales nombre_valido : string)
    (locals : gset string * list DfRow) (sinonimia : string)
    : M (gset string * list DfRow) :=
  let '(nombres_buscados, df_final) := locals in
  if bool_decide (sinonimia ∈ nombres_buscados) then mret locals
  else
    let nombres_buscados := {[sinonimia]} ∪ nombres_buscados in
    ids_sinonimia ← search_genbank sinonimia "From ITIS" 100 0;
    match ids_sinonimia with
    | [] =>
        mret (nombres_buscados,
              df_final ++
                [NoSequences nombre_valido (sinonimia +:+ " (No sequences)")])
    | _ =>
        df ← process_accessions (fun _ => Some (nombre_valido +:+ "*"))
               "From ITIS" incluir_mitocondriales ids_sinonimia df_final;
        mret (nombres_buscados, df)
    end.

(** Lines 434-474: the searches by species name and by synonym.  After
    the loop over the species the variable [especie] holds the last
    species; with no species it is unbound and line 458 raises. *)
Definition search_itis_names (especies_con_sinonimias : list Especie)
    (incluir_mitocondriales : string) : M (gset string * list DfRow) :=
  locals ← foldM (search_especie incluir_mitocondriales) (∅, [])
             especies_con_sinonimias;
  especie ← lift (match last especies_con_sinonimias with
                  | Some e => Ok e
                  | None => Raise NameError
                  end);
  foldM (search_sinonimia incluir_mitocondriales (nombre_cientifico especie))
    locals (sinonimias especie).

(** Lines 491-502: one turn of the loop over the families. *)
Definition search_family (incluir_mitocondriales : string)
    (df_final : list DfRow) (family : string) : M (list DfRow) :=
  print (Progress ("    Processing family: " +:+ family));;
  family_ids ← search_genbank_family family;
  process_accessions organism "Family Search" incluir_mitocondriales
    family_ids df_final.

(** Lines 507-518: one turn of the loop over the genera of a family. *)
Definition search_genus (incluir_mitocondriales : string)
    (df_final : list DfRow) (genus : string) : M (list DfRow) :=
  print (Progress ("    Processing genus: " +:+ genus));;
  genus_ids ← search_genbank_genus genus;
  process_accessions organism "Genus Search" incluir_mitocondriales
    genus_ids df_final.

(** Lines 419 and 434-518 of [main].  The arguments are what the lines
    before obtain: the answer typed at the second prompt, the species
    resolved from ITIS and the name of the taxon.  The value is
    [df_final], the table exported by lines 520-542.  The calls of ITIS
    and the export of the species at lines 423-432 are not part of
    it. *)
Definition main (answer : string) (especies_con_sinonimias : list Especie)
    (nombre_taxon : string) : M (list DfRow) :=
  let incluir_mitocondriales := lower (strip answer) in
  locals ← search_itis_names especies_con_sinonimias incluir_mitocondriales;
  let df_final := snd locals in
  print (Progress "Processing direct search in GenBank...");;
  direct_genbank_ids ← search_genbank_directly nombre_taxon;
  df_final ← process_accessions organism "Direct GenBank Search"
               incluir_mitocondriales direct_genbank_ids df_final;
  print (Progress "Processing families within the order...");;
  families ← get_families_from_order nombre_taxon;
  df_final ← foldM (search_family incluir_mitocondriales) df_final families;
  print (Progress "Processing genus within order...");;
  foldM (fun df_final family =>
           genera ← get_genera_from_family family;
           foldM (search_genus incluir_mitocondriales) df_final genera)
    df_final families.

(** The world when the script starts: [info_secuencias = {}] (line 15),
    nothing requested, nothing printed. *)
Definition initial_world : World :=
  {| info_secuencias := ∅; requests := []; stdout := [] |}.

(** The accessions of the accepted sequences of a table. *)
Definition accepted_accessions (df : list DfRow) : list string :=
  omap (fun row => match row with
                   | Sequence info => Some (accession info)
                   | NoSequences _ _ => None
                   end) df.

(** What one request of a taxon-wide search brings: the first 10000
    identifiers of the query, or nothing when the request fails. *)
Definition first_page_ids (taxon_name gene_variant : string) : gset string :=
  if search_raises "nucleotide" (taxon_query taxon_name gene_variant) 0
  then ∅
  else list_to_set
         (take 10000
            (search_hits "nucleotide" (taxon_query taxon_name gene_variant))).

End Service.

(** *** Invariants of a run *)

(** A computation that leaves the registry as it is, whatever its
    outcome. *)
Definition stable {A : Type} (m : M A) : Prop :=
  ∀ w, info_secuencias (m w).2 = info_secuencias w.

(** The accepted sequences of the table have distinct accessions, all of
    them registered. *)
Definition run_invariant (df : list DfRow) (w : World) : Prop :=
  NoDup (accepted_accessions df) ∧
  ∀ a, a ∈ accepted_accessions df → is_Some (info_secuencias w !! a).

(** *** Sample inputs *)

(** A sequence of [n] bases. *)
Fixpoint bases (n : nat) : string :=
  match n with
  | O => EmptyString
  | S n' => String "A" (bases n')
  end.

Definition source_feature : SeqFeature :=
  {| type := "source";
     qualifiers :=
       <["country" := ["Peru: Cusco, Machu Picchu"]]>
       (<["lat_lon" := ["13.16 S 72.54 W"]]>
       (<["specimen_voucher" := ["MUSM 1234"]]> ∅)) |}.

Definition sample_record (accession description : string) (length : nat)
    : SeqRecord :=
  {| id := accession;
     annotations := {[ "organism" := "Alpha a" ]};
     description := description;
     features := [source_feature];
     seq := bases length |}.

(** A record without any feature. *)
Definition featureless_record (accession : string) : SeqRecord :=
  {| id := accession;
     annotations := {[ "organism" := "Alpha a" ]};
     description := "Alpha a cytochrome oxidase subunit 1 (COI) gene";
     features := [];
     seq := bases 650 |}.

Definition coi_description : string :=
  "Alpha a voucher MUSM 1234 cytochrome oxidase subunit 1 (COI) gene".

Definition cytb_description : string :=
  "Alpha a isolate 7 cytochrome b (cytb) gene, complete cds".

(** A service with four nucleotide records.  Every query for the gene
    variant [COI] finds the identifiers 11, 12, 13 and 14: 11 is a COI
    record of 650 bases, 12 a record without features, 13 a COI record of
    1500 bases, and the fetch of 14 fails.  The taxonomy database is
    empty. *)
Definition sample_service : Entrez :=
  {| search_hits := fun db term =>
       if String.eqb db "nucleotide" && contains "COI[Gene]" term
       then ["11"; "12"; "13"; "14"] else [];
     search_raises := fun _ _ _ => false;
     fetch_genbank := fun accession =>
       if String.eqb accession.1 "11"
       then Ok (sample_record "AB000011.1" coi_description 650)
       else if String.eqb accession.1 "12"
       then Ok (featureless_record "AB000012.1")
       else if String.eqb accession.1 "13"
       then Ok (sample_record "AB000013.1" coi_description 1500)
       else Raise IOError;
     fetch_taxonomy := fun _ => Raise IOError |}.

(** A service that finds nothing. *)
Definition silent_service : Entrez :=
  {| search_hits := fun _ _ => [];
     search_raises := fun _ _ _ => false;
     fetch_genbank := fun _ => Raise IOError;
     fetch_taxonomy := fun _ => Raise IOError |}.

(** The identifiers ["0"], ["1"], ... up to [n - 1]. *)
Definition numbered (n : Z) : list string := pretty <$> seqZ 0 n.

(** A service where the query for the gene variant [COI] in the order
    Rodentia selects 10001 records, and every other query none. *)
Definition crowded_service : Entrez :=
  {| search_hits := fun db term =>
       if String.eqb db "nucleotide" &&
          String.eqb term (taxon_query "Rodentia" "COI")
       then numbered 10001 else [];
     search_raises := fun _ _ _ => false;
     fetch_genbank := fun _ => Raise IOError;
     fetch_taxonomy := fun _ => Raise IOError |}.

(** A service where, for the species Alpha a, the query for the gene
    variant [COI] selects 250 records and the query for the next variant,
    [COX1], three. *)
Definition paged_service : Entrez :=
  {| search_hits := fun db term =>
       if String.eqb db "nucleotide" then
         if String.eqb term (query_of "COI" "Alpha a") then numbered 250
         else if String.eqb term (query_of "COX1" "Alpha a")
         then ["900"; "901"; "902"]
         else []
       else [];
     search_raises := fun _ _ _ => false;
     fetch_genbank := fun _ => Raise IOError;
     fetch_taxonomy := fun _ => Raise IOError |}.

(** A record of 100 bases without any feature, and a service whose
    every fetch answers it. *)
Definition short_featureless_record (accession : string) : SeqRecord :=
  {| id := accession;
     annotations := {[ "organism" := "Alpha a" ]};
     description := "Alpha a cytochrome oxidase subunit 1 (COI) gene";
     features := [];
     seq := bases 100 |}.

Definition short_service : Entrez :=
  {| search_hits := fun _ _ => [];
     search_raises := fun _ _ _ => false;
     fetch_genbank := fun _ => Ok (short_featureless_record "AB000022.1");
     fetch_taxonomy := fun _ => Raise IOError |}.

(** The line of an accepted record, for a registry that already holds
    its accession. *)
Definition sample_info (accession : string) : Info :=
  {| accession := accession;
     species_name := Some "Alpha a";
     search_method := "From ITIS";
     gene := COI;
     specimen_voucher := "MUSM 1234";
     country := "Peru";
     state := "Cusco";
     locality := "Machu Picchu";
     latitude := "13.16 S";
     longitude := "72.54 W";
     num_bases := 650;
     release_date := "NA";
     bold_code := "NA" |}.

Definition one_species : list Especie :=
  [ {| tsn := "1"; nombre_cientifico := "Alpha a";
       sinonimias := ["Alpha old"] |} ].

(** Two species with one synonym each. *)
Definition two_species : list Especie :=
  [ {| tsn := "1"; nombre_cientifico := "Alpha a";
       sinonimias := ["Alpha old"] |};
    {| tsn := "2"; nombre_cientifico := "Beta b";
       sinonimias := ["Beta old"] |} ].

(** The search term of a request, when it is a search. *)
Definition request_term (r : Request) : option string :=
  match r with
  | Esearch _ term _ _ => Some term
  | _ => None
  end.

End Genbi.

(* ===================================================================== *)
(** ** genbi.py: the confirmation, the sheets and the raw data            *)
(* ===================================================================== *)

Module GenbiTables.
Import Genbi.

(** Lines 404-414: what [main] does with the answer to its first
    question. *)
Inductive Decision : Type := Continue | Terminated | Unrecognized.

Definition respuestas_afirmativas : list string :=
  [ "YES"; "yes"; "Yes"; "Y"; "y"; "si"; "SI" ].

Definition respuestas_negativas : list string :=
  [ "NO"; "no"; "No"; "N"; "n"; "NOT"; "Not"; "not" ].

Definition confirm (typed : string) : Decision :=
  let respuesta := lower (strip typed) in
  if bool_decide (respuesta ∈ respuestas_negativas) then Terminated
  else if bool_decide (respuesta ∈ respuestas_afirmativas) then Continue
  else Unrecognized.

#[global] Instance Gene_eq_dec : EqDecision Gene.
Proof. solve_decision. Defined.

(** The column [Locus] of a line of [df_final]: the gene of an accepted
    sequence, ['NA'] (here [None]) on a line without sequences. *)
Definition locus (row : DfRow) : option Gene :=
  match row with
  | Sequence info => Some (gene info)
  | NoSequences _ _ => None
  end.

(** Lines 536-537: [df_final[df_final['Locus'] == g]], a sheet of
    [Genbank_sequences.xlsx]. *)
Definition sheet (g : Gene) (df_final : list DfRow) : list DfRow :=
  filter (fun row => locus row = Some g) df_final.

(** Line 545: the table of [Genbank_rawdata.xlsx] holds the values of
    [info_secuencias].  It agrees with a table [df_final] when its lines
    are the accepted sequences of the table, each under its accession. *)
Definition rawdata_matches (df_final : list DfRow) (w : World) : Prop :=
  ∀ a info,
    info_secuencias w !! a = Some info ↔
    Sequence info ∈ df_final ∧ accession info = a.

(** A service whose requests for the second page of the variant [COI]
    and for the variant [COX1] fail. *)
Definition flaky_service : Entrez :=
  {| search_hits := fun db term =>
       if String.eqb db "nucleotide" then
         if String.eqb term (query_of "COI" "Alpha a") then numbered 250
         else if String.eqb term (query_of "COX1" "Alpha a")
         then ["900"; "901"; "902"]
         else []
       else [];
     search_raises := fun db term retstart =>
       String.eqb term (query_of "COX1" "Alpha a") ||
       (String.eqb term (query_of "COI" "Alpha a") && (100 <=? retstart)%nat);
     fetch_genbank := fun _ => Raise IOError;
     fetch_taxonomy := fun _ => Raise IOError |}.

(** A computation that lets no exception out: it returns, or it does
    not end. *)
Definition quiet {A : Type} (m : M A) : Prop :=
  ∀ w e w', m w = (Raise e, w') → is_Exception e = false.

(** Whether every character of a text satisfies a test. *)
Fixpoint all_chars (p : ascii -> bool) (s : string) : bool :=
  match s with
  | EmptyString => true
  | String c s' => p c && all_chars p s'
  end.

(** A text of ASCII characters only.  On such a text [str.strip] and
    [str.lower] are the functions [strip] and [lower] above; on other
    texts Python also folds the letters and strips the blanks that are
    not ASCII. *)
Definition is_ascii_text (s : string) : bool :=
  all_chars (λ c, (N_of_ascii c <? 128)%N) s.

Section Provenance.
Context `{Entrez}.

(** The identifiers of a search by species: each carries the method and
    was reported by the service for the query of one gene variant. *)
Definition reported (species method : string) (ids : list (string * string))
    : Prop :=
  Forall (λ p, p.2 = method ∧
               ∃ gv, gv ∈ gene_variants ∧
                     p.1 ∈ search_hits "nucleotide" (query_of gv species))
    ids.

(** The requests for the pages of a gene variant at the offsets given,
    in order. *)
Definition pages_asked (species gene_variant : string) (retmax : nat)
    (offsets : list nat) : list Request :=
  map (λ retstart,
         Esearch "nucleotide" (query_of gene_variant species) retmax retstart)
    offsets.

(** What one turn of the loop of [search_genbank] asks and prints for a
    gene variant: it asks for at least one page; only the last request
    can have failed; when it has, the failure is printed, and nothing is
    printed otherwise. *)
Definition variant_turn (species : string) (retmax : nat)
    (gene_variant : string) (turn : list Request * list Line) : Prop :=
  ∃ offsets last_offset,
    turn.1 = pages_asked species gene_variant retmax
               (offsets ++ [last_offset]) ∧
    Forall (λ retstart,
              search_raises "nucleotide" (query_of gene_variant species)
                retstart = false) offsets ∧
    turn.2 = if search_raises "nucleotide" (query_of gene_variant species)
                  last_offset
             then [SearchError (query_of gene_variant species) IOError]
             else [].

(** The names gathered by a taxonomy lookup: each is the scientific
    name of a fetched taxon of the wanted rank. *)
Definition fetched_of_rank (rank : string) (tax_ids names : list string)
    : Prop :=
  Forall (λ name,
            ∃ tax_id taxa t,
              tax_id ∈ tax_ids ∧ fetch_taxonomy tax_id = Ok taxa ∧
              t ∈ taxa ∧ Rank t = rank ∧ ScientificName t = name) names.

End Provenance.

End GenbiTables.

(* ===================================================================== *)
(** ** Priorization.py: the columns read and the tables written           *)
(* ===================================================================== *)

Module PriorizationTables.
Import Priorization.

(** The sum of the four score columns on one line. *)
Definition total_score (s : ScoredRow) : Z :=
  iucn_score s + area_loss_score s + eoo_score s + human_footprint_score s.

(** Line 336, [score_ssp585 - score_ssp245], for the two scored lines of
    one species. *)
Definition score_difference (s245 s585 : ScoredRow) : float :=
  (final_score s585 - final_score s245)%float.

(** *** Lines 165-187: the columns of the input, on one line

    A line of the table read from the file maps the names of the
    columns of the file to the values of the line: a column is in the
    table exactly when its name is in the map. *)

Definition column_mapping : list (string * string) :=
  [ ("species_name", "species_name");
    ("iucn_status", "iucn_status");
    ("area_loss_ssp245", "area_loss_ssp245");
    ("area_loss_ssp585", "area_loss_ssp585");
    ("terrestrial_eoo", "eoo");
    ("human_footprint", "human_footprint") ].

Definition needed_columns : list string :=
  [ "species_name"; "iucn_status"; "area_loss_ssp245"; "area_loss_ssp585";
    "eoo"; "human_footprint" ].

(** Lines 165-166: [species] stands in for a missing [species_name]. *)
Definition with_species_name (df : gmap string pyval) : gmap string pyval :=
  match df !! "species_name", df !! "species" with
  | None, Some v => <["species_name" := v]> df
  | _, _ => df
  end.

(** Lines 179-182: a copy, in which each mapped column that exists is
    written under its new name. *)
Definition normalize_columns (df : gmap string pyval) : gmap string pyval :=
  foldl (λ df_normalized '(orig_col, new_col),
           match df !! orig_col with
           | Some v => <[new_col := v]> df_normalized
           | None => df_normalized
           end) df column_mapping.

(** Lines 185-187: a needed column that is still missing is NaN. *)
Definition ensure_columns (df_normalized : gmap string pyval)
    : gmap string pyval :=
  foldl (λ df_normalized col,
           match df_normalized !! col with
           | Some _ => df_normalized
           | None => <[col := PyFloat nan]> df_normalized
           end) df_normalized needed_columns.

(** The six columns the scoring reads. *)
Definition species_row (df_normalized : gmap string pyval)
    : option SpeciesRow :=
  name ← df_normalized !! "species_name";
  status ← df_normalized !! "iucn_status";
  loss245 ← df_normalized !! "area_loss_ssp245";
  loss585 ← df_normalized !! "area_loss_ssp585";
  extent ← df_normalized !! "eoo";
  footprint ← df_normalized !! "human_footprint";
  Some (MkSpeciesRow name status loss245 loss585 extent footprint).

Definition normalized_row (df : gmap string pyval) : option SpeciesRow :=
  species_row (ensure_columns (normalize_columns (with_species_name df))).

(** *** Lines 117-149: [save_dataframe_with_formatting], the lines of
    the HTML table

    A table is given by the names of its columns, in order, and its
    lines; a line gives the value of each column.  The names of the
    columns are distinct in every table [prioritize_species] saves. *)

Definition nl : string := String "010"%char EmptyString.
Definition quote : string := String "034"%char EmptyString.

(** [s.replace('%', '')] *)
Fixpoint remove_percent (s : string) : string :=
  match s with
  | EmptyString => EmptyString
  | String c s' =>
      if Ascii.eqb c "%" then remove_percent s'
      else String c (remove_percent s')
  end.

(** [max(first :: others, key=key)]: the first item is kept until an
    item with a greater key is met. *)
Definition py_max (key : string -> float) (first : string)
    (others : list string) : string :=
  fold_left (λ best item, if (key best <? key item)%float then item else best)
    others first.

Section Html.
Context `{Builtins}.

(** Line 118. *)
Definition contribution_cols (columns : list string) : list string :=
  filter (λ col, contains "contribution" (lower col) = true) columns.

(** Lines 130-135: the number read from a cell, 0 when [float] fails. *)
Definition contrib_value (cell : pyval) : float :=
  match float_of_str (strip (remove_percent (py_str cell))) with
  | Some f => f
  | None => 0%float
  end.

(** Line 139, on the dictionary built at lines 128-135, whose keys are
    the contribution columns in their order. *)
Definition max_col (row : string -> pyval) (contribution_cols : list string)
    : option string :=
  match contribution_cols with
  | [] => None
  | first :: others => Some (py_max (λ col, contrib_value (row col)) first others)
  end.

(** Lines 126-147: whether the cell of a column is written with the
    class [max-value]. *)
Definition highlighted (columns : list string) (row : string -> pyval)
    (col : string) : bool :=
  let cols := contribution_cols columns in
  match cols with
  | [] => false
  | _ =>
      bool_decide (col ∈ cols) &&
      match max_col row cols with
      | Some best => String.eqb col best
      | None => false
      end
  end.

(** Lines 141-147. *)
Definition td (columns : list string) (row : string -> pyval) (col : string)
    : string :=
  if highlighted columns row col
  then "<td class=" +:+ quote +:+ "max-value" +:+ quote +:+ ">" +:+
       py_str (row col) +:+ "</td>" +:+ nl
  else "<td>" +:+ py_str (row col) +:+ "</td>" +:+ nl.

(** Lines 121-149. *)
Definition tr (columns : list string) (row : string -> pyval) : string :=
  "<tr>" +:+ nl +:+
  fold_left (λ html col, html +:+ td columns row col) columns EmptyString +:+
  "</tr>" +:+ nl.

End Html.

(** Lines 296-310: the columns of a contributions table. *)
Definition contributions_columns : list string :=
  [ "species name"; "iucn contribution"; "area loss contribution";
    "terrestrial eoo (km2) contribution"; "human footprint contribution" ].

(** A line of a contributions table whose last cell is not a number. *)
Definition sample_contributions (col : string) : pyval :=
  if String.eqb col "species name" then PyStr "Alpha a"
  else if String.eqb col "iucn contribution" then PyStr "12.5%"
  else if String.eqb col "area loss contribution" then PyStr "50%"
  else if String.eqb col "terrestrial eoo (km2) contribution"
  then PyStr " 50 %"
  else PyStr "n/a".

(** A line of an input file that has no column but the species. *)
Definition species_only : gmap string pyval :=
  {[ "species" := PyStr "Alpha a" ]}.

End PriorizationTables.

(* ===================================================================== *)
(** ** Auxiliary scripts/genbi.py, part 1: the functions for ITIS         *)
(* ===================================================================== *)

Module Itis.

(** *** JSON values, as Python reads them *)

Set Warnings "-register-all".

Inductive Json : Type :=
| JNull
| JBool (b : bool)
| JInt (n : Z)
| JFloat (f : float)
| JStr (s : string)
| JArr (items : list Json)
| JObj (fields : list (string * Json)).

(** [bool(v)] *)
Definition truthy (v : Json) : bool :=
  match v with
  | JNull => false
  | JBool b => b
  | JInt n => negb (n =? 0)
  | JFloat f => negb (f =? 0)%float
  | JStr s => negb (String.eqb s "")
  | JArr items => match items with [] => false | _ => true end
  | JObj fields => match fields with [] => false | _ => true end
  end.

(** The value of a key of a dictionary read from JSON: of a key that
    occurs twice the last value is kept. *)
Fixpoint field (key : string) (fields : list (string * Json)) : option Json :=
  match fields with
  | [] => None
  | (k, v) :: rest =>
      match field key rest with
      | Some later => Some later
      | None => if String.eqb k key then Some v else None
      end
  end.

(** [v.get(key)] *)
Definition py_get (v : Json) (key : string) : result Json :=
  match v with
  | JObj fields => Ok (default JNull (field key fields))
  | _ => Raise AttributeError
  end.

(** [v[key]] for a key that is a string *)
Definition py_item (v : Json) (key : string) : result Json :=
  match v with
  | JObj fields =>
      match field key fields with
      | Some x => Ok x
      | None => Raise KeyError
      end
  | _ => Raise TypeError
  end.

(** The keys of a dictionary, in the order of their first occurrence. *)
Fixpoint keys (seen : list string) (fields : list (string * Json))
    : list string :=
  match fields with
  | [] => []
  | (k, _) :: rest =>
      if existsb (String.eqb k) seen then keys seen rest
      else k :: keys (k :: seen) rest
  end.

(** The characters of a text, each a text. *)
Fixpoint characters (s : string) : list string :=
  match s with
  | EmptyString => []
  | String c s' => String c EmptyString :: characters s'
  end.

(** [for x in v] *)
Definition py_iter (v : Json) : result (list Json) :=
  match v with
  | JArr items => Ok items
  | JObj fields => Ok (JStr <$> keys [] fields)
  | JStr s => Ok (JStr <$> characters s)
  | _ => Raise TypeError
  end.

(** [v.strip()] and [v.lower()] *)
Definition py_strip (v : Json) : result string :=
  match v with
  | JStr s => Ok (strip s)
  | _ => Raise AttributeError
  end.

(** *** The web service of ITIS

    The service is outside the program.  Its answer to a request may
    change with time: it depends on the number of requests sent before.
    An answer is the data read by [respuesta.json()], or the exception
    raised by [requests.get] or by [json()]. *)

Inductive Failure : Type :=
| Timeout
| RequestException
| Python (e : exn).

Inductive Answer : Type :=
| Data (data : Json)
| Fails (f : Failure).

Inductive Request : Type :=
| FullRecord (tsn : Json)
| HierarchyDown (tsn : Json).

Class Service : Type := {
  answer : Request -> nat -> Answer
}.

(** What the functions print. *)
Inductive Line : Type :=
| TimedOut (intento : nat)
| RequestFailed (intento : nat)
| GaveUp (tsn : Json).

(** The requests sent, the seconds slept, the lines printed and the
    position of the progress bar. *)
Record World : Type := MkWorld {
  sent : list Request;
  slept : nat;
  printed : list Line;
  progress : nat
}.

Inductive outcome (A : Type) : Type :=
| Done (a : A)
| Failed (f : Failure).
Arguments Done {A} a.
Arguments Failed {A} f.

Definition M (A : Type) : Type := World -> outcome A * World.

#[export] Instance M_ret : MRet M := fun A a w => (Done a, w).

#[export] Instance M_bind : MBind M := fun A B k m w =>
  match m w with
  | (Done a, w') => k a w'
  | (Failed f, w') => (Failed f, w')
  end.

(** The outcome of a computation that sends nothing. *)
Definition of_result {A : Type} (r : result A) : outcome A :=
  match r with
  | Ok a => Done a
  | Raise e => Failed (Python e)
  end.

Definition lift {A : Type} (r : result A) : M A := fun w => (of_result r, w).

Definition fail {A : Type} (f : Failure) : M A := fun w => (Failed f, w).

Definition print (l : Line) : M unit := fun w =>
  (Done (), {| sent := sent w; slept := slept w;
               printed := printed w ++ [l]; progress := progress w |}).

Definition sleep (seconds : nat) : M unit := fun w =>
  (Done (), {| sent := sent w; slept := (slept w + seconds)%nat;
               printed := printed w; progress := progress w |}).

Definition update (n : nat) : M unit := fun w =>
  (Done (), {| sent := sent w; slept := slept w;
               printed := printed w; progress := (progress w + n)%nat |}).

(** [for x in l: acc = body(acc, x)] *)
Fixpoint foldM {A X : Type} (body : A -> X -> M A) (acc : A) (l : list X)
    : M A :=
  match l with
  | [] => mret acc
  | x :: l' => acc' ← body acc x; foldM body acc' l'
  end.

Section Functions.
Context `{Service}.

(** [requests.get(url).json()] *)
Definition get (r : Request) : M Json := fun w =>
  let w' := {| sent := sent w ++ [r]; slept := slept w;
               printed := printed w; progress := progress w |} in
  match answer r (length (sent w)) with
  | Data data => (Done data, w')
  | Fails f => (Failed f, w')
  end.

(** Lines 43-48. *)
Definition sinonimias_of (data : Json) : result (list Json) :=
  synonymList ← py_get data "synonymList";
  if truthy synonymList then
    synonyms ← py_item data "synonymList" ≫= λ l, py_get l "synonyms";
    if truthy synonyms then
      items ← (l ← py_item data "synonymList"; py_item l "synonyms")
              ≫= py_iter;
      foldl (λ sinonimias sinonimo,
               so_far ← sinonimias;
               if truthy sinonimo then
                 sciName ← py_item sinonimo "sciName";
                 Ok (so_far ++ [sciName])
               else Ok so_far) (Ok []) items
    else Ok []
  else Ok [].

Definition MAX_REINTENTOS : nat := 5.
Definition ESPERA : nat := 5.

(** Lines 37-59: the attempts that are left. *)
Fixpoint intentos (tsn_especie : Json) (left : list nat) : M (list Json) :=
  match left with
  | [] => _ ← print (GaveUp tsn_especie); mret []
  | intento :: rest => fun w =>
      match (data ← get (FullRecord tsn_especie); lift (sinonimias_of data)) w
      with
      | (Done sinonimias, w') => (Done sinonimias, w')
      | (Failed Timeout, w') =>
          (_ ← print (TimedOut (intento + 1)); _ ← sleep ESPERA;
           intentos tsn_especie rest) w'
      | (Failed RequestException, w') =>
          (_ ← print (RequestFailed (intento + 1)); _ ← sleep ESPERA;
           intentos tsn_especie rest) w'
      | (Failed (Python e), w') => (Failed (Python e), w')
      end
  end.

Definition obtener_sinonimias (tsn_especie : Json) : M (list Json) :=
  intentos tsn_especie (seq 0 MAX_REINTENTOS).

(** An entry of the list of species. *)
Record Especie : Type := MkEspecie {
  tsn : Json;
  nombre_cientifico : string;
  sinonimias : list Json
}.

(** [registro['rankName'].strip().lower()] *)
Definition rank_of (registro : Json) : result string :=
  rankName ← py_item registro "rankName";
  stripped ← py_strip rankName;
  Ok (lower stripped).

(** Lines 62-80.  The recursion follows the hierarchy the service
    answers, which need not end: [fuel] bounds its depth. *)
Fixpoint obtener_especies_recursivamente (fuel : nat) (tsn : Json)
    : M (list Especie) :=
  match fuel with
  | O => fail (Python LoopsForever)
  | S fuel' =>
      data ← get (HierarchyDown tsn);
      hierarchyList ← lift (py_get data "hierarchyList");
      if truthy hierarchyList then
        registros ← lift (py_item data "hierarchyList" ≫= py_iter);
        foldM (λ especies registro,
                 if truthy registro then
                   rank ← lift (rank_of registro);
                   if negb (String.eqb rank "species") then
                     child ← lift (py_item registro "tsn");
                     found ← obtener_especies_recursivamente fuel' child;
                     mret (especies ++ found)
                   else
                     tsn_especie ← lift (py_item registro "tsn");
                     nombre ← lift (py_item registro "taxonName" ≫= py_strip);
                     sinonimias ← lift (py_item registro "tsn")
                                  ≫= obtener_sinonimias;
                     _ ← update 1;
                     mret (especies ++ [MkEspecie tsn_especie nombre sinonimias])
                 else mret especies) [] registros
      else mret []
  end.

(** Lines 61-95.  The one worker of the pool runs the recursion; its
    exception is raised again by [future.result()].  [total_tsn] is the
    length of the progress bar. *)
Definition obtener_especies_desde_tsn (fuel : nat) (tsn : Json)
    (total_tsn : nat) : M (list Especie) :=
  especies ← obtener_especies_recursivamente fuel tsn;
  foldM (λ done '(MkEspecie tsn_especie nombre _),
           sinonimias ← obtener_sinonimias tsn_especie;
           mret (done ++ [MkEspecie tsn_especie nombre sinonimias]))
    [] especies.

(** Lines 97-109. *)
Fixpoint obtener_cantidad_tsn (fuel : nat) (tsn : Json) : M nat :=
  match fuel with
  | O => fail (Python LoopsForever)
  | S fuel' =>
      data ← get (HierarchyDown tsn);
      hierarchyList ← lift (py_get data "hierarchyList");
      if truthy hierarchyList then
        registros ← lift (py_item data "hierarchyList" ≫= py_iter);
        foldM (λ contador registro,
                 if truthy registro then
                   rank ← lift (rank_of registro);
                   if negb (String.eqb rank "species") then
                     child ← lift (py_item registro "tsn");
                     n ← obtener_cantidad_tsn fuel' child;
                     mret (contador + n)%nat
                   else mret (contador + 1)%nat
                 else mret contador) 0%nat registros
      else mret 0%nat
  end.

End Functions.

(** The requests for a full record among the requests sent. *)
Definition is_full_record (r : Request) : bool :=
  match r with
  | FullRecord _ => true
  | HierarchyDown _ => false
  end.

Definition full_records (l : list Request) : nat :=
  length (List.filter is_full_record l).

(** The requests of a pass over the species of the TSNs given: one group
    of requests for each species, in the order of the species, and the
    group of a species holds between one and five requests for the full
    record of its TSN. *)
Definition asked_for (tsns : list Json) (reqs : list Request) : Prop :=
  ∃ groups,
    Forall2 (λ t group,
               ∃ n, (1 ≤ n ≤ 5)%nat ∧ group = replicate n (FullRecord t))
      tsns groups ∧
    reqs = concat groups.

(** A failure of the transport, which [obtener_sinonimias] retries. *)
Definition retried (a : Answer) : bool :=
  match a with
  | Fails Timeout | Fails RequestException => true
  | _ => false
  end.

(** What [m] attempts for the synonyms of [tsn] make of the world [w]:
    the first [n] requests fail in the transport, each followed by a
    pause; either these are all the attempts and the list is empty, or
    the next answer decides the outcome. *)
Definition attempts_outcome `{Service} (tsn : Json) (m : nat) (w : World)
    (run : outcome (list Json) * World) : Prop :=
  ∃ n, (n ≤ m)%nat ∧
    (∀ i, (i < n)%nat →
       retried (answer (FullRecord tsn) (length (sent w) + i)) = true) ∧
    slept run.2 = (slept w + ESPERA * n)%nat ∧
    if decide (n = m) then
      run.1 = Done [] ∧
      sent run.2 = sent w ++ replicate m (FullRecord tsn)
    else
      retried (answer (FullRecord tsn) (length (sent w) + n)) = false ∧
      run.1 = match answer (FullRecord tsn) (length (sent w) + n) with
              | Data data => of_result (sinonimias_of data)
              | Fails f => Failed f
              end ∧
      sent run.2 = sent w ++ replicate (S n) (FullRecord tsn).

(** A service whose answers do not change with time. *)
Definition stationary `{Service} : Prop :=
  ∀ r i j, answer r i = answer r j.

(** *** Sample services *)

Definition tsn_is (t : Json) (s : string) : bool :=
  match t with
  | JStr t' => String.eqb t' s
  | _ => false
  end.

Definition registro (t rank name : string) : Json :=
  JObj [("tsn", JStr t); ("rankName", JStr rank); ("taxonName", JStr name)].

(** An order with a genus of one species and a species of its own; the
    service answers a list with a null entry for a taxon without
    children, and a null entry ends the list of synonyms. *)
Definition sample_itis : Service :=
  {| answer := fun r _ =>
       match r with
       | HierarchyDown t =>
           if tsn_is t "1" then
             Data (JObj [("hierarchyList",
                          JArr [registro "2" "Genus" "Alpha"; JNull;
                                registro "3" " Species " " Beta b "])])
           else if tsn_is t "2" then
             Data (JObj [("hierarchyList",
                          JArr [registro "4" "Species" "Alpha a"])])
           else Data (JObj [("hierarchyList", JArr [JNull])])
       | FullRecord t =>
           if tsn_is t "4" then
             Data (JObj [("synonymList",
                          JObj [("synonyms",
                                 JArr [JObj [("sciName", JStr "Alpha old")];
                                       JNull])])])
           else Data (JObj [("synonymList", JNull)])
       end |}.

(** The same service when its first two answers time out. *)
Definition slow_itis : Service :=
  {| answer := fun r i =>
       if (i <? 2)%nat then Fails Timeout
       else answer (Service:=sample_itis) r i |}.

Definition nothing_sent : World :=
  {| sent := []; slept := 0; printed := []; progress := 0 |}.

Definition sample_especies : list Especie :=
  [ MkEspecie (JStr "4") "Alpha a" [JStr "Alpha old"];
    MkEspecie (JStr "3") "Beta b" [] ].

End Itis.

(* ===================================================================== *)
(** * Part II.  Properties                                                *)
(* ===================================================================== *)

(** ** The criterion scorers *)

Module PriorizationFacts.
Import Priorization.

Section Scorers.
Context `{Builtins}.

Lemma scores_range (k : string) : 1 ≤ default 3 (scores !! k) ≤ 7.
Proof.
  destruct (scores !! k) as [n|] eqn:Hk; simpl; [|lia].
  assert (Hall : map_Forall (λ _ n, 1 ≤ n ≤ 7) scores).
  { unfold scores. repeat (apply map_Forall_insert_2; [lia|]).
    apply map_Forall_empty. }
  exact (Hall k n Hk).
Qed.

(** A 64-bit integer is within the range of [float] and of [str]. *)
Lemma int64_bounds (n : int64) : Z.abs (int64_val n) ≤ 2 ^ 63.
Proof.
  destruct n as [n Hn]; simpl. unfold in_int64 in Hn.
  apply andb_prop in Hn as [Hlo%Z.leb_le Hhi%Z.ltb_lt]. lia.
Qed.

Lemma int64_float (n : int64) : float_overflows (int64_val n) = false.
Proof.
  unfold float_overflows. apply Z.leb_gt.
  pose proof (int64_bounds n).
  assert (2 ^ 63 < 2 ^ 1024 - 2 ^ 970) by (vm_compute; reflexivity). lia.
Qed.

Lemma int64_str (n : int64) : str_overflows (int64_val n) = false.
Proof.
  unfold str_overflows. destruct (0 <? int_max_str_digits)%nat; [|done].
  simpl. apply Z.leb_gt. pose proof (int64_bounds n).
  assert (2 ^ 63 < 10 ^ 640) by (vm_compute; reflexivity).
  assert (10 ^ 640 ≤ 10 ^ Z.of_nat (Nat.max 640 int_max_str_digits))
    by (apply Z.pow_le_mono_r; lia).
  lia.
Qed.

(** On the value of a cell [str] returns. *)
Lemma cell_str (v : pyval) : obj_str v = Ok (py_str v).
Proof. destruct v as [| b | n | f | s]; simpl; try done. by rewrite int64_str. Qed.

(** [float] raises [TypeError], [ValueError], which the scorers catch,
    and [OverflowError] on an integer beyond its range. *)
Lemma py_float_raises (v : pyobj) (e : exn) :
  py_float v = Raise e →
  is_ValueError_or_TypeError e = true ∨
  e = OverflowError ∧ ∃ n, v = ObjInt n ∧ float_overflows n = true.
Proof.
  destruct v as [| b | n | f | s]; simpl; try discriminate.
  - intros [= <-]. by left.
  - destruct (float_overflows n) eqn:Hn; [|discriminate].
    intros [= <-]. right. split; [done|]. by exists n.
  - destruct (float_of_str s); [discriminate|]. intros [= <-]. by left.
Qed.

Lemma cell_float_raises (v : pyval) (e : exn) :
  py_float v = Raise e → is_ValueError_or_TypeError e = true.
Proof.
  intros [He|(_ & n & Hv & Hn)]%py_float_raises; [done|].
  destruct v as [| b | m | f | s]; try discriminate.
  injection Hv as <-. by rewrite int64_float in Hn.
Qed.

Ltac band_cases :=
  repeat (case_match; [eexists; split; [reflexivity|lia]|]);
  eexists; split; [reflexivity|lia].

Ltac banded v :=
  destruct (missing v); [exists 3; split; [reflexivity|lia]|];
  let Hf := fresh "Hf" in
  destruct (py_float v) as [f|e] eqn:Hf; simpl;
  [ band_cases
  | rewrite (cell_float_raises _ _ Hf); exists 3; split; [reflexivity|lia] ].

Lemma iucn_band (v : pyval) :
  ∃ n, calculate_iucn_score v = Ok n ∧ 1 ≤ n ≤ 7.
Proof.
  unfold calculate_iucn_score.
  destruct (missing v); [exists 3; split; [reflexivity|lia]|].
  rewrite cell_str. simpl.
  eexists; split; [reflexivity|]. apply scores_range.
Qed.

Lemma area_loss_band (v : pyval) :
  ∃ n, calculate_area_loss_score v = Ok n ∧ 1 ≤ n ≤ 5.
Proof. unfold calculate_area_loss_score. banded v. Qed.

Lemma eoo_band (v : pyval) :
  ∃ n, calculate_eoo_score v = Ok n ∧ 1 ≤ n ≤ 5.
Proof. unfold calculate_eoo_score. banded v. Qed.

Lemma human_footprint_band (v : pyval) :
  ∃ n, calculate_human_footprint_score v = Ok n ∧ 1 ≤ n ≤ 5.
Proof. unfold calculate_human_footprint_score. banded v. Qed.

Lemma banded_default_missing (v : pyobj) :
  missing v = true →
  calculate_iucn_score v = Ok 3 ∧
  calculate_area_loss_score v = Ok 3 ∧
  calculate_eoo_score v = Ok 3 ∧
  calculate_human_footprint_score v = Ok 3.
Proof.
  intros Hm.
  unfold calculate_iucn_score, calculate_area_loss_score,
    calculate_eoo_score, calculate_human_footprint_score.
  by rewrite Hm.
Qed.

Lemma banded_default_unparseable (v : pyobj) (e : exn) :
  py_float v = Raise e → e ≠ OverflowError →
  calculate_area_loss_score v = Ok 3 ∧
  calculate_eoo_score v = Ok 3 ∧
  calculate_human_footprint_score v = Ok 3.
Proof.
  intros Hf Hne.
  destruct (py_float_raises _ _ Hf) as [He|[-> _]]; [|done].
  unfold calculate_area_loss_score, calculate_eoo_score,
    calculate_human_footprint_score.
  destruct (missing v); [done|].
  rewrite Hf; simpl. by rewrite He.
Qed.

(** An integer beyond the range of [float] is not a missing value, and
    the exception of [float] is not one the scorers catch. *)
Lemma banded_overflow (n : Z) :
  float_overflows n = true →
  calculate_area_loss_score (ObjInt n) = Raise OverflowError ∧
  calculate_eoo_score (ObjInt n) = Raise OverflowError ∧
  calculate_human_footprint_score (ObjInt n) = Raise OverflowError.
Proof.
  intros Hn.
  unfold calculate_area_loss_score, calculate_eoo_score,
    calculate_human_footprint_score. simpl. by rewrite Hn.
Qed.

Lemma banded_numeric (v : pyobj) :
  py_float v ≠ Raise OverflowError →
  (∃ n, calculate_area_loss_score v = Ok n ∧ 1 ≤ n ≤ 5) ∧
  (∃ n, calculate_eoo_score v = Ok n ∧ 1 ≤ n ≤ 5) ∧
  (∃ n, calculate_human_footprint_score v = Ok n ∧ 1 ≤ n ≤ 5).
Proof.
  intros Hno.
  unfold calculate_area_loss_score, calculate_eoo_score,
    calculate_human_footprint_score.
  destruct (missing v);
    [split_and!; exists 3; (split; [reflexivity|lia])|].
  destruct (py_float v) as [f|e] eqn:Hf; simpl.
  - split_and!; band_cases.
  - destruct (py_float_raises _ _ Hf) as [He|[-> _]]; [|done].
    rewrite He. split_and!; exists 3; (split; [reflexivity|lia]).
Qed.

(** A score that a scorer returns is in its range, whatever the scalar
    it was applied to. *)
Lemma iucn_score_range (v : pyobj) (n : Z) :
  calculate_iucn_score v = Ok n → 1 ≤ n ≤ 7.
Proof.
  unfold calculate_iucn_score.
  destruct (missing v); [intros [= <-]; lia|].
  destruct (obj_str v) as [text|e]; simpl; [|discriminate].
  intros [= <-]. apply scores_range.
Qed.

Lemma banded_score_range (v : pyobj) (n : Z) :
  calculate_area_loss_score v = Ok n ∨
  calculate_eoo_score v = Ok n ∨
  calculate_human_footprint_score v = Ok n →
  1 ≤ n ≤ 5.
Proof.
  intros Hn.
  assert (Hcases :
    py_float v ≠ Raise OverflowError ∨
    ∃ m, v = ObjInt m ∧ float_overflows m = true).
  { destruct (py_float v) as [f|e] eqn:Hf; [by left|].
    destruct (py_float_raises _ _ Hf) as [He|(_ & m & Hv & Hm)].
    - left. intros [= ->]. discriminate He.
    - right. by exists m. }
  destruct Hcases as [Hno|(m & -> & Hm)].
  - destruct (banded_numeric v Hno)
      as ((a & Ha & ?) & (b & Hb & ?) & (c & Hc & ?)).
    destruct Hn as [Hn|[Hn|Hn]].
    + rewrite Ha in Hn. injection Hn as <-. done.
    + rewrite Hb in Hn. injection Hn as <-. done.
    + rewrite Hc in Hn. injection Hn as <-. done.
  - destruct (banded_overflow m Hm) as (Ha & Hb & Hc).
    destruct Hn as [Hn|[Hn|Hn]]; congruence.
Qed.

(** C9, as the program has it.  On a scalar each scorer returns an
    integer, [calculate_iucn_score] from 1 to 7 and the area-loss, EOO
    and human-footprint scorers from 1 to 5, with two exceptions that
    leave the scorer: the [ValueError] of [str] on an integer of more
    digits than the interpreter converts, in [calculate_iucn_score], and
    the [OverflowError] of [float] on an integer beyond the range of
    binary64, in the three others.  Neither occurs on the value of a
    cell, whose integers have 64 bits.  The answer is 3 on a missing
    value, on a value [float] cannot parse and on a status that is not in
    the table. *)
Theorem scorers_return_bounded_integers (v : pyobj) :
  match obj_str v with
  | Ok _ => ∃ n, calculate_iucn_score v = Ok n ∧ 1 ≤ n ≤ 7
  | Raise e =>
      (∃ n, v = ObjInt n ∧ str_overflows n = true) ∧
      calculate_iucn_score v = Raise ValueError
  end ∧
  match py_float v with
  | Raise OverflowError =>
      (∃ n, v = ObjInt n ∧ float_overflows n = true) ∧
      calculate_area_loss_score v = Raise OverflowError ∧
      calculate_eoo_score v = Raise OverflowError ∧
      calculate_human_footprint_score v = Raise OverflowError
  | _ =>
      (∃ n, calculate_area_loss_score v = Ok n ∧ 1 ≤ n ≤ 5) ∧
      (∃ n, calculate_eoo_score v = Ok n ∧ 1 ≤ n ≤ 5) ∧
      (∃ n, calculate_human_footprint_score v = Ok n ∧ 1 ≤ n ≤ 5)
  end ∧
  (∀ cell : pyval, v = cell →
     (∃ n, calculate_iucn_score v = Ok n ∧ 1 ≤ n ≤ 7) ∧
     (∃ n, calculate_area_loss_score v = Ok n ∧ 1 ≤ n ≤ 5) ∧
     (∃ n, calculate_eoo_score v = Ok n ∧ 1 ≤ n ≤ 5) ∧
     (∃ n, calculate_human_footprint_score v = Ok n ∧ 1 ≤ n ≤ 5)) ∧
  (missing v = true →
     calculate_iucn_score v = Ok 3 ∧
     calculate_area_loss_score v = Ok 3 ∧
     calculate_eoo_score v = Ok 3 ∧
     calculate_human_footprint_score v = Ok 3) ∧
  (∀ e, py_float v = Raise e → e ≠ OverflowError →
     calculate_area_loss_score v = Ok 3 ∧
     calculate_eoo_score v = Ok 3 ∧
     calculate_human_footprint_score v = Ok 3) ∧
  (∀ text, obj_str v = Ok text → scores !! upper text = None →
     calculate_iucn_score v = Ok 3).
Proof.
  split_and!.
  - destruct (obj_str v) as [text|e] eqn:Htext.
    + unfold calculate_iucn_score.
      destruct (missing v); [exists 3; split; [reflexivity|lia]|].
      rewrite Htext. simpl. eexists; split; [reflexivity|].
      apply scores_range.
    + destruct v as [| b | n | f | s]; try discriminate Htext.
      simpl in Htext. destruct (str_overflows n) eqn:Hn; [|discriminate].
      split; [by exists n|].
      unfold calculate_iucn_score. simpl. by rewrite Hn.
  - destruct (py_float v) as [f|e] eqn:Hf.
    + apply banded_numeric. by rewrite Hf.
    + destruct (py_float_raises _ _ Hf) as [He|(-> & n & -> & Hn)].
      * destruct e; try discriminate He;
          apply banded_numeric; by rewrite Hf.
      * split; [by exists n|]. by apply banded_overflow.
  - intros cell ->. split_and!.
    + apply iucn_band.
    + apply area_loss_band.
    + apply eoo_band.
    + apply human_footprint_band.
  - apply banded_default_missing.
  - apply banded_default_unparseable.
  - intros text Htext Hk. unfold calculate_iucn_score.
    destruct (missing v); [done|]. rewrite Htext. simpl. by rewrite Hk.
Qed.

End Scorers.

(** ** Contributions and the final score *)

Section Contributions.
Context `{Builtins}.

Lemma row_invariant_all_true (r : SpeciesRow) : row_invariant_all r = true.
Proof. vm_compute. reflexivity. Qed.

Lemma in_seqZ (n lo len : Z) : lo ≤ n < lo + len → In n (seqZ lo len).
Proof. intros Hn. apply list_elem_of_In, elem_of_seqZ. lia. Qed.

Lemma row_invariant_scores (r : SpeciesRow) (a b c d : Z) :
  1 ≤ a ≤ 7 → 1 ≤ b ≤ 5 → 1 ≤ c ≤ 5 → 1 ≤ d ≤ 5 →
  row_invariant (contribution_columns r a b c d) = true.
Proof.
  intros Ha Hb Hc Hd.
  pose proof (row_invariant_all_true r) as Hall.
  unfold row_invariant_all in Hall.
  rewrite forallb_forall in Hall.
  specialize (Hall a (in_seqZ a 1 7 ltac:(lia))). cbv beta in Hall.
  rewrite forallb_forall in Hall.
  specialize (Hall b (in_seqZ b 1 5 ltac:(lia))). cbv beta in Hall.
  rewrite forallb_forall in Hall.
  specialize (Hall c (in_seqZ c 1 5 ltac:(lia))). cbv beta in Hall.
  rewrite forallb_forall in Hall.
  exact (Hall d (in_seqZ d 1 5 ltac:(lia))).
Qed.

(** Every line is scored: no scorer raises, and the scores are in range. *)
Lemma score_row_total (sc : Scenario) (r : SpeciesRow) :
  ∃ a b c d,
    score_row sc r = Ok (contribution_columns r a b c d) ∧
    1 ≤ a ≤ 7 ∧ 1 ≤ b ≤ 5 ∧ 1 ≤ c ≤ 5 ∧ 1 ≤ d ≤ 5.
Proof.
  destruct (iucn_band (iucn_status r)) as (a & Ha & ?).
  destruct (area_loss_band (area_loss sc r)) as (b & Hb & ?).
  destruct (eoo_band (eoo r)) as (c & Hc & ?).
  destruct (human_footprint_band (human_footprint r)) as (d & Hd & ?).
  exists a, b, c, d. unfold score_row.
  rewrite Ha; simpl. rewrite Hb; simpl. rewrite Hc; simpl. rewrite Hd; simpl.
  done.
Qed.

(** A property of every scored line is a property of the whole table,
    which is scored line by line, in order, without raising. *)
Lemma score_table_rows (P : SpeciesRow → ScoredRow → Prop) (sc : Scenario) :
  (∀ r, ∃ s, score_row sc r = Ok s ∧ P r s) →
  ∀ df, ∃ rows, score_table sc df = Ok rows ∧ Forall2 P df rows.
Proof.
  intros Hrow. unfold score_table.
  induction df as [|r df (rows & Hrows & Hall)]; simpl.
  - exists []. split; [reflexivity|constructor].
  - destruct (Hrow r) as (s & Hs & HP).
    exists (s :: rows). rewrite Hs; simpl. rewrite Hrows; simpl.
    split; [reflexivity|]. by constructor.
Qed.

Lemma score_row_final_score (sc : Scenario) (r : SpeciesRow) :
  ∃ s, score_row sc r = Ok s ∧
    (input s = r ∧
     1 ≤ iucn_score s ∧ 1 ≤ area_loss_score s ∧
     1 ≤ eoo_score s ∧ 1 ≤ human_footprint_score s ∧
     (1 <=? final_score s)%float = true ∧
     (final_score s =? 0)%float = false).
Proof.
  destruct (score_row_total sc r) as (a & b & c & d & Hs & Ha & Hb & Hc & Hd).
  pose proof (row_invariant_scores r a b c d Ha Hb Hc Hd) as Hinv.
  unfold row_invariant in Hinv.
  repeat (apply andb_prop in Hinv as [Hinv ?]).
  eexists; split; [exact Hs|]. simpl.
  split_and!; try lia; [done..|]. by apply negb_true_iff.
Qed.

(** C8.  On every input line, in either scenario, the four scores are
    at least 1 and the final score is at least 1.0: the final score by
    which every percentage contribution is divided is never zero.  The
    table of a scenario has one scored line for each input line. *)
Theorem final_score_at_least_one (sc : Scenario) (df : list SpeciesRow) :
  ∃ rows, score_table sc df = Ok rows ∧
    Forall2 (λ r s,
      input s = r ∧
      1 ≤ iucn_score s ∧ 1 ≤ area_loss_score s ∧
      1 ≤ eoo_score s ∧ 1 ≤ human_footprint_score s ∧
      (1 <=? final_score s)%float = true ∧
      (final_score s =? 0)%float = false) df rows.
Proof. apply score_table_rows, score_row_final_score. Qed.

(** C7.  Every line of the table of either scenario is scored, and on
    each scored line each absolute contribution is the criterion's score
    times 0.25, the final score is the sum of the four absolute
    contributions, which add up to it exactly (so also within 1e-9), and
    the four percentage columns of the line are the texts, with a per
    cent sign, of four numbers, each the rounded share of an absolute
    contribution in the final score, that add up to 100 within 0.1.  The
    same holds of the columns computed from any four scores the scorers
    return, whatever the scalars they were applied to. *)
Theorem contributions_add_up (sc : Scenario) (df : list SpeciesRow) :
  let adds_up (s : ScoredRow) : Prop :=
    iucn_contribution_abs s = (float_of_Z (iucn_score s) * 0.25)%float ∧
    area_loss_contribution_abs s
      = (float_of_Z (area_loss_score s) * 0.25)%float ∧
    eoo_contribution_abs s = (float_of_Z (eoo_score s) * 0.25)%float ∧
    human_footprint_contribution_abs s
      = (float_of_Z (human_footprint_score s) * 0.25)%float ∧
    final_score s
      = (iucn_contribution_abs s + area_loss_contribution_abs s
         + eoo_contribution_abs s + human_footprint_contribution_abs s)%float ∧
    (fsum (contributions_abs s) =? final_score s)%float = true ∧
    within 1e-9 (fsum (contributions_abs s)) (final_score s) = true ∧
    ∃ p_iucn p_area_loss p_eoo p_human_footprint,
      iucn_contribution s = str_of_float p_iucn +:+ "%" ∧
      area_loss_contribution s = str_of_float p_area_loss +:+ "%" ∧
      eoo_contribution s = str_of_float p_eoo +:+ "%" ∧
      human_footprint_contribution s
        = str_of_float p_human_footprint +:+ "%" ∧
      p_iucn
        = round2 (iucn_contribution_abs s / final_score s * 100)%float ∧
      p_area_loss
        = round2 (area_loss_contribution_abs s / final_score s
                  * 100)%float ∧
      p_eoo = round2 (eoo_contribution_abs s / final_score s * 100)%float ∧
      p_human_footprint
        = round2 (human_footprint_contribution_abs s / final_score s
                  * 100)%float ∧
      within 0.1 (fsum [p_iucn; p_area_loss; p_eoo; p_human_footprint]) 100
      = true in
  (∃ rows, score_table sc df = Ok rows ∧
     Forall2 (λ r s, input s = r ∧ adds_up s) df rows) ∧
  (∀ (r : SpeciesRow) (status loss extent overlap : pyobj) (a b c d : Z),
     calculate_iucn_score status = Ok a →
     calculate_area_loss_score loss = Ok b →
     calculate_eoo_score extent = Ok c →
     calculate_human_footprint_score overlap = Ok d →
     adds_up (contribution_columns r a b c d)).
Proof.
  intros adds_up.
  assert (Hcols : ∀ r a b c d,
            1 ≤ a ≤ 7 → 1 ≤ b ≤ 5 → 1 ≤ c ≤ 5 → 1 ≤ d ≤ 5 →
            adds_up (contribution_columns r a b c d)).
  { intros r a b c d Ha Hb Hc Hd.
    pose proof (row_invariant_scores r a b c d Ha Hb Hc Hd) as Hinv.
    unfold row_invariant in Hinv.
    repeat (apply andb_prop in Hinv as [Hinv ?]).
    unfold adds_up. split_and!; try done.
    eexists _, _, _, _. split_and!; try reflexivity. done. }
  split.
  - apply score_table_rows. intros r.
    destruct (score_row_total sc r)
      as (a & b & c & d & Hs & Ha & Hb & Hc & Hd).
    eexists; split; [exact Hs|]. split; [reflexivity|]. by apply Hcols.
  - intros r status loss extent overlap a b c d Ha Hb Hc Hd.
    apply Hcols.
    + by eapply iucn_score_range.
    + eapply banded_score_range. left. exact Hb.
    + eapply banded_score_range. right. left. exact Hc.
    + eapply banded_score_range. right. right. exact Hd.
Qed.

End Contributions.

(** ** The scorers on the sample lines *)

(** Witness of C9: a missing value, a text [float] cannot read and a
    status that is not in the table all score 3. *)
Lemma scorers_return_bounded_integers_witness :
  (calculate_iucn_score (H:=sample_builtins) (PyFloat nan) = Ok 3 ∧
   calculate_area_loss_score (H:=sample_builtins) (PyFloat nan) = Ok 3 ∧
   calculate_eoo_score (H:=sample_builtins) (PyFloat nan) = Ok 3 ∧
   calculate_human_footprint_score (H:=sample_builtins) (PyFloat nan) = Ok 3) ∧
  (calculate_area_loss_score (H:=sample_builtins) (PyStr "high") = Ok 3 ∧
   calculate_eoo_score (H:=sample_builtins) (PyStr "high") = Ok 3 ∧
   calculate_human_footprint_score (H:=sample_builtins) (PyStr "high") = Ok 3) ∧
  calculate_iucn_score (H:=sample_builtins) (PyStr "high") = Ok 3.
Proof.
  destruct (scorers_return_bounded_integers (H:=sample_builtins) (PyFloat nan))
    as (_ & _ & _ & Hmissing & _ & _).
  destruct (scorers_return_bounded_integers (H:=sample_builtins) (PyStr "high"))
    as (_ & _ & _ & _ & Hunparseable & Hstatus).
  split; [apply Hmissing; reflexivity|].
  split; [apply (Hunparseable ValueError); [reflexivity|discriminate]|].
  apply (Hstatus "high"); reflexivity.
Defined.

(** C9 as the specification has it fails on an integer: [float] raises
    [OverflowError] on ten to the power 400, which the three numeric
    scorers do not catch, and with the usual limit of 4300 digits [str]
    raises [ValueError] on ten to the power 5000, which
    [calculate_iucn_score] does not catch. *)
Lemma scorers_raise_on_a_huge_integer :
  calculate_area_loss_score (H:=sample_builtins) (ObjInt (10 ^ 400))
    = Raise OverflowError ∧
  calculate_eoo_score (H:=sample_builtins) (ObjInt (10 ^ 400))
    = Raise OverflowError ∧
  calculate_human_footprint_score (H:=sample_builtins) (ObjInt (10 ^ 400))
    = Raise OverflowError ∧
  calculate_iucn_score (H:=sample_builtins) (ObjInt (10 ^ 5000))
    = Raise ValueError.
Proof. vm_compute. repeat split. Qed.

(** The worked example of the specification: the scores are 7, 5, 5 and
    5 and the final score is 5.5, in both scenarios. *)
Example critical_row_scores (sc : Scenario) :
  match score_row (H:=sample_builtins) sc critical_row with
  | Ok s =>
      [iucn_score s; area_loss_score s; eoo_score s; human_footprint_score s]
        = [7; 5; 5; 5] ∧
      final_score s = 5.5%float ∧
      percentages s = [31.82; 22.73; 22.73; 22.73]%float
  | Raise _ => False
  end.
Proof. destruct sc; vm_compute; repeat split. Qed.

(** With every metric missing each score is 3 and the final score 3.0. *)
Example missing_row_scores (sc : Scenario) :
  match score_row (H:=sample_builtins) sc missing_row with
  | Ok s =>
      [iucn_score s; area_loss_score s; eoo_score s; human_footprint_score s]
        = [3; 3; 3; 3] ∧
      final_score s = 3%float ∧
      percentages s = [25; 25; 25; 25]%float
  | Raise _ => False
  end.
Proof. destruct sc; vm_compute; repeat split. Qed.

End PriorizationFacts.

(* ===================================================================== *)
(** ** The record filter                                                  *)
(* ===================================================================== *)

Module GenbiFacts.
Import Genbi.

Lemma result_bind_Ok {A B : Type} (a : A) (k : A → result B) :
  (Ok a ≫= k) = k a.
Proof. reflexivity. Qed.

Lemma result_bind_Raise {A B : Type} (e : exn) (k : A → result B) :
  (Raise e ≫= k) = Raise e.
Proof. reflexivity. Qed.

(** Case analysis on the head of the computation in hypothesis [H]. *)
Ltac head_case H :=
  lazymatch type of H with
  | (?m ≫= _) = _ =>
      let E := fresh "E" in
      destruct m eqn:E;
      [ rewrite result_bind_Ok in H | rewrite result_bind_Raise in H ]
  | (if ?c then _ else _) = _ =>
      let E := fresh "E" in destruct c eqn:E
  | match ?x with _ => _ end = _ =>
      let E := fresh "E" in destruct x eqn:E
  end; try discriminate H.

(** *** The upper filter *)

Lemma lower_ascii_not_N (c : ascii) : lower_ascii c ≠ "N"%char.
Proof. destruct c as [[] [] [] [] [] [] [] []]; vm_compute; discriminate. Qed.

Lemma lower_not_No (s : string) : lower s ≠ "No".
Proof.
  destruct s as [|c s]; simpl; [discriminate|].
  intros [= Hc _]. by apply lower_ascii_not_N in Hc.
Qed.

(** The test of line 234 compares a lower-case string with ["No"]: it
    never holds, whatever the answer. *)
Lemma upper_filter_never_rejects (incluir_mitocondriales : string) (n : nat) :
  upper_filter_rejects incluir_mitocondriales n = false.
Proof.
  unfold upper_filter_rejects.
  destruct (String.eqb_spec (lower incluir_mitocondriales) "No") as [Heq|Hne];
    [|done].
  by apply lower_not_No in Heq.
Qed.

(** *** The length filters *)

Lemma classify_cytb (description_lower : string) (n : nat) :
  classify description_lower n = Some CYTB →
  mentions_any cytb_variants description_lower = true ∧ (1000 ≤ n ≤ 1200)%nat.
Proof.
  unfold classify.
  destruct (mentions_any cytb_variants description_lower).
  - destruct (n <? 1000)%nat eqn:Hlo; [discriminate|].
    destruct (1200 <? n)%nat eqn:Hhi; [discriminate|]. simpl.
    apply Nat.ltb_ge in Hlo, Hhi. intros _. split; [done|lia].
  - destruct (mentions_any coi_variants description_lower); discriminate.
Qed.

Lemma classify_out_of_band (description_lower : string) (n : nat) :
  mentions_any cytb_variants description_lower = true →
  (n < 1000 ∨ 1200 < n)%nat →
  classify description_lower n = None.
Proof.
  intros Hm Hn. unfold classify. rewrite Hm.
  destruct (n <? 1000)%nat eqn:Hlo; [done|].
  destruct (1200 <? n)%nat eqn:Hhi; [done|].
  apply Nat.ltb_ge in Hlo, Hhi. lia.
Qed.

(** What an accepted record went through. *)
Lemma build_info_accepts (record : SeqRecord) (name : option string)
    (method incl : string) (info : Info) :
  build_info record name method incl = Ok (Some info) →
  accession info = id record ∧
  num_bases info = String.length (seq record) ∧
  (590 ≤ num_bases info)%nat ∧
  classify (lower (description record)) (num_bases info) = Some (gene info).
Proof.
  unfold build_info. intros Hb.
  do 7 head_case Hb.
  injection Hb as <-. simpl.
  apply Nat.ltb_ge in E0. done.
Qed.

(** A record out of the length bounds is rejected as soon as its fields
    have been read. *)
Lemma build_info_rejects (record : SeqRecord) (name : option string)
    (method incl : string) :
  let len := String.length (seq record) in
  (len < 590)%nat ∨
  (mentions_any cytb_variants (lower (description record)) = true ∧
   (len < 1000 ∨ 1200 < len)%nat) →
  match read_fields record name method with
  | Ok _ => build_info record name method incl = Ok None
  | Raise e => build_info record name method incl = Raise e
  end.
Proof.
  intros len Hout. unfold build_info.
  destruct (read_fields record name method) as [fields|e]; [|done].
  rewrite result_bind_Ok. fold len.
  destruct (len <? 590)%nat eqn:Hlo; [done|].
  rewrite upper_filter_never_rejects.
  apply Nat.ltb_ge in Hlo.
  destruct Hout as [?|[Hm Hband]]; [lia|].
  by rewrite (classify_out_of_band _ _ Hm Hband).
Qed.

(** *** extract_info, case by case *)

Lemma extract_info_unfold (record : SeqRecord) (name : option string)
    (method incl : string) (w : World) :
  extract_info record name method incl w =
  if bool_decide (is_Some (info_secuencias w !! id record)) then (Ok None, w)
  else match build_info record name method incl with
       | Ok (Some info) => (Ok (Some info), registered info w)
       | Ok None => (Ok None, w)
       | Raise e => (Raise e, w)
       end.
Proof.
  unfold extract_info. case_bool_decide; [done|].
  unfold mbind, M_bind, lift.
  destruct (build_info record name method incl) as [[info|]|e]; reflexivity.
Qed.

Lemma build_info_ignores_answer (record : SeqRecord) (name : option string)
    (method incl1 incl2 : string) :
  build_info record name method incl1 = build_info record name method incl2.
Proof. unfold build_info. by rewrite !upper_filter_never_rejects. Qed.

(** Without features the fields cannot be read. *)
Lemma read_fields_featureless (record : SeqRecord) (name : option string)
    (method : string) :
  features record = [] →
  ∃ e, read_fields record name method = Raise e ∧ is_Exception e = true ∧
       (e = IndexError ∨
        (e = AttributeError ∧ method = "From ITIS" ∧ name = None)).
Proof.
  intros Hf. unfold read_fields, flag_species_name, extract_specimen_voucher.
  rewrite Hf. simpl.
  destruct (String.eqb_spec method "From ITIS") as [->|Hm].
  - destruct name as [name|].
    + destruct (negb _); exists IndexError;
        (split; [reflexivity|]; split; [reflexivity|]; by left).
    + exists AttributeError.
      split; [reflexivity|]; split; [reflexivity|]. by right.
  - exists IndexError.
    split; [reflexivity|]; split; [reflexivity|]. by left.
Qed.

Lemma build_info_featureless (record : SeqRecord) (name : option string)
    (method incl : string) :
  features record = [] →
  ∃ e, build_info record name method incl = Raise e ∧ is_Exception e = true.
Proof.
  intros Hf.
  destruct (read_fields_featureless record name method Hf) as (e & He & Hex & _).
  exists e. split; [|done]. unfold build_info. by rewrite He.
Qed.

(** The reading of the fields raises exceptions only. *)
Lemma read_fields_raises (record : SeqRecord) (name : option string)
    (method : string) (e : exn) :
  read_fields record name method = Raise e → is_Exception e = true.
Proof.
  unfold read_fields, flag_species_name, extract_specimen_voucher, get_first,
    first_item.
  intros Hr. repeat (case_match; simpl in *; simplify_eq); done.
Qed.

(** C5 as the program has it.  A record that [extract_info] accepts
    has at least 590 bases, and between 1000 and 1200 when it is
    classified as cytochrome b.  A record out of these bounds is never
    accepted and changes nothing.  It is dropped without a word when its
    accession is registered or when its fields (lines 184-224, read
    before the tests of the length) can be read: the answer is [None]
    and the call site prints nothing.  When the reading raises, as on a
    record that has no feature, [extract_info] raises that exception
    instead, and the call site prints it. *)
Theorem accepted_records_within_length_bounds `{Entrez} (record : SeqRecord)
    (name : option string) (method incl : string) (w : World) :
  let len := String.length (seq record) in
  (∀ info w', extract_info record name method incl w = (Ok (Some info), w') →
     num_bases info = len ∧ (590 ≤ num_bases info)%nat ∧
     (gene info = CYTB → (1000 ≤ num_bases info ≤ 1200)%nat)) ∧
  ((len < 590)%nat ∨
   (mentions_any cytb_variants (lower (description record)) = true ∧
    (len < 1000 ∨ 1200 < len)%nat) →
   (∀ info, (extract_info record name method incl w).1 ≠ Ok (Some info)) ∧
   (extract_info record name method incl w).2 = w ∧
   (is_Some (info_secuencias w !! id record) →
      extract_info record name method incl w = (Ok None, w)) ∧
   (info_secuencias w !! id record = None →
      match read_fields record name method with
      | Ok _ =>
          extract_info record name method incl w = (Ok None, w) ∧
          ∀ name_of accession df,
            fetch_genbank accession = Ok record → name_of record = name →
            process_accession name_of method incl df accession w
            = (Ok df,
               {| info_secuencias := info_secuencias w;
                  requests := requests w ++ [EfetchNucleotide accession];
                  stdout := stdout w |})
      | Raise e =>
          is_Exception e = true ∧
          extract_info record name method incl w = (Raise e, w) ∧
          ∀ name_of accession df,
            fetch_genbank accession = Ok record → name_of record = name →
            process_accession name_of method incl df accession w
            = (Ok df,
               {| info_secuencias := info_secuencias w;
                  requests := requests w ++ [EfetchNucleotide accession];
                  stdout := stdout w ++ [RecordError accession e] |})
      end)).
Proof.
  intros len. split.
  - intros info w'. rewrite extract_info_unfold.
    case_bool_decide; [discriminate|].
    destruct (build_info record name method incl) as [[info'|]|e] eqn:Hb;
      try discriminate.
    intros [= -> _].
    destruct (build_info_accepts _ _ _ _ _ Hb) as (_ & Hlen & Hmin & Hcl).
    split_and!; [done..|].
    intros Hg. rewrite Hg in Hcl. by apply classify_cytb in Hcl as [_ ?].
  - intros Hout.
    pose proof (build_info_rejects record name method incl Hout) as Hb.
    split_and!.
    + intros info. rewrite extract_info_unfold.
      destruct (read_fields record name method) as [fields|e]; rewrite Hb;
        by case_bool_decide.
    + rewrite extract_info_unfold.
      destruct (read_fields record name method) as [fields|e]; rewrite Hb;
        by case_bool_decide.
    + intros Hsome. rewrite extract_info_unfold.
      by rewrite bool_decide_eq_true_2.
    + intros Hnone.
      assert (Hnew :
        bool_decide (is_Some (info_secuencias w !! id record)) = false).
      { apply bool_decide_eq_false_2. rewrite Hnone. by intros [? ?]. }
      destruct (read_fields record name method) as [fields|e] eqn:Hfields.
      * split; [by rewrite extract_info_unfold, Hb, Hnew|].
        intros name_of accession df Hfetch Hname.
        unfold process_accession, try_catch, fetch_sequence.
        unfold mbind, M_bind, send, lift, print. rewrite Hfetch, Hname.
        rewrite extract_info_unfold, Hb. simpl. by rewrite Hnew.
      * pose proof (read_fields_raises _ _ _ _ Hfields) as Hex.
        split; [done|]. split; [by rewrite extract_info_unfold, Hb, Hnew|].
        intros name_of accession df Hfetch Hname.
        unfold process_accession, try_catch, fetch_sequence.
        unfold mbind, M_bind, send, lift, print. rewrite Hfetch, Hname.
        rewrite extract_info_unfold, Hb. simpl. rewrite Hnew. by rewrite Hex.
Qed.

(** C10 as the program has it.  A record without features makes
    [extract_info] raise ([IndexError] at line 207, or [AttributeError] at
    line 185 when no species name is given to an ITIS search) when its
    accession is not registered; for a registered accession the test of
    line 181 answers [None] first.  Either way no line is emitted and the
    world is unchanged.  At a call site the exception is caught inside the
    turn of the loop: the error is printed, the table is unchanged and the
    loop goes on with the next accession. *)
Theorem featureless_record_raises_unless_registered `{Entrez}
    (record : SeqRecord) (name : option string) (method incl : string)
    (w : World) :
  features record = [] →
  (info_secuencias w !! id record = None →
     ∃ e, is_Exception e = true ∧
          extract_info record name method incl w = (Raise e, w)) ∧
  (is_Some (info_secuencias w !! id record) →
     extract_info record name method incl w = (Ok None, w)) ∧
  (∀ info, (extract_info record name method incl w).1 ≠ Ok (Some info)) ∧
  (extract_info record name method incl w).2 = w ∧
  (∀ name_of accession rest df,
     fetch_genbank accession = Ok record →
     info_secuencias w !! id record = None →
     ∃ e w1,
       process_accession name_of method incl df accession w = (Ok df, w1) ∧
       info_secuencias w1 = info_secuencias w ∧
       requests w1 = requests w ++ [EfetchNucleotide accession] ∧
       stdout w1 = stdout w ++ [RecordError accession e] ∧
       process_accessions name_of method incl (accession :: rest) df w
         = process_accessions name_of method incl rest df w1).
Proof.
  intros Hf.
  assert (Hraise : ∀ name', ∃ e, is_Exception e = true ∧
            build_info record name' method incl = Raise e).
  { intros name'.
    destruct (build_info_featureless record name' method incl Hf)
      as (e & He & Hex).
    by exists e. }
  destruct (Hraise name) as (e & Hex & Hb).
  split_and!.
  - intros Hnone. exists e. split; [done|].
    rewrite extract_info_unfold, Hb, Hnone.
    by rewrite bool_decide_eq_false_2 by (by intros [? ?]).
  - intros Hsome. rewrite extract_info_unfold.
    by rewrite bool_decide_eq_true_2.
  - intros info. rewrite extract_info_unfold, Hb. by case_bool_decide.
  - rewrite extract_info_unfold, Hb. by case_bool_decide.
  - intros name_of accession rest df Hfetch Hnone.
    destruct (Hraise (name_of record)) as (e' & Hex' & Hb').
    assert (Hstep :
      process_accession name_of method incl df accession w
      = (Ok df, {| info_secuencias := info_secuencias w;
                   requests := requests w ++ [EfetchNucleotide accession];
                   stdout := stdout w ++ [RecordError accession e'] |})).
    { unfold process_accession, try_catch, fetch_sequence.
      unfold mbind, M_bind, send, lift, print. rewrite Hfetch.
      rewrite extract_info_unfold, Hb'. simpl. rewrite Hnone.
      rewrite bool_decide_eq_false_2 by (by intros [? ?]).
      by rewrite Hex'. }
    eexists e', _. split; [exact Hstep|]. split_and!; try reflexivity.
    unfold process_accessions. simpl. unfold mbind at 1, M_bind at 1.
    by rewrite Hstep.
Qed.

(* ===================================================================== *)
(** ** The registry along a run                                           *)
(* ===================================================================== *)

Section Run.
Context `{Entrez}.

Lemma bind_unfold {A B : Type} (m : M A) (k : A → M B) (w : World) :
  (m ≫= k) w = match m w with
               | (Ok a, w') => k a w'
               | (Raise e, w') => (Raise e, w')
               end.
Proof. reflexivity. Qed.

Lemma bind_Ok_inv {A B : Type} (m : M A) (k : A → M B) (w w' : World) (b : B) :
  (m ≫= k) w = (Ok b, w') →
  ∃ a w1, m w = (Ok a, w1) ∧ k a w1 = (Ok b, w').
Proof.
  rewrite bind_unfold. destruct (m w) as [[a|e] w1]; [|discriminate].
  intros Hk. by exists a, w1.
Qed.

Lemma stable_ret {A : Type} (a : A) : stable (mret a).
Proof. by intros w. Qed.

Lemma stable_lift {A : Type} (r : result A) : stable (lift r).
Proof. by intros w. Qed.

Lemma stable_print (l : Line) : stable (print l).
Proof. by intros w. Qed.

Lemma stable_send (r : Request) : stable (send r).
Proof. by intros w. Qed.

Lemma stable_bind {A B : Type} (m : M A) (k : A → M B) :
  stable m → (∀ a, stable (k a)) → stable (m ≫= k).
Proof.
  intros Hm Hk w. rewrite bind_unfold. specialize (Hm w).
  destruct (m w) as [[a|e] w1]; simpl in *; [|done].
  by rewrite Hk.
Qed.

Lemma stable_try_catch {A : Type} (body : M A) (handler : exn → M A) :
  stable body → (∀ e, stable (handler e)) → stable (try_catch body handler).
Proof.
  intros Hb Hh w. unfold try_catch. specialize (Hb w).
  destruct (body w) as [[a|e] w1]; simpl in *; [done|].
  destruct (is_Exception e); [by rewrite Hh|done].
Qed.

Lemma stable_foldM {A X : Type} (body : A → X → M A) (l : list X) :
  (∀ acc x, stable (body acc x)) → ∀ acc, stable (foldM body acc l).
Proof.
  intros Hb. induction l as [|x l IH]; intros acc; simpl.
  - apply stable_ret.
  - apply stable_bind; [apply Hb|]. intros a. apply IH.
Qed.

Lemma stable_esearch (db term : string) (retmax retstart : nat) :
  stable (esearch db term retmax retstart).
Proof.
  unfold esearch. apply stable_bind; [apply stable_send|]. intros _.
  destruct (search_raises db term retstart);
    [apply stable_lift|apply stable_ret].
Qed.

Lemma more_pages_stable (fuel : nat) (query method : string) (retmax : nat) :
  ∀ count ids retstart w,
    info_secuencias (more_pages fuel query method retmax count ids retstart w).2
    = info_secuencias w.
Proof.
  induction fuel as [|fuel IH]; intros count ids retstart w; simpl.
  - by destruct (_ <? _)%nat.
  - destruct (_ <? _)%nat; [|done].
    pose proof (stable_esearch "nucleotide" query retmax (retstart + retmax) w)
      as Hs.
    destruct (esearch _ _ _ _ w) as [[record|e] w1]; simpl in *; [|done].
    by rewrite IH.
Qed.

Lemma stable_search_variant (species method : string) (retmax : nat)
    (locals : list (string * string) * nat) (gene_variant : string) :
  stable (search_variant species method retmax locals gene_variant).
Proof.
  intros w. unfold search_variant. destruct locals as [ids retstart].
  pose proof (stable_esearch "nucleotide" (query_of gene_variant species)
                retmax retstart w) as Hs.
  destruct (esearch _ _ _ _ w) as [[record|e] w1]; simpl in Hs.
  - pose proof (more_pages_stable (Count record)
                  (query_of gene_variant species) method retmax (Count record)
                  (ids ++ tagged method (IdList record)) retstart w1) as Hp.
    destruct (more_pages _ _ _ _ _ _ _ w1) as [[[ids' retstart'] [u|e]] w2];
      simpl in *; [congruence|].
    destruct (is_Exception e); simpl; congruence.
  - destruct (is_Exception e); simpl; congruence.
Qed.

Lemma stable_search_genbank (species method : string) (retmax retstart : nat) :
  stable (search_genbank species method retmax retstart).
Proof.
  unfold search_genbank. apply stable_bind.
  - apply stable_foldM. intros acc x. apply stable_search_variant.
  - intros locals. apply stable_ret.
Qed.

Lemma stable_search_taxon_variant (taxon_name : string)
    (on_error : string → exn → Line) (all_ids : gset string)
    (gene_variant : string) :
  stable (search_taxon_variant taxon_name on_error all_ids gene_variant).
Proof.
  unfold search_taxon_variant. apply stable_try_catch.
  - apply stable_bind; [apply stable_esearch|]. intros record.
    apply stable_ret.
  - intros e. apply stable_bind; [apply stable_print|]. intros _.
    apply stable_ret.
Qed.

Lemma stable_search_genbank_directly (order_name : string) :
  stable (search_genbank_directly order_name).
Proof.
  unfold search_genbank_directly. apply stable_bind.
  - apply stable_foldM. intros acc x. apply stable_search_taxon_variant.
  - intros ids. apply stable_ret.
Qed.

Lemma stable_search_genbank_family (family_name : string) :
  stable (search_genbank_family family_name).
Proof.
  unfold search_genbank_family. apply stable_bind.
  - apply stable_foldM. intros acc x. apply stable_search_taxon_variant.
  - intros ids. apply stable_ret.
Qed.

Lemma stable_search_genbank_genus (genus_name : string) :
  stable (search_genbank_genus genus_name).
Proof.
  unfold search_genbank_genus. apply stable_bind.
  - apply stable_foldM. intros acc x. apply stable_search_taxon_variant.
  - intros ids. apply stable_ret.
Qed.

Lemma taxa_of_rank_stable (rank : string) (tax_ids : list string) :
  ∀ names w,
    info_secuencias (taxa_of_rank rank tax_ids names w).2 = info_secuencias w.
Proof.
  induction tax_ids as [|tax_id rest IH]; intros names w; simpl; [done|].
  destruct (fetch_taxonomy tax_id) as [fetch_results|e]; [|done].
  by rewrite IH.
Qed.

Lemma stable_taxa_under (taxon_name rank : string) :
  stable (taxa_under taxon_name rank).
Proof.
  intros w. unfold taxa_under.
  pose proof (stable_esearch "taxonomy"
                (taxon_name +:+ "[ORGN] AND " +:+ rank +:+ "[Rank]") 500 0 w)
    as Hs.
  destruct (esearch _ _ _ _ w) as [[search_results|e] w1]; simpl in Hs.
  - destruct (IdList search_results) as [|tax_id rest] eqn:Hids; [done|].
    pose proof (taxa_of_rank_stable rank (tax_id :: rest) [] w1) as Ht.
    destruct (taxa_of_rank _ _ _ w1) as [[names [u|e]] w2]; simpl in *;
      [congruence|].
    destruct (is_Exception e); simpl; congruence.
  - destruct (is_Exception e); simpl; congruence.
Qed.

Lemma stable_fetch_sequence (accession : string * string) :
  stable (fetch_sequence accession).
Proof.
  unfold fetch_sequence. apply stable_bind; [apply stable_send|].
  intros _. apply stable_lift.
Qed.

(** The registry after a stable computation. *)
Lemma stable_run {A : Type} (m : M A) (w w' : World) (r : result A) :
  stable m → m w = (r, w') → info_secuencias w' = info_secuencias w.
Proof. intros Hm Hrun. specialize (Hm w). by rewrite Hrun in Hm. Qed.

Lemma run_invariant_registry (df : list DfRow) (w w' : World) :
  info_secuencias w' = info_secuencias w →
  run_invariant df w → run_invariant df w'.
Proof. intros Heq [Hnd Hreg]. split; [done|]. by rewrite Heq. Qed.

Lemma accepted_accessions_snoc (df : list DfRow) (row : DfRow) :
  accepted_accessions (df ++ [row]) =
  accepted_accessions df ++
    match row with
    | Sequence info => [accession info]
    | NoSequences _ _ => []
    end.
Proof.
  unfold accepted_accessions. rewrite omap_app. by destruct row.
Qed.

Lemma run_invariant_no_sequences (df : list DfRow) (species synonims : string)
    (w : World) :
  run_invariant df w → run_invariant (df ++ [NoSequences species synonims]) w.
Proof.
  unfold run_invariant. rewrite accepted_accessions_snoc, app_nil_r. done.
Qed.

(** An accepted record is new: its line keeps the accessions distinct. *)
Lemma extract_info_invariant (record : SeqRecord) (name : option string)
    (method incl : string) (df : list DfRow) (w w' : World)
    (r : result (option Info)) :
  run_invariant df w →
  extract_info record name method incl w = (r, w') →
  run_invariant df w' ∧
  ∀ info, r = Ok (Some info) → run_invariant (df ++ [Sequence info]) w'.
Proof.
  intros [Hnd Hreg]. rewrite extract_info_unfold.
  case_bool_decide as Hin.
  { intros [= <- <-]. split; [done|]. intros info [=]. }
  destruct (build_info record name method incl) as [[info|]|e] eqn:Hb;
    intros [= <- <-]; try (split; [done|]; intros ? [=]).
  destruct (build_info_accepts _ _ _ _ _ Hb) as (Hacc & _).
  assert (Hgrow : ∀ a, is_Some (info_secuencias w !! a) →
                       is_Some (info_secuencias (registered info w) !! a)).
  { intros a Ha. simpl. rewrite lookup_insert_is_Some.
    destruct (decide (accession info = a)); auto. }
  split; [split; [done|]; by auto|].
  intros ? [= <-]. split.
  - rewrite accepted_accessions_snoc. apply NoDup_app. split_and!; [done| |].
    + intros a Ha ->%list_elem_of_singleton.
      apply Hreg in Ha. rewrite Hacc in Ha. done.
    + apply NoDup_singleton.
  - intros a. rewrite accepted_accessions_snoc, elem_of_app.
    intros [Ha| ->%list_elem_of_singleton]; [by auto|].
    simpl. rewrite lookup_insert_eq. by eexists.
Qed.

Lemma process_accession_invariant (name_of : SeqRecord → option string)
    (method incl : string) (df df' : list DfRow)
    (accession : string * string) (w w' : World) :
  run_invariant df w →
  process_accession name_of method incl df accession w = (Ok df', w') →
  run_invariant df' w'.
Proof.
  intros Hinv. unfold process_accession, try_catch.
  rewrite bind_unfold.
  destruct (fetch_sequence accession w) as [[record|e] w1] eqn:Hfetch.
  - apply stable_run in Hfetch as Hreg; [|apply stable_fetch_sequence].
    apply (run_invariant_registry df w w1 Hreg) in Hinv.
    rewrite bind_unfold.
    destruct (extract_info record (name_of record) method incl w1)
      as [[info|e] w2] eqn:Hextract.
    + destruct (extract_info_invariant _ _ _ _ _ _ _ _ Hinv Hextract)
        as [Hkeep Hadd].
      intros [= <- <-]. destruct info as [info|]; [by apply Hadd|done].
    + destruct (extract_info_invariant _ _ _ _ _ _ _ _ Hinv Hextract)
        as [Hkeep _].
      destruct (is_Exception e); [|discriminate].
      intros [= <- <-]. by eapply run_invariant_registry.
  - apply stable_run in Hfetch as Hreg; [|apply stable_fetch_sequence].
    destruct (is_Exception e); [|discriminate].
    intros [= <- <-]. by eapply run_invariant_registry.
Qed.

(** An invariant of every turn is an invariant of the loop. *)
Lemma foldM_invariant {A X : Type} (I : A → World → Prop)
    (body : A → X → M A) (l : list X) :
  (∀ acc x w acc' w', I acc w → body acc x w = (Ok acc', w') → I acc' w') →
  ∀ acc w acc' w', I acc w → foldM body acc l w = (Ok acc', w') → I acc' w'.
Proof.
  intros Hbody. induction l as [|x l IH]; intros acc w acc' w' Hacc; simpl.
  - by intros [= <- <-].
  - intros (a & w1 & Hx & Hrest)%bind_Ok_inv. eauto.
Qed.

Lemma process_accessions_invariant (name_of : SeqRecord → option string)
    (method incl : string) (ids : list (string * string))
    (df df' : list DfRow) (w w' : World) :
  run_invariant df w →
  process_accessions name_of method incl ids df w = (Ok df', w') →
  run_invariant df' w'.
Proof.
  unfold process_accessions. apply (foldM_invariant run_invariant).
  intros acc x w0 acc' w0'. apply process_accession_invariant.
Qed.

Lemma ret_Ok_inv {A : Type} (a a' : A) (w w' : World) :
  (mret a : M A) w = (Ok a', w') → a' = a ∧ w' = w.
Proof. by intros [= <- <-]. Qed.

Lemma search_especie_invariant (incl : string)
    (locals locals' : gset string * list DfRow) (especie : Especie)
    (w w' : World) :
  run_invariant locals.2 w →
  search_especie incl locals especie w = (Ok locals', w') →
  run_invariant locals'.2 w'.
Proof.
  destruct locals as [nombres df]. simpl. intros Hinv. unfold search_especie.
  case_bool_decide.
  { by intros [-> ->]%ret_Ok_inv. }
  intros (ids & w1 & Hsearch & Hrest)%bind_Ok_inv.
  apply stable_run in Hsearch; [|apply stable_search_genbank].
  apply (run_invariant_registry df w w1 Hsearch) in Hinv.
  destruct ids as [|i ids].
  - apply ret_Ok_inv in Hrest as [-> ->]. simpl.
    by apply run_invariant_no_sequences.
  - apply bind_Ok_inv in Hrest as (df1 & w2 & Hproc & Hret).
    apply ret_Ok_inv in Hret as [-> ->]. simpl.
    by eapply process_accessions_invariant.
Qed.

Lemma search_sinonimia_invariant (incl nombre_valido : string)
    (locals locals' : gset string * list DfRow) (sinonimia : string)
    (w w' : World) :
  run_invariant locals.2 w →
  search_sinonimia incl nombre_valido locals sinonimia w = (Ok locals', w') →
  run_invariant locals'.2 w'.
Proof.
  destruct locals as [nombres df]. simpl. intros Hinv. unfold search_sinonimia.
  case_bool_decide.
  { by intros [-> ->]%ret_Ok_inv. }
  intros (ids & w1 & Hsearch & Hrest)%bind_Ok_inv.
  apply stable_run in Hsearch; [|apply stable_search_genbank].
  apply (run_invariant_registry df w w1 Hsearch) in Hinv.
  destruct ids as [|i ids].
  - apply ret_Ok_inv in Hrest as [-> ->]. simpl.
    by apply run_invariant_no_sequences.
  - apply bind_Ok_inv in Hrest as (df1 & w2 & Hproc & Hret).
    apply ret_Ok_inv in Hret as [-> ->]. simpl.
    by eapply process_accessions_invariant.
Qed.

Lemma search_itis_names_invariant (especies : list Especie) (incl : string)
    (locals : gset string * list DfRow) (w w' : World) :
  run_invariant [] w →
  search_itis_names especies incl w = (Ok locals, w') →
  run_invariant locals.2 w'.
Proof.
  intros Hinv. unfold search_itis_names.
  intros (locals1 & w1 & Hloop & Hrest)%bind_Ok_inv.
  apply (foldM_invariant (λ l w, run_invariant l.2 w)) in Hloop;
    [|intros ?????; apply search_especie_invariant|done].
  apply bind_Ok_inv in Hrest as (especie & w2 & Hlast & Hsyn).
  apply stable_run in Hlast; [|apply stable_lift].
  apply (foldM_invariant (λ l w, run_invariant l.2 w)) in Hsyn;
    [done|intros ?????; apply search_sinonimia_invariant|].
  by eapply run_invariant_registry.
Qed.

Lemma search_family_invariant (incl : string) (df df' : list DfRow)
    (family : string) (w w' : World) :
  run_invariant df w →
  search_family incl df family w = (Ok df', w') →
  run_invariant df' w'.
Proof.
  intros Hinv. unfold search_family.
  intros (u & w1 & Hprint & Hrest)%bind_Ok_inv.
  apply stable_run in Hprint; [|apply stable_print].
  apply bind_Ok_inv in Hrest as (ids & w2 & Hsearch & Hproc).
  apply stable_run in Hsearch; [|apply stable_search_genbank_family].
  eapply process_accessions_invariant; [|exact Hproc].
  eapply run_invariant_registry; [exact Hsearch|].
  by eapply run_invariant_registry.
Qed.

Lemma search_genus_invariant (incl : string) (df df' : list DfRow)
    (genus : string) (w w' : World) :
  run_invariant df w →
  search_genus incl df genus w = (Ok df', w') →
  run_invariant df' w'.
Proof.
  intros Hinv. unfold search_genus.
  intros (u & w1 & Hprint & Hrest)%bind_Ok_inv.
  apply stable_run in Hprint; [|apply stable_print].
  apply bind_Ok_inv in Hrest as (ids & w2 & Hsearch & Hproc).
  apply stable_run in Hsearch; [|apply stable_search_genbank_genus].
  eapply process_accessions_invariant; [|exact Hproc].
  eapply run_invariant_registry; [exact Hsearch|].
  by eapply run_invariant_registry.
Qed.

Lemma run_invariant_nil (w : World) : run_invariant [] w.
Proof.
  split; [apply NoDup_nil_2|]. intros a Ha. by apply elem_of_nil in Ha.
Qed.

(** The table built by a whole run. *)
Lemma main_invariant (answer : string) (especies : list Especie)
    (nombre_taxon : string) (df : list DfRow) (w w' : World) :
  run_invariant [] w →
  main answer especies nombre_taxon w = (Ok df, w') →
  run_invariant df w'.
Proof.
  intros Hinv. unfold main.
  intros (locals & w1 & Hitis & Hrest)%bind_Ok_inv.
  apply (search_itis_names_invariant _ _ _ _ _ Hinv) in Hitis.
  apply bind_Ok_inv in Hrest as (u1 & w2 & Hp1 & Hrest).
  apply stable_run in Hp1; [|apply stable_print].
  apply bind_Ok_inv in Hrest as (direct & w3 & Hdirect & Hrest).
  apply stable_run in Hdirect; [|apply stable_search_genbank_directly].
  apply bind_Ok_inv in Hrest as (df1 & w4 & Hproc & Hrest).
  apply process_accessions_invariant in Hproc;
    [|eapply run_invariant_registry; [exact Hdirect|];
      by eapply run_invariant_registry].
  apply bind_Ok_inv in Hrest as (u2 & w5 & Hp2 & Hrest).
  apply stable_run in Hp2; [|apply stable_print].
  apply bind_Ok_inv in Hrest as (families & w6 & Hfam & Hrest).
  apply stable_run in Hfam; [|apply stable_taxa_under].
  apply bind_Ok_inv in Hrest as (df2 & w7 & Hfams & Hrest).
  apply (foldM_invariant run_invariant) in Hfams;
    [|intros ?????; apply search_family_invariant
     |eapply run_invariant_registry; [exact Hfam|];
      by eapply run_invariant_registry].
  apply bind_Ok_inv in Hrest as (u3 & w8 & Hp3 & Hgen).
  apply stable_run in Hp3; [|apply stable_print].
  apply (foldM_invariant run_invariant) in Hgen;
    [done| |by eapply run_invariant_registry].
  intros acc family w0 acc' w0' Hacc.
  intros (genera & w9 & Hgenera & Hloop)%bind_Ok_inv.
  apply stable_run in Hgenera; [|apply stable_taxa_under].
  apply (foldM_invariant run_invariant) in Hloop;
    [done|intros ?????; apply search_genus_invariant|].
  by eapply run_invariant_registry.
Qed.

(** C6.  An accession already registered makes [extract_info] answer
    [None] and change nothing; otherwise the accession is registered
    exactly when a line is emitted, and nothing else of the world
    changes.  Hence the accepted sequences of the table built by a whole
    run have pairwise distinct accessions, whichever searches found them
    (from the empty registry of a fresh process, and from any other). *)
Theorem accepted_accessions_are_unique
    (record : SeqRecord) (name : option string) (method incl : string)
    (w : World) :
  (is_Some (info_secuencias w !! id record) →
     extract_info record name method incl w = (Ok None, w)) ∧
  (∀ r w', extract_info record name method incl w = (r, w') →
     requests w' = requests w ∧ stdout w' = stdout w ∧
     ((∃ info, r = Ok (Some info) ∧ accession info = id record ∧
               info_secuencias w !! id record = None ∧
               info_secuencias w'
                 = <[id record := info]> (info_secuencias w)) ∨
      ((∀ info, r ≠ Ok (Some info)) ∧ w' = w))) ∧
  (∀ answer especies nombre_taxon df w0 w',
     main answer especies nombre_taxon w0 = (Ok df, w') →
     NoDup (accepted_accessions df)).
Proof.
  split_and!.
  - intros Hsome. rewrite extract_info_unfold.
    by rewrite bool_decide_eq_true_2.
  - intros r w'. rewrite extract_info_unfold.
    case_bool_decide as Hin.
    { intros [= <- <-]. split_and!; [done..|]. right. by split. }
    destruct (build_info record name method incl) as [[info|]|e] eqn:Hb;
      intros [= <- <-]; (split_and!; [done..|]).
    + left. exists info.
      destruct (build_info_accepts _ _ _ _ _ Hb) as (Hacc & _).
      split_and!; [done..| |by rewrite <- Hacc].
      destruct (info_secuencias w !! id record) eqn:Hl; [|done].
      exfalso. apply Hin. by eexists.
    + right. by split.
    + right. by split.
  - intros answer especies nombre_taxon df w0 w' Hrun.
    by destruct (main_invariant _ _ _ _ _ _ (run_invariant_nil w0) Hrun).
Qed.

End Run.

(* ===================================================================== *)
(** ** Pages of a search                                                  *)
(* ===================================================================== *)

Section Pages.
Context `{Entrez}.

Lemma tagged_app (method : string) (l1 l2 : list string) :
  tagged method (l1 ++ l2) = tagged method l1 ++ tagged method l2.
Proof. unfold tagged. apply map_app. Qed.

Lemma esearch_run (db term : string) (retmax retstart : nat) (w : World) :
  search_raises db term retstart = false →
  esearch db term retmax retstart w =
  (Ok {| IdList := take retmax (drop retstart (search_hits db term));
         Count := length (search_hits db term) |},
   {| info_secuencias := info_secuencias w;
      requests := requests w ++ [Esearch db term retmax retstart];
      stdout := stdout w |}).
Proof. intros Hr. unfold esearch. rewrite bind_unfold. simpl. by rewrite Hr. Qed.

(** With a positive page size and enough fuel the loop ends, having
    gathered every identifier from the next page on. *)
Lemma more_pages_collects (query method : string) (retmax : nat) :
  let hits := search_hits "nucleotide" query in
  (0 < retmax)%nat →
  (∀ retstart, search_raises "nucleotide" query retstart = false) →
  ∀ fuel ids retstart w,
    (length hits - (retstart + retmax) ≤ fuel)%nat →
    ∃ retstart' w',
      more_pages fuel query method retmax (length hits) ids retstart w
      = ((ids ++ tagged method (drop (retstart + retmax) hits), retstart',
          Ok ()), w').
Proof.
  intros hits Hpos Hok.
  induction fuel as [|fuel IH]; intros ids retstart w Hfuel; simpl.
  - destruct (retstart + retmax <? length hits)%nat eqn:Hlt.
    + apply Nat.ltb_lt in Hlt. lia.
    + apply Nat.ltb_ge in Hlt. exists retstart, w.
      by rewrite drop_ge, app_nil_r.
  - destruct (retstart + retmax <? length hits)%nat eqn:Hlt.
    + rewrite esearch_run by apply Hok. simpl.
      apply Nat.ltb_lt in Hlt.
      edestruct (IH (ids ++ tagged method
                       (take retmax (drop (retstart + retmax) hits)))
                    (retstart + retmax)%nat) as (retstart' & w' & ->);
        [lia|].
      exists retstart', w'. do 3 f_equal.
      rewrite <- app_assoc, <- tagged_app. do 2 f_equal.
      rewrite <- (take_drop retmax (drop (retstart + retmax) hits)) at 2.
      by rewrite drop_drop.
    + apply Nat.ltb_ge in Hlt. exists retstart, w.
      by rewrite drop_ge, app_nil_r.
Qed.

Lemma search_variant_collects (species method : string) (retmax : nat)
    (ids : list (string * string)) (retstart : nat) (gene_variant : string)
    (w : World) :
  let hits := search_hits "nucleotide" (query_of gene_variant species) in
  (0 < retmax)%nat →
  (∀ rs, search_raises "nucleotide" (query_of gene_variant species) rs = false) →
  ∃ retstart' w',
    search_variant species method retmax (ids, retstart) gene_variant w
    = (Ok (ids ++ tagged method (drop retstart hits), retstart'), w').
Proof.
  intros hits Hpos Hok. unfold search_variant.
  rewrite esearch_run by apply Hok. simpl.
  edestruct (more_pages_collects (query_of gene_variant species) method retmax
               Hpos Hok (length hits)
               (ids ++ tagged method (take retmax (drop retstart hits)))
               retstart) as (retstart' & w' & ->); [fold hits; lia|].
  exists retstart', w'. do 2 f_equal. f_equal.
  rewrite <- app_assoc, <- tagged_app. do 2 f_equal. fold hits.
  rewrite <- (take_drop retmax (drop retstart hits)) at 2.
  by rewrite drop_drop.
Qed.
Lemma esearch_outcome (db term : string) (retmax retstart : nat) (w : World) :
  ∃ w', (esearch db term retmax retstart w = (Raise IOError, w') ∨
         esearch db term retmax retstart w
         = (Ok {| IdList := take retmax (drop retstart (search_hits db term));
                  Count := length (search_hits db term) |}, w')).
Proof.
  unfold esearch. rewrite bind_unfold. simpl.
  destruct (search_raises db term retstart); eexists; [by left|by right].
Qed.

(** With a positive page size the loop of lines 158-163 ends within
    [count] turns: it never runs out of fuel. *)
Lemma more_pages_ends (query method : string) (retmax : nat) :
  (0 < retmax)%nat →
  ∀ fuel ids retstart w,
    (length (search_hits "nucleotide" query) - (retstart + retmax) ≤ fuel)%nat →
    (more_pages fuel query method retmax
       (length (search_hits "nucleotide" query)) ids retstart w).1.2
    ≠ Raise LoopsForever.
Proof.
  intros Hpos. induction fuel as [|fuel IH]; intros ids retstart w Hfuel; simpl.
  - destruct (retstart + retmax <? _)%nat eqn:Hlt; [|done].
    apply Nat.ltb_lt in Hlt. lia.
  - destruct (retstart + retmax <? _)%nat eqn:Hlt; [|done].
    destruct (esearch_outcome "nucleotide" query retmax (retstart + retmax) w)
      as (w' & [-> | ->]); [done|].
    simpl. apply IH. lia.
Qed.

(** So a turn of the loop over the gene variants always returns. *)
Lemma search_variant_returns (species method : string) (retmax : nat)
    (locals : list (string * string) * nat) (gene_variant : string)
    (w : World) :
  (0 < retmax)%nat →
  ∃ locals' w',
    search_variant species method retmax locals gene_variant w
    = (Ok locals', w').
Proof.
  intros Hpos. unfold search_variant. destruct locals as [ids retstart].
  destruct (esearch_outcome "nucleotide" (query_of gene_variant species)
              retmax retstart w) as (w1 & [-> | ->]).
  - simpl. by eexists _, _.
  - simpl.
    pose proof (more_pages_ends (query_of gene_variant species) method retmax
                  Hpos
                  (length (search_hits "nucleotide"
                             (query_of gene_variant species)))
                  (ids ++ tagged method
                     (take retmax (drop retstart
                        (search_hits "nucleotide"
                           (query_of gene_variant species)))))
                  retstart w1 ltac:(lia)) as Hends.
    destruct (more_pages _ _ _ _ _ _ _ w1) as [[[ids' retstart'] [u|e]] w2];
      simpl in *; [by eexists _, _|].
    destruct e; first [by exfalso | by eexists _, _].
Qed.

Lemma foldM_returns {A X : Type} (body : A → X → M A) (l : list X) :
  (∀ acc x w, ∃ acc' w', body acc x w = (Ok acc', w')) →
  ∀ acc w, ∃ acc' w', foldM body acc l w = (Ok acc', w').
Proof.
  intros Hbody. induction l as [|x l IH]; intros acc w; simpl.
  - by exists acc, w.
  - destruct (Hbody acc x w) as (a & w1 & Hx).
    rewrite bind_unfold, Hx. apply IH.
Qed.

(** [search_genbank] with a positive page size always returns a list. *)
Lemma search_genbank_returns (species method : string) (retmax retstart : nat)
    (w : World) :
  (0 < retmax)%nat →
  ∃ ids w', search_genbank species method retmax retstart w = (Ok ids, w').
Proof.
  intros Hpos. unfold search_genbank.
  destruct (foldM_returns (search_variant species method retmax) gene_variants
              (λ acc x w0, search_variant_returns species method retmax acc x
                             w0 Hpos)
              ([], retstart) w) as (locals & w' & Hrun).
  rewrite bind_unfold, Hrun. by eexists _, _.
Qed.
Lemma search_taxon_variant_run (taxon_name : string)
    (on_error : string → exn → Line) (all_ids : gset string)
    (gene_variant : string) (w : World) :
  ∃ w',
    search_taxon_variant taxon_name on_error all_ids gene_variant w
    = (Ok (all_ids ∪ first_page_ids taxon_name gene_variant), w') ∧
    requests w' = requests w ++
      [Esearch "nucleotide" (taxon_query taxon_name gene_variant) 10000 0].
Proof.
  unfold search_taxon_variant, try_catch, first_page_ids, esearch.
  fold (taxon_query taxon_name gene_variant).
  rewrite !bind_unfold. simpl.
  destruct (search_raises "nucleotide" (taxon_query taxon_name gene_variant) 0);
    simpl.
  - eexists. rewrite union_empty_r_L. split; reflexivity.
  - eexists. split; reflexivity.
Qed.

Lemma foldM_taxon_variants (taxon_name : string)
    (body : gset string → string → M (gset string)) (gvs : list string) :
  (∀ acc gv, ∃ on_error,
     body acc gv = search_taxon_variant taxon_name on_error acc gv) →
  ∀ acc w, ∃ w',
    foldM body acc gvs w
    = (Ok (acc ∪ ⋃ (first_page_ids taxon_name <$> gvs)), w') ∧
    requests w' = requests w ++
      map (λ gv, Esearch "nucleotide" (taxon_query taxon_name gv) 10000 0) gvs.
Proof.
  intros Hbody. induction gvs as [|gv gvs IH]; intros acc w; simpl.
  - exists w. rewrite union_empty_r_L, app_nil_r. done.
  - destruct (Hbody acc gv) as [on_error ->].
    destruct (search_taxon_variant_run taxon_name on_error acc gv w)
      as (w1 & Hrun & Hreq).
    rewrite bind_unfold, Hrun.
    destruct (IH (acc ∪ first_page_ids taxon_name gv) w1) as (w' & -> & Hreq').
    exists w'. split.
    + by rewrite (assoc_L (∪)).
    + rewrite Hreq', Hreq, <- app_assoc. done.
Qed.

Lemma elem_of_tagged (method : string) (i : string) (s : gset string) :
  (i, method) ∈ tagged method (elements s) ↔ i ∈ s.
Proof.
  unfold tagged. rewrite list_elem_of_fmap. split.
  - intros (j & [= ->] & Hj). by apply elem_of_elements.
  - intros Hi. exists i. split; [done|]. by apply elem_of_elements.
Qed.

Lemma elem_of_first_pages (taxon_name : string) (gvs : list string) (i : string) :
  i ∈ (∅ : gset string) ∪ ⋃ (first_page_ids taxon_name <$> gvs) ↔
  ∃ gv, gv ∈ gvs ∧ i ∈ first_page_ids taxon_name gv.
Proof.
  rewrite union_empty_l_L, elem_of_union_list. split.
  - intros (s & (gv & -> & Hgv)%list_elem_of_fmap & Hi). eauto.
  - intros (gv & Hgv & Hi). exists (first_page_ids taxon_name gv).
    split; [|done]. apply list_elem_of_fmap. eauto.
Qed.

Lemma search_genbank_directly_run (order_name : string) (w : World) :
  ∃ ids w',
    search_genbank_directly order_name w = (Ok ids, w') ∧
    (∀ i, (i, "Direct GenBank Search") ∈ ids ↔
          ∃ gv, gv ∈ gene_variants ∧ i ∈ first_page_ids order_name gv) ∧
    requests w' = requests w ++
      map (λ gv, Esearch "nucleotide" (taxon_query order_name gv) 10000 0)
        gene_variants.
Proof.
  unfold search_genbank_directly.
  edestruct (foldM_taxon_variants order_name
               (search_taxon_variant order_name (λ query e, SearchError query e))
               gene_variants) as (w' & Hrun & Hreq); [by eauto|].
  rewrite bind_unfold, Hrun. eexists _, w'. split; [reflexivity|].
  split; [|exact Hreq].
  intros i. by rewrite elem_of_tagged, elem_of_first_pages.
Qed.
Lemma search_genbank_family_run (family_name : string) (w : World) :
  ∃ ids w',
    search_genbank_family family_name w = (Ok ids, w') ∧
    (∀ i, (i, "Family Search") ∈ ids ↔
          ∃ gv, gv ∈ gene_variants ∧ i ∈ first_page_ids family_name gv) ∧
    requests w' = requests w ++
      map (λ gv, Esearch "nucleotide" (taxon_query family_name gv) 10000 0)
        gene_variants.
Proof.
  unfold search_genbank_family.
  edestruct (foldM_taxon_variants family_name
               (λ ids gene_variant,
                  search_taxon_variant family_name
                    (λ _ e, VariantSearchError family_name gene_variant e)
                    ids gene_variant)
               gene_variants) as (w' & Hrun & Hreq); [by eauto|].
  rewrite bind_unfold, Hrun. eexists _, w'. split; [reflexivity|].
  split; [|exact Hreq].
  intros i. by rewrite elem_of_tagged, elem_of_first_pages.
Qed.

Lemma search_genbank_genus_run (genus_name : string) (w : World) :
  ∃ ids w',
    search_genbank_genus genus_name w = (Ok ids, w') ∧
    (∀ i, (i, "Genus Search") ∈ ids ↔
          ∃ gv, gv ∈ gene_variants ∧ i ∈ first_page_ids genus_name gv) ∧
    requests w' = requests w ++
      map (λ gv, Esearch "nucleotide" (taxon_query genus_name gv) 10000 0)
        gene_variants.
Proof.
  unfold search_genbank_genus.
  edestruct (foldM_taxon_variants genus_name
               (λ ids gene_variant,
                  search_taxon_variant genus_name
                    (λ _ e, VariantSearchError genus_name gene_variant e)
                    ids gene_variant)
               gene_variants) as (w' & Hrun & Hreq); [by eauto|].
  rewrite bind_unfold, Hrun. eexists _, w'. split; [reflexivity|].
  split; [|exact Hreq].
  intros i. by rewrite elem_of_tagged, elem_of_first_pages.
Qed.

(** C4 as the program has it.  The search by species or synonym asks
    for pages of [retmax] identifiers while the reported count exceeds
    [retstart + retmax]: a query paged from offset 0, whose requests all
    succeed, has every reported identifier gathered.  The order-wide,
    per-family and per-genus searches send one request of at most 10000
    identifiers for each gene variant and ask for no further page: they
    gather the first 10000 identifiers of each query. *)
Theorem pages_gathered_by_each_strategy :
  (∀ species method retmax ids gene_variant w,
     (0 < retmax)%nat →
     (∀ retstart,
        search_raises "nucleotide" (query_of gene_variant species) retstart
        = false) →
     ∃ retstart' w',
       search_variant species method retmax (ids, O) gene_variant w
       = (Ok (ids ++ tagged method
                       (search_hits "nucleotide"
                          (query_of gene_variant species)),
              retstart'), w')) ∧
  (∀ taxon_name w,
     ∃ ids w',
       search_genbank_directly taxon_name w = (Ok ids, w') ∧
       (∀ i, (i, "Direct GenBank Search") ∈ ids ↔
             ∃ gv, gv ∈ gene_variants ∧ i ∈ first_page_ids taxon_name gv) ∧
       requests w' = requests w ++
         map (λ gv, Esearch "nucleotide" (taxon_query taxon_name gv) 10000 0)
           gene_variants) ∧
  (∀ taxon_name w,
     ∃ ids w',
       search_genbank_family taxon_name w = (Ok ids, w') ∧
       (∀ i, (i, "Family Search") ∈ ids ↔
             ∃ gv, gv ∈ gene_variants ∧ i ∈ first_page_ids taxon_name gv) ∧
       requests w' = requests w ++
         map (λ gv, Esearch "nucleotide" (taxon_query taxon_name gv) 10000 0)
           gene_variants) ∧
  (∀ taxon_name w,
     ∃ ids w',
       search_genbank_genus taxon_name w = (Ok ids, w') ∧
       (∀ i, (i, "Genus Search") ∈ ids ↔
             ∃ gv, gv ∈ gene_variants ∧ i ∈ first_page_ids taxon_name gv) ∧
       requests w' = requests w ++
         map (λ gv, Esearch "nucleotide" (taxon_query taxon_name gv) 10000 0)
           gene_variants).
Proof.
  split_and!.
  - intros species method retmax ids gene_variant w Hpos Hok.
    destruct (search_variant_collects species method retmax ids 0
                gene_variant w Hpos Hok) as (retstart' & w' & Hrun).
    exists retstart', w'. by rewrite Hrun.
  - apply search_genbank_directly_run.
  - apply search_genbank_family_run.
  - apply search_genbank_genus_run.
Qed.

End Pages.

(* ===================================================================== *)
(** ** Runs on the sample inputs                                          *)
(* ===================================================================== *)

(** C1 on the program.  The user answers "No" to the question about
    metagenomes, that is, asks for the exclusion.  A COI record of 1500
    bases is accepted all the same, with the answer as [main] hands it
    over (lower case) and with the answer as typed: the test of line 234
    compares a lower-case text with ["No"]. *)
Theorem long_record_kept_although_exclusion_requested :
  let record := sample_record "AB000013.1" coi_description 1500 in
  let incluir_mitocondriales := lower (strip "No") in
  String.length (seq record) = 1500%nat ∧
  match extract_info record (Some "Alpha a") "From ITIS"
          incluir_mitocondriales initial_world with
  | (Ok (Some info), w') =>
      num_bases info = 1500%nat ∧
      info_secuencias w' !! "AB000013.1" = Some info
  | _ => False
  end ∧
  match extract_info record (Some "Alpha a") "From ITIS" "No"
          initial_world with
  | (Ok (Some info), w') =>
      num_bases info = 1500%nat ∧
      info_secuencias w' !! "AB000013.1" = Some info
  | _ => False
  end.
Proof. vm_compute. repeat split. Qed.

(** C2 on the program.  With two species of one synonym each, the names
    searched are the two species and the synonym of the second one: the
    loop over the synonyms runs once, after the loop over the species, on
    the last species.  No request mentions the synonym of the first. *)
Theorem synonyms_of_earlier_species_not_searched :
  let run := search_itis_names (H:=silent_service) two_species "no"
               initial_world in
  ∃ nombres_buscados df_final,
    run.1 = Ok (nombres_buscados, df_final) ∧
    nombres_buscados = {[ "Alpha a"; "Beta b"; "Beta old" ]} ∧
    omap request_term (requests run.2)
      = flat_map (λ name, map (λ gv, query_of gv name) gene_variants)
          ["Alpha a"; "Beta b"; "Beta old"] ∧
    forallb (λ term, negb (contains "Alpha old" term))
      (omap request_term (requests run.2)) = true.
Proof.
  eexists _, _. split_and!.
  - vm_compute. reflexivity.
  - vm_compute. reflexivity.
  - vm_compute. reflexivity.
  - vm_compute. reflexivity.
Qed.

Lemma crowded_hits (term : string) :
  search_hits (Entrez:=crowded_service) "nucleotide" term
  = if String.eqb term (taxon_query "Rodentia" "COI")
    then numbered 10001 else [].
Proof. reflexivity. Qed.

Lemma last_identifier_not_on_first_page :
  "10000" ∉ take 10000 (numbered 10001).
Proof.
  apply (bool_decide_eq_false_1 _).
  vm_compute. reflexivity.
Qed.

Lemma last_identifier_reported : "10000" ∈ numbered 10001.
Proof.
  unfold numbered. apply list_elem_of_fmap.
  exists 10000%Z. split; [by vm_compute|]. apply elem_of_seqZ. lia.
Qed.

(** C4 fails for the order-wide search: of the 10001 identifiers that
    the service reports for a query, the last one is never gathered. *)
Lemma direct_search_leaves_identifiers_out :
  ∃ ids w',
    search_genbank_directly (H:=crowded_service) "Rodentia" initial_world
      = (Ok ids, w') ∧
    "10000" ∈ search_hits (Entrez:=crowded_service) "nucleotide"
                (taxon_query "Rodentia" "COI") ∧
    ("10000", "Direct GenBank Search") ∉ ids.
Proof.
  destruct (search_genbank_directly_run (H:=crowded_service) "Rodentia"
              initial_world) as (ids & w' & Hrun & Hids & _).
  exists ids, w'. split; [done|]. split.
  - rewrite crowded_hits.
    change (String.eqb (taxon_query "Rodentia" "COI")
              (taxon_query "Rodentia" "COI")) with true.
    apply last_identifier_reported.
  - rewrite Hids. intros (gv & _ & Hin).
    unfold first_page_ids in Hin.
    change (search_raises (Entrez:=crowded_service) "nucleotide"
              (taxon_query "Rodentia" gv) 0) with false in Hin.
    apply elem_of_list_to_set in Hin.
    rewrite crowded_hits in Hin.
    destruct (String.eqb _ _).
    + by apply last_identifier_not_on_first_page in Hin.
    + rewrite take_nil in Hin. by apply elem_of_nil in Hin.
Qed.

(** Witness of C4: the 250 identifiers of a query paged from offset 0
    are all gathered. *)
Lemma pages_gathered_by_each_strategy_witness :
  ∃ retstart' w',
    search_variant (H:=paged_service) "Alpha a" "From ITIS" 100 ([], O) "COI"
      initial_world
    = (Ok ([] ++ tagged "From ITIS"
                   (search_hits (Entrez:=paged_service) "nucleotide"
                      (query_of "COI" "Alpha a")),
           retstart'), w').
Proof.
  apply (proj1 (pages_gathered_by_each_strategy (H:=paged_service))).
  - lia.
  - intros retstart. reflexivity.
Defined.

(** [retstart] is not reset between the gene variants: after the three
    pages of the variant [COI] the query of the next variant, [COX1], is
    sent once, from offset 200, and its three identifiers are missed. *)
Lemma later_variant_paged_from_earlier_offset :
  match search_genbank (H:=paged_service) "Alpha a" "From ITIS" 100 0
          initial_world with
  | (Ok ids, w') =>
      length ids = 250%nat ∧
      existsb (λ p, String.eqb p.1 "900") ids = false ∧
      filter (λ r, request_term r = Some (query_of "COX1" "Alpha a"))
        (requests w')
        = [Esearch "nucleotide" (query_of "COX1" "Alpha a") 100 200]
  | _ => False
  end.
Proof. vm_compute. repeat split. Qed.

(** Witness of C5: a cytochrome b record of 1100 bases is accepted
    within the bounds; a record of 500 bases is dropped. *)
Lemma accepted_records_within_length_bounds_witness :
  let record := sample_record "AB000020.1" cytb_description 1100 in
  let short := sample_record "AB000021.1" coi_description 500 in
  (∃ info w',
     extract_info record None "Direct GenBank Search" "no" initial_world
       = (Ok (Some info), w') ∧
     gene info = CYTB ∧ (1000 ≤ num_bases info ≤ 1200)%nat) ∧
  extract_info short None "Direct GenBank Search" "no" initial_world
    = (Ok None, initial_world).
Proof.
  intros record short. split.
  - destruct (extract_info record None "Direct GenBank Search" "no"
                initial_world) as [[[info|]|e] w'] eqn:Hrun.
    + exists info, w'. split; [reflexivity|].
      assert (Hgene : gene info = CYTB).
      { pose proof Hrun as Hv. vm_compute in Hv. by injection Hv as <- _. }
      split; [exact Hgene|].
      destruct (accepted_records_within_length_bounds (H:=sample_service)
                  record None "Direct GenBank Search" "no" initial_world)
        as [Hacc _].
      destruct (Hacc info w' Hrun) as (_ & _ & Hband). exact (Hband Hgene).
    + vm_compute in Hrun. discriminate Hrun.
    + vm_compute in Hrun. discriminate Hrun.
  - destruct (accepted_records_within_length_bounds (H:=sample_service)
                short None "Direct GenBank Search" "no" initial_world)
      as [_ Hdrop].
    assert (Hshort : (String.length (seq short) < 590)%nat)
      by (vm_compute; lia).
    destruct (Hdrop (or_introl Hshort)) as (_ & _ & _ & Hnew).
    specialize (Hnew eq_refl).
    destruct (read_fields short None "Direct GenBank Search") as [fields|e]
      eqn:Hfields; [exact (proj1 Hnew)|].
    vm_compute in Hfields. discriminate Hfields.
Defined.

(** C5 as the specification has it fails on a record of 100 bases that
    has no feature: it is not dropped without a word, [extract_info]
    raises the [IndexError] of line 207 and the call site prints it. *)
Lemma short_featureless_record_is_not_dropped_silently :
  let record := short_featureless_record "AB000022.1" in
  (String.length (seq record) < 590)%nat ∧
  extract_info record (Some "Alpha a") "Direct GenBank Search" "no"
    initial_world = (Raise IndexError, initial_world) ∧
  process_accession (H:=short_service) organism "Direct GenBank Search" "no"
    [] ("22", "Direct GenBank Search") initial_world
  = (Ok [],
     {| info_secuencias := ∅;
        requests := [EfetchNucleotide ("22", "Direct GenBank Search")];
        stdout := [RecordError ("22", "Direct GenBank Search") IndexError] |}).
Proof. split; [vm_compute; lia|]. split; vm_compute; reflexivity. Qed.

(** Witness of C6: a run in which the searches by species, by synonym
    and by order find the same four identifiers; every accepted accession
    appears once, and a further call on one of them changes nothing. *)
Lemma accepted_accessions_are_unique_witness :
  ∃ df w',
    main (H:=sample_service) "No" one_species "Rodentia" initial_world
      = (Ok df, w') ∧
    accepted_accessions df = ["AB000011.1"; "AB000013.1"] ∧
    NoDup (accepted_accessions df) ∧
    extract_info (sample_record "AB000011.1" coi_description 650)
      (Some "Alpha a") "Direct GenBank Search" "no" w' = (Ok None, w').
Proof.
  destruct (main (H:=sample_service) "No" one_species "Rodentia" initial_world)
    as [[df|e] w'] eqn:Hrun.
  - exists df, w'. split; [reflexivity|].
    pose proof Hrun as Hv. vm_compute in Hv. injection Hv as Hdf Hw.
    destruct (accepted_accessions_are_unique (H:=sample_service)
                (sample_record "AB000011.1" coi_description 650)
                (Some "Alpha a") "Direct GenBank Search" "no" w')
      as (Hnoop & _ & Hunique).
    split_and!.
    + by rewrite <- Hdf.
    + exact (Hunique "No" one_species "Rodentia" df initial_world w' Hrun).
    + apply Hnoop. rewrite <- Hw. vm_compute. by eexists.
  - vm_compute in Hrun. discriminate Hrun.
Defined.

(** C10 fails for a registered accession: the record has no feature,
    and [extract_info] answers [None] without raising. *)
Lemma registered_featureless_record_returns_none :
  let record := featureless_record "AB000012.1" in
  let w := registered (sample_info "AB000012.1") initial_world in
  features record = [] ∧
  extract_info record (Some "Alpha a") "From ITIS" "no" w = (Ok None, w).
Proof. split; [reflexivity|]. vm_compute. reflexivity. Qed.

(** Witness of C10: on the record without features of the sample
    service [extract_info] raises, and the loop of the call site prints
    the error and goes on. *)
Lemma featureless_record_raises_unless_registered_witness :
  let record := featureless_record "AB000012.1" in
  (∃ e, is_Exception e = true ∧
        extract_info record (Some "Alpha a") "From ITIS" "no" initial_world
          = (Raise e, initial_world)) ∧
  (∃ e w1,
     process_accession (H:=sample_service) (λ _, Some "Alpha a") "From ITIS"
       "no" [] ("12", "From ITIS") initial_world = (Ok [], w1) ∧
     stdout w1 = [RecordError ("12", "From ITIS") e]).
Proof.
  intros record.
  destruct (featureless_record_raises_unless_registered (H:=sample_service)
              record (Some "Alpha a") "From ITIS" "no" initial_world eq_refl)
    as (Hraise & _ & _ & _ & Hsite).
  split; [exact (Hraise eq_refl)|].
  destruct (Hsite (λ _, Some "Alpha a") ("12", "From ITIS") [] [] eq_refl
              eq_refl) as (e & w1 & Hrun & _ & _ & Hout & _).
  exists e, w1. split; [exact Hrun|exact Hout].
Defined.

End GenbiFacts.

Set Warnings "-clear-no-such-hyp".

(* ===================================================================== *)
(** ** More on the record filter and the searches                         *)
(* ===================================================================== *)

Module GenbiMore.
Import Genbi GenbiFacts GenbiTables.

Section Answer.
Context `{Entrez}.

Lemma extract_info_same_for_answers (record : SeqRecord)
    (name : option string) (method incl1 incl2 : string) (w : World) :
  extract_info record name method incl1 w
  = extract_info record name method incl2 w.
Proof.
  rewrite !extract_info_unfold.
  by rewrite (build_info_ignores_answer record name method incl1 incl2).
Qed.

Lemma foldM_ext {A X : Type} (f g : A → X → M A) (l : list X) :
  (∀ acc x w, f acc x w = g acc x w) →
  ∀ acc w, foldM f acc l w = foldM g acc l w.
Proof.
  intros Hfg. induction l as [|x l IH]; intros acc w; simpl; [done|].
  rewrite !bind_unfold, Hfg.
  destruct (g acc x w) as [[a|e] w1]; [apply IH|done].
Qed.

Lemma bind_ext {A B : Type} (m m' : M A) (k k' : A → M B) (w : World) :
  m w = m' w → (∀ a w1, k a w1 = k' a w1) → (m ≫= k) w = (m' ≫= k') w.
Proof.
  intros Hm Hk. rewrite !bind_unfold, Hm.
  destruct (m' w) as [[a|e] w1]; [apply Hk|done].
Qed.

Lemma process_accessions_same_for_answers
    (name_of : SeqRecord → option string) (method incl1 incl2 : string)
    (ids : list (string * string)) (df : list DfRow) (w : World) :
  process_accessions name_of method incl1 ids df w
  = process_accessions name_of method incl2 ids df w.
Proof.
  unfold process_accessions. apply foldM_ext. clear.
  intros df accession w. unfold process_accession, try_catch.
  rewrite !bind_unfold.
  destruct (fetch_sequence accession w) as [[record|e] w1]; [|done].
  rewrite !bind_unfold.
  by rewrite (extract_info_same_for_answers record (name_of record) method
                incl1 incl2).
Qed.

Lemma search_itis_names_same_for_answers (especies : list Especie)
    (incl1 incl2 : string) (w : World) :
  search_itis_names especies incl1 w = search_itis_names especies incl2 w.
Proof.
  unfold search_itis_names. apply bind_ext.
  - apply foldM_ext. intros [nombres df] especie w0. unfold search_especie.
    case_bool_decide; [done|]. apply bind_ext; [done|].
    intros [|i ids] w1; [done|]. apply bind_ext; [|done].
    apply process_accessions_same_for_answers.
  - intros locals w1. apply bind_ext; [done|]. intros especie w2.
    apply foldM_ext. intros [nombres df] sinonimia w0. unfold search_sinonimia.
    case_bool_decide; [done|]. apply bind_ext; [done|].
    intros [|i ids] w3; [done|]. apply bind_ext; [|done].
    apply process_accessions_same_for_answers.
Qed.

Lemma harvest_same_for_answers (incl1 incl2 : string)
    (especies : list Especie) (nombre_taxon : string) (w : World) :
  (locals ← search_itis_names especies incl1;
   let df_final := locals.2 in
   print (Progress "Processing direct search in GenBank...");;
   direct_genbank_ids ← search_genbank_directly nombre_taxon;
   df_final ← process_accessions organism "Direct GenBank Search" incl1
                direct_genbank_ids df_final;
   print (Progress "Processing families within the order...");;
   families ← get_families_from_order nombre_taxon;
   df_final ← foldM (search_family incl1) df_final families;
   print (Progress "Processing genus within order...");;
   foldM (λ df_final family,
            genera ← get_genera_from_family family;
            foldM (search_genus incl1) df_final genera)
     df_final families) w
  =
  (locals ← search_itis_names especies incl2;
   let df_final := locals.2 in
   print (Progress "Processing direct search in GenBank...");;
   direct_genbank_ids ← search_genbank_directly nombre_taxon;
   df_final ← process_accessions organism "Direct GenBank Search" incl2
                direct_genbank_ids df_final;
   print (Progress "Processing families within the order...");;
   families ← get_families_from_order nombre_taxon;
   df_final ← foldM (search_family incl2) df_final families;
   print (Progress "Processing genus within order...");;
   foldM (λ df_final family,
            genera ← get_genera_from_family family;
            foldM (search_genus incl2) df_final genera)
     df_final families) w.
Proof.
  apply bind_ext; [apply search_itis_names_same_for_answers|].
  intros locals w1. apply bind_ext; [done|]. intros _ w2.
  apply bind_ext; [done|]. intros direct w3.
  apply bind_ext; [apply process_accessions_same_for_answers|].
  intros df1 w4. apply bind_ext; [done|]. intros _ w5.
  apply bind_ext; [done|]. intros families w6.
  apply bind_ext.
  { apply foldM_ext. intros df family w0. unfold search_family.
    apply bind_ext; [done|]. intros _ w7. apply bind_ext; [done|].
    intros ids w8. apply process_accessions_same_for_answers. }
  intros df2 w7. apply bind_ext; [done|]. intros _ w8.
  apply foldM_ext. intros df family w0.
  apply bind_ext; [done|]. intros genera w9.
  apply foldM_ext. intros df' genus w10. unfold search_genus.
  apply bind_ext; [done|]. intros _ w11. apply bind_ext; [done|].
  intros ids w12. apply process_accessions_same_for_answers.
Qed.

(** X1.  The answer to the question about metagenomes changes nothing:
    [extract_info] gives the same outcome for any two values of
    [incluir_mitocondriales], and a whole run of [main] gives the same
    table, the same registry, the same requests and the same printed
    lines for any two answers. *)
Theorem answer_about_metagenomes_changes_nothing
    (answer1 answer2 : string) (especies : list Especie)
    (nombre_taxon : string) (record : SeqRecord) (name : option string)
    (method : string) (w : World) :
  extract_info record name method answer1 w
    = extract_info record name method answer2 w ∧
  main answer1 especies nombre_taxon w = main answer2 especies nombre_taxon w.
Proof.
  split; [apply extract_info_same_for_answers|].
  unfold main. apply harvest_same_for_answers.
Qed.

End Answer.

End GenbiMore.

(* ===================================================================== *)
(** ** The line of an accepted record                                     *)
(* ===================================================================== *)

Module GenbiRows.
Import Genbi GenbiFacts GenbiTables.

(** What the line of an accepted record holds, field by field. *)
Lemma build_info_fields (record : SeqRecord) (name : option string)
    (method incl : string) (info : Info) :
  build_info record name method incl = Ok (Some info) →
  flag_species_name record name method = Ok (species_name info) ∧
  search_method info = method ∧
  existsb (λ term, contains (lower term) (lower (description record)))
    unwanted_terms = false ∧
  classify (lower (description record)) (String.length (seq record))
    = Some (gene info).
Proof.
  unfold build_info. intros Hb.
  head_case Hb.
  unfold read_fields in E. do 4 head_case E. injection E as <-.
  do 6 head_case Hb.
  injection Hb as <-. simpl. done.
Qed.

Lemma extract_info_accepted (record : SeqRecord) (name : option string)
    (method incl : string) (info : Info) (w w' : World) :
  extract_info record name method incl w = (Ok (Some info), w') →
  build_info record name method incl = Ok (Some info).
Proof.
  rewrite extract_info_unfold. case_bool_decide; [discriminate|].
  destruct (build_info record name method incl) as [[info'|]|e];
    try discriminate.
  by intros [= -> _].
Qed.

Lemma existsb_elem {A : Type} (f : A → bool) (l : list A) (x : A) :
  x ∈ l → f x = true → existsb f l = true.
Proof.
  intros Hx Hf. apply existsb_exists. exists x.
  split; [by apply list_elem_of_In|done].
Qed.

(** X2.  A record whose description contains one of the unwanted terms,
    whatever the case of its letters, is never accepted: no line is
    emitted and the world is unchanged, whatever the length and the gene
    of the record. *)
Theorem unwanted_term_never_accepted (record : SeqRecord)
    (name : option string) (method incl : string) (w : World)
    (term : string) :
  term ∈ unwanted_terms →
  contains (lower term) (lower (description record)) = true →
  (∀ info, (extract_info record name method incl w).1 ≠ Ok (Some info)) ∧
  (extract_info record name method incl w).2 = w.
Proof.
  intros Hterm Hin.
  assert (Hno : ∀ info, build_info record name method incl ≠ Ok (Some info)).
  { intros info Hb. apply build_info_fields in Hb as (_ & _ & Hfree & _).
    by rewrite (existsb_elem _ _ term Hterm Hin) in Hfree. }
  rewrite extract_info_unfold. case_bool_decide; [by split|].
  destruct (build_info record name method incl) as [[info|]|e] eqn:Hb;
    [by destruct (Hno info)|by split..].
Qed.

(** Witness of X2: the description of a cytochrome oxidase record from
    Canada contains the unwanted term [nad]. *)
Lemma unwanted_term_never_accepted_witness :
  let record :=
    sample_record "AB000030.1"
      "Alpha a isolate Canada cytochrome oxidase subunit 1 (COI) gene" 650 in
  (∀ info, (extract_info record None "Family Search" "yes"
              initial_world).1 ≠ Ok (Some info)) ∧
  (extract_info record None "Family Search" "yes" initial_world).2
    = initial_world.
Proof.
  intros record.
  apply (unwanted_term_never_accepted record None "Family Search" "yes"
           initial_world "nad").
  - unfold unwanted_terms. set_solver.
  - vm_compute. reflexivity.
Defined.

Section Loops.
Context `{Entrez}.

(** One turn of an aggregation loop: the table is kept or gains one
    accepted line, and no exception leaves the turn. *)
Lemma process_accession_outcome (name_of : SeqRecord → option string)
    (method incl : string) (df : list DfRow) (accession : string * string)
    (w : World) :
  match (process_accession name_of method incl df accession w).1 with
  | Ok df' =>
      df' = df ∨
      ∃ info, df' = df ++ [Sequence info] ∧ search_method info = method
  | Raise e => is_Exception e = false
  end.
Proof.
  unfold process_accession, try_catch. rewrite bind_unfold.
  destruct (fetch_sequence accession w) as [[record|e] w1].
  - rewrite bind_unfold.
    destruct (extract_info record (name_of record) method incl w1)
      as [[[info|]|e] w2] eqn:Hx; simpl.
    + right. exists info. split; [done|].
      apply extract_info_accepted in Hx.
      by apply build_info_fields in Hx as (_ & ? & _).
    + by left.
    + destruct (is_Exception e) eqn:He; simpl; [by left|done].
  - destruct (is_Exception e) eqn:He; simpl; [by left|done].
Qed.

(** X5.  An aggregation loop only appends: after the accessions of a
    search have been processed the table starts with the table before,
    has gained at most one line for each accession, every new line is an
    accepted sequence with the method of the search, and no exception of
    a fetch or of [extract_info] leaves the loop. *)
Theorem aggregation_only_appends (name_of : SeqRecord → option string)
    (method incl : string) (ids : list (string * string))
    (df : list DfRow) (w : World) :
  match (process_accessions name_of method incl ids df w).1 with
  | Ok df' =>
      ∃ new, df' = df ++ new ∧ (length new ≤ length ids)%nat ∧
        Forall (λ row, ∃ info, row = Sequence info ∧
                               search_method info = method) new
  | Raise e => is_Exception e = false
  end.
Proof.
  unfold process_accessions. revert df w.
  induction ids as [|accession ids IH]; intros df w; simpl.
  - exists []. by rewrite app_nil_r.
  - rewrite bind_unfold.
    pose proof (process_accession_outcome name_of method incl df accession w)
      as Hstep.
    destruct (process_accession name_of method incl df accession w)
      as [[df1|e] w1]; simpl in Hstep; [|done].
    specialize (IH df1 w1).
    destruct (foldM _ df1 ids w1) as [[df'|e] w']; simpl in *; [|done].
    destruct IH as (new & -> & Hlen & Hall).
    destruct Hstep as [->|(info & -> & Hm)].
    + exists new. split_and!; [done|lia|done].
    + exists (Sequence info :: new). rewrite <- app_assoc. simpl.
      split_and!; [done|lia|]. constructor; [by exists info|done].
Qed.

End Loops.

End GenbiRows.

(* ===================================================================== *)
(** ** Whole runs: names searched, raw data, frame                        *)
(* ===================================================================== *)

Module GenbiRuns.
Import Genbi GenbiFacts GenbiTables GenbiRows.

Section Names.
Context `{Entrez}.

Lemma search_especie_names (incl : string) (nombres nombres' : gset string)
    (df df' : list DfRow) (especie : Especie) (w w' : World) :
  search_especie incl (nombres, df) especie w = (Ok (nombres', df'), w') →
  nombres' = {[nombre_cientifico especie]} ∪ nombres.
Proof.
  unfold search_especie. case_bool_decide as Hin.
  { intros [[= -> ->] _]%ret_Ok_inv. set_solver. }
  intros (ids & w1 & _ & Hrest)%bind_Ok_inv.
  destruct ids as [|i ids].
  - by apply ret_Ok_inv in Hrest as [[= -> ->] _].
  - apply bind_Ok_inv in Hrest as (df1 & w2 & _ & Hret).
    by apply ret_Ok_inv in Hret as [[= -> ->] _].
Qed.

Lemma search_sinonimia_names (incl nombre_valido : string)
    (nombres nombres' : gset string) (df df' : list DfRow)
    (sinonimia : string) (w w' : World) :
  search_sinonimia incl nombre_valido (nombres, df) sinonimia w
    = (Ok (nombres', df'), w') →
  nombres' = {[sinonimia]} ∪ nombres.
Proof.
  unfold search_sinonimia. case_bool_decide as Hin.
  { intros [[= -> ->] _]%ret_Ok_inv. set_solver. }
  intros (ids & w1 & _ & Hrest)%bind_Ok_inv.
  destruct ids as [|i ids].
  - by apply ret_Ok_inv in Hrest as [[= -> ->] _].
  - apply bind_Ok_inv in Hrest as (df1 & w2 & _ & Hret).
    by apply ret_Ok_inv in Hret as [[= -> ->] _].
Qed.

(** The names gathered by a loop whose every turn adds the name it is
    given. *)
Lemma foldM_names {X : Type} (name_of : X → string)
    (body : gset string * list DfRow → X → M (gset string * list DfRow))
    (l : list X) :
  (∀ nombres df x w nombres' df' w',
     body (nombres, df) x w = (Ok (nombres', df'), w') →
     nombres' = {[name_of x]} ∪ nombres) →
  ∀ nombres df w nombres' df' w',
    foldM body (nombres, df) l w = (Ok (nombres', df'), w') →
    nombres' = list_to_set (name_of <$> l) ∪ nombres.
Proof.
  intros Hbody. induction l as [|x l IH]; intros nombres df w nombres' df' w';
    simpl.
  - intros [[= -> ->] _]%ret_Ok_inv. set_solver.
  - intros ([nombres1 df1] & w1 & Hx & Hrest)%bind_Ok_inv.
    apply Hbody in Hx as ->. apply IH in Hrest as ->. set_solver.
Qed.

(** X6.  The names searched in GenBank by the ITIS phase are the
    scientific names of all the species and the synonyms of the last
    species of the list, and no other: the synonyms of the species
    before the last are not searched. *)
Theorem names_searched_by_itis_phase (especies : list Especie)
    (incl : string) (nombres_buscados : gset string) (df_final : list DfRow)
    (w w' : World) :
  search_itis_names especies incl w = (Ok (nombres_buscados, df_final), w') →
  ∃ ultima, last especies = Some ultima ∧
    nombres_buscados =
      list_to_set (sinonimias ultima) ∪
      list_to_set (nombre_cientifico <$> especies).
Proof.
  unfold search_itis_names.
  intros ([nombres1 df1] & w1 & Hloop & Hrest)%bind_Ok_inv.
  apply (foldM_names nombre_cientifico) in Hloop;
    [|intros *; apply search_especie_names].
  apply bind_Ok_inv in Hrest as (ultima & w2 & Hlast & Hsyn).
  destruct (last especies) as [e|] eqn:Hl; [|discriminate].
  injection Hlast as -> ->. exists ultima. split; [done|].
  apply (foldM_names (@Datatypes.id string)) in Hsyn;
    [|intros *; apply search_sinonimia_names].
  rewrite list_fmap_id in Hsyn. subst. set_solver.
Qed.

End Names.

(** Witness of X6: two species with one synonym each. *)
Lemma names_searched_by_itis_phase_witness :
  ∃ nombres_buscados df_final w',
    search_itis_names (H:=silent_service) two_species "no" initial_world
      = (Ok (nombres_buscados, df_final), w') ∧
    nombres_buscados = {[ "Beta old"; "Alpha a"; "Beta b" ]}.
Proof.
  destruct (search_itis_names (H:=silent_service) two_species "no"
              initial_world) as [[[nombres df]|e] w'] eqn:Hrun.
  - exists nombres, df, w'. split; [reflexivity|].
    destruct (names_searched_by_itis_phase (H:=silent_service) two_species
                "no" nombres df initial_world w' Hrun)
      as (ultima & [= <-] & ->).
    vm_compute. reflexivity.
  - vm_compute in Hrun. discriminate Hrun.
Defined.


(** When no line is emitted the world is as before. *)
Lemma extract_info_rejects_world (record : SeqRecord) (name : option string)
    (method incl : string) (r : result (option Info)) (w w' : World) :
  extract_info record name method incl w = (r, w') →
  (∀ info, r ≠ Ok (Some info)) → w' = w.
Proof.
  rewrite extract_info_unfold. case_bool_decide; [by intros [= <- <-]|].
  destruct (build_info record name method incl) as [[info|]|e];
    intros [= <- <-] Hno; [by destruct (Hno info)|done..].
Qed.

(** *** Invariants of the table and the registry, in general *)

Section Invariant.
Context `{Entrez}.
Variable Inv : list DfRow → World → Prop.
Hypothesis Inv_registry : ∀ df w w',
  info_secuencias w' = info_secuencias w → Inv df w → Inv df w'.
Hypothesis Inv_placeholder : ∀ df species synonims w,
  Inv df w → Inv (df ++ [NoSequences species synonims]) w.
Hypothesis Inv_accept : ∀ df record name method incl info w w',
  Inv df w →
  extract_info record name method incl w = (Ok (Some info), w') →
  Inv (df ++ [Sequence info]) w'.

Lemma process_accession_keeps (name_of : SeqRecord → option string)
    (method incl : string) (df df' : list DfRow)
    (accession : string * string) (w w' : World) :
  Inv df w →
  process_accession name_of method incl df accession w = (Ok df', w') →
  Inv df' w'.
Proof using Inv_registry Inv_accept.
  intros Hinv. unfold process_accession, try_catch. rewrite bind_unfold.
  destruct (fetch_sequence accession w) as [[record|e] w1] eqn:Hfetch.
  - apply stable_run in Hfetch as Hreg; [|apply stable_fetch_sequence].
    apply (Inv_registry df w w1 Hreg) in Hinv. rewrite bind_unfold.
    destruct (extract_info record (name_of record) method incl w1)
      as [[[info|]|e] w2] eqn:Hx.
    + intros [= <- <-]. by eapply Inv_accept.
    + intros [= <- <-].
      rewrite (extract_info_rejects_world _ _ _ _ _ _ _ Hx) by done.
      exact Hinv.
    + destruct (is_Exception e); [|discriminate]. intros [= <- <-].
      rewrite (extract_info_rejects_world _ _ _ _ _ _ _ Hx) by done.
      apply (Inv_registry df w1); [reflexivity|exact Hinv].
  - apply stable_run in Hfetch as Hreg; [|apply stable_fetch_sequence].
    destruct (is_Exception e); [|discriminate].
    intros [= <- <-]. by eapply Inv_registry.
Qed.

Lemma process_accessions_keeps (name_of : SeqRecord → option string)
    (method incl : string) (ids : list (string * string))
    (df df' : list DfRow) (w w' : World) :
  Inv df w →
  process_accessions name_of method incl ids df w = (Ok df', w') →
  Inv df' w'.
Proof using Inv_registry Inv_accept.
  unfold process_accessions. apply (foldM_invariant Inv).
  intros acc x w0 acc' w0'. apply process_accession_keeps.
Qed.

Lemma search_especie_keeps (incl : string)
    (locals locals' : gset string * list DfRow) (especie : Especie)
    (w w' : World) :
  Inv locals.2 w →
  search_especie incl locals especie w = (Ok locals', w') →
  Inv locals'.2 w'.
Proof using Inv_registry Inv_accept Inv_placeholder.
  destruct locals as [nombres df]. simpl. intros Hinv. unfold search_especie.
  case_bool_decide.
  { by intros [-> ->]%ret_Ok_inv. }
  intros (ids & w1 & Hsearch & Hrest)%bind_Ok_inv.
  apply stable_run in Hsearch; [|apply stable_search_genbank].
  apply (Inv_registry df w w1 Hsearch) in Hinv.
  destruct ids as [|i ids].
  - apply ret_Ok_inv in Hrest as [-> ->]. simpl. by apply Inv_placeholder.
  - apply bind_Ok_inv in Hrest as (df1 & w2 & Hproc & Hret).
    apply ret_Ok_inv in Hret as [-> ->]. simpl.
    by eapply process_accessions_keeps.
Qed.

Lemma search_sinonimia_keeps (incl nombre_valido : string)
    (locals locals' : gset string * list DfRow) (sinonimia : string)
    (w w' : World) :
  Inv locals.2 w →
  search_sinonimia incl nombre_valido locals sinonimia w = (Ok locals', w') →
  Inv locals'.2 w'.
Proof using Inv_registry Inv_accept Inv_placeholder.
  destruct locals as [nombres df]. simpl. intros Hinv. unfold search_sinonimia.
  case_bool_decide.
  { by intros [-> ->]%ret_Ok_inv. }
  intros (ids & w1 & Hsearch & Hrest)%bind_Ok_inv.
  apply stable_run in Hsearch; [|apply stable_search_genbank].
  apply (Inv_registry df w w1 Hsearch) in Hinv.
  destruct ids as [|i ids].
  - apply ret_Ok_inv in Hrest as [-> ->]. simpl. by apply Inv_placeholder.
  - apply bind_Ok_inv in Hrest as (df1 & w2 & Hproc & Hret).
    apply ret_Ok_inv in Hret as [-> ->]. simpl.
    by eapply process_accessions_keeps.
Qed.

Lemma search_itis_names_keeps (especies : list Especie) (incl : string)
    (locals : gset string * list DfRow) (w w' : World) :
  Inv [] w →
  search_itis_names especies incl w = (Ok locals, w') →
  Inv locals.2 w'.
Proof using Inv_registry Inv_accept Inv_placeholder.
  intros Hinv. unfold search_itis_names.
  intros (locals1 & w1 & Hloop & Hrest)%bind_Ok_inv.
  apply (foldM_invariant (λ l w, Inv l.2 w)) in Hloop;
    [|intros ?????; apply search_especie_keeps|done].
  apply bind_Ok_inv in Hrest as (especie & w2 & Hlast & Hsyn).
  apply stable_run in Hlast; [|apply stable_lift].
  apply (foldM_invariant (λ l w, Inv l.2 w)) in Hsyn;
    [done|intros ?????; apply search_sinonimia_keeps|].
  by eapply Inv_registry.
Qed.

Lemma search_family_keeps (incl : string) (df df' : list DfRow)
    (family : string) (w w' : World) :
  Inv df w → search_family incl df family w = (Ok df', w') → Inv df' w'.
Proof using Inv_registry Inv_accept.
  intros Hinv. unfold search_family.
  intros (u & w1 & Hprint & Hrest)%bind_Ok_inv.
  apply stable_run in Hprint; [|apply stable_print].
  apply bind_Ok_inv in Hrest as (ids & w2 & Hsearch & Hproc).
  apply stable_run in Hsearch; [|apply stable_search_genbank_family].
  eapply process_accessions_keeps; [|exact Hproc].
  eapply Inv_registry; [exact Hsearch|]. by eapply Inv_registry.
Qed.

Lemma search_genus_keeps (incl : string) (df df' : list DfRow)
    (genus : string) (w w' : World) :
  Inv df w → search_genus incl df genus w = (Ok df', w') → Inv df' w'.
Proof using Inv_registry Inv_accept.
  intros Hinv. unfold search_genus.
  intros (u & w1 & Hprint & Hrest)%bind_Ok_inv.
  apply stable_run in Hprint; [|apply stable_print].
  apply bind_Ok_inv in Hrest as (ids & w2 & Hsearch & Hproc).
  apply stable_run in Hsearch; [|apply stable_search_genbank_genus].
  eapply process_accessions_keeps; [|exact Hproc].
  eapply Inv_registry; [exact Hsearch|]. by eapply Inv_registry.
Qed.

(** A property of the table and the registry that every acceptance and
    every line without sequences keeps is kept by a whole run. *)
Lemma main_keeps (answer : string) (especies : list Especie)
    (nombre_taxon : string) (df : list DfRow) (w w' : World) :
  Inv [] w → main answer especies nombre_taxon w = (Ok df, w') → Inv df w'.
Proof using Inv_registry Inv_accept Inv_placeholder.
  intros Hinv. unfold main.
  intros (locals & w1 & Hitis & Hrest)%bind_Ok_inv.
  apply (search_itis_names_keeps _ _ _ _ _ Hinv) in Hitis.
  apply bind_Ok_inv in Hrest as (u1 & w2 & Hp1 & Hrest).
  apply stable_run in Hp1; [|apply stable_print].
  apply bind_Ok_inv in Hrest as (direct & w3 & Hdirect & Hrest).
  apply stable_run in Hdirect; [|apply stable_search_genbank_directly].
  apply bind_Ok_inv in Hrest as (df1 & w4 & Hproc & Hrest).
  apply process_accessions_keeps in Hproc;
    [|eapply Inv_registry; [exact Hdirect|]; by eapply Inv_registry].
  apply bind_Ok_inv in Hrest as (u2 & w5 & Hp2 & Hrest).
  apply stable_run in Hp2; [|apply stable_print].
  apply bind_Ok_inv in Hrest as (families & w6 & Hfam & Hrest).
  apply stable_run in Hfam; [|apply stable_taxa_under].
  apply bind_Ok_inv in Hrest as (df2 & w7 & Hfams & Hrest).
  apply (foldM_invariant Inv) in Hfams;
    [|intros ?????; apply search_family_keeps
     |eapply Inv_registry; [exact Hfam|]; by eapply Inv_registry].
  apply bind_Ok_inv in Hrest as (u3 & w8 & Hp3 & Hgen).
  apply stable_run in Hp3; [|apply stable_print].
  apply (foldM_invariant Inv) in Hgen; [done| |by eapply Inv_registry].
  intros acc family w0 acc' w0' Hacc.
  intros (genera & w9 & Hgenera & Hloop)%bind_Ok_inv.
  apply stable_run in Hgenera; [|apply stable_taxa_under].
  apply (foldM_invariant Inv) in Hloop;
    [done|intros ?????; apply search_genus_keeps|].
  by eapply Inv_registry.
Qed.

End Invariant.

Section Rawdata.
Context `{Entrez}.

Lemma rawdata_matches_registry (df : list DfRow) (w w' : World) :
  info_secuencias w' = info_secuencias w →
  rawdata_matches df w → rawdata_matches df w'.
Proof. intros Heq Hm a info. rewrite Heq. apply Hm. Qed.

Lemma rawdata_matches_placeholder (df : list DfRow)
    (species synonims : string) (w : World) :
  rawdata_matches df w →
  rawdata_matches (df ++ [NoSequences species synonims]) w.
Proof.
  intros Hm a info. rewrite (Hm a info), elem_of_app, list_elem_of_singleton.
  naive_solver.
Qed.

Lemma rawdata_matches_accept (df : list DfRow) (record : SeqRecord)
    (name : option string) (method incl : string) (info : Info)
    (w w' : World) :
  rawdata_matches df w →
  extract_info record name method incl w = (Ok (Some info), w') →
  rawdata_matches (df ++ [Sequence info]) w'.
Proof.
  intros Hm. rewrite extract_info_unfold. case_bool_decide as Hin;
    [discriminate|].
  destruct (build_info record name method incl) as [[info'|]|e] eqn:Hb;
    try discriminate.
  intros [= -> <-].
  destruct (build_info_accepts _ _ _ _ _ Hb) as (Hacc & _).
  assert (Hnew : info_secuencias w !! accession info = None).
  { rewrite Hacc. destruct (info_secuencias w !! id record) eqn:Hl; [|done].
    exfalso. apply Hin. by eexists. }
  intros a i. simpl. rewrite elem_of_app, list_elem_of_singleton.
  destruct (decide (accession info = a)) as [<-|Hne].
  - rewrite lookup_insert_eq. split.
    + intros [= <-]. split; [by right|done].
    + intros [[Hold|[= ->]] Ha]; [|done].
      assert (Hl : info_secuencias w !! accession i = Some i)
        by (by apply Hm).
      rewrite Ha, Hnew in Hl. discriminate.
  - rewrite lookup_insert_ne by done. rewrite (Hm a i). split.
    + intros [? ?]. split; [by left|done].
    + intros [[Hold|[= ->]] Ha]; [done|]. by destruct Hne.
Qed.

(** X7.  After a run started with an empty registry the raw-data table
    agrees with [df_final]: [info_secuencias] holds exactly the accepted
    sequences of [df_final], each under its own accession.  Hence every
    line of the COI and of the CYTB sheet is a line of the raw data,
    while an accepted sequence of unknown gene is in the raw data and on
    neither sheet. *)
Theorem rawdata_agrees_with_table (answer : string)
    (especies : list Especie) (nombre_taxon : string) (df_final : list DfRow)
    (w w' : World) :
  info_secuencias w = ∅ →
  main answer especies nombre_taxon w = (Ok df_final, w') →
  rawdata_matches df_final w' ∧
  (∀ g row, row ∈ sheet g df_final →
     ∃ info, row = Sequence info ∧ gene info = g ∧
             info_secuencias w' !! accession info = Some info) ∧
  (∀ a info, info_secuencias w' !! a = Some info →
     Sequence info ∈ sheet (gene info) df_final ∧
     (gene info = Unknown →
        (Sequence info ∉ sheet COI df_final) ∧
        (Sequence info ∉ sheet CYTB df_final))).
Proof.
  intros Hempty Hrun.
  assert (Hm : rawdata_matches df_final w').
  { apply (main_keeps rawdata_matches rawdata_matches_registry
             rawdata_matches_placeholder rawdata_matches_accept
             _ _ _ _ _ _) with (2 := Hrun).
    intros a info. rewrite Hempty, lookup_empty. split; [done|].
    intros [Hin _]. by apply elem_of_nil in Hin. }
  split; [exact Hm|]. split.
  - intros g row [Hg Hin]%list_elem_of_filter.
    destruct row as [info|]; [|discriminate]. injection Hg as Hg.
    exists info. split_and!; [done..|]. by apply Hm.
  - intros a info [Hin Ha]%Hm. split.
    + by apply list_elem_of_filter.
    + intros Hg. split; intros [Hl _]%list_elem_of_filter; simpl in Hl;
        rewrite Hg in Hl; discriminate.
Qed.

(** X8.  Only [extract_info] writes the registry: the four searches,
    the two taxonomy lookups and the fetch of a record leave
    [info_secuencias] as it is, whether they return or raise. *)
Theorem searches_leave_registry_untouched (name method : string)
    (retmax retstart : nat) (accession : string * string) :
  stable (search_genbank name method retmax retstart) ∧
  stable (search_genbank_directly name) ∧
  stable (search_genbank_family name) ∧
  stable (search_genbank_genus name) ∧
  stable (get_families_from_order name) ∧
  stable (get_genera_from_family name) ∧
  stable (fetch_sequence accession).
Proof.
  split_and!.
  - apply stable_search_genbank.
  - apply stable_search_genbank_directly.
  - apply stable_search_genbank_family.
  - apply stable_search_genbank_genus.
  - apply stable_taxa_under.
  - apply stable_taxa_under.
  - apply stable_fetch_sequence.
Qed.

End Rawdata.

(** Witness of X7: the run on the sample service. *)
Lemma rawdata_agrees_with_table_witness :
  ∃ df_final w',
    main (H:=sample_service) "No" one_species "Rodentia" initial_world
      = (Ok df_final, w') ∧
    rawdata_matches df_final w' ∧
    length (sheet COI df_final) = 2%nat.
Proof.
  destruct (main (H:=sample_service) "No" one_species "Rodentia" initial_world)
    as [[df|e] w'] eqn:Hrun.
  - exists df, w'. split; [reflexivity|]. split.
    + exact (proj1 (rawdata_agrees_with_table (H:=sample_service) "No"
                      one_species "Rodentia" df initial_world w' eq_refl Hrun)).
    + pose proof Hrun as Hv. vm_compute in Hv. injection Hv as <- _.
      vm_compute. reflexivity.
  - vm_compute in Hrun. discriminate Hrun.
Defined.


End GenbiRuns.

(* ===================================================================== *)
(** ** Searches: failures, offsets and provenance                         *)
(* ===================================================================== *)

Module GenbiSearches.
Import Genbi GenbiFacts GenbiTables.

Section Searches.
Context `{Entrez}.

Lemma reported_page (species method gv : string) (retmax retstart : nat)
    (ids : list (string * string)) :
  gv ∈ gene_variants →
  reported species method ids →
  reported species method
    (ids ++ tagged method
       (take retmax
          (drop retstart (search_hits "nucleotide" (query_of gv species))))).
Proof.
  intros Hgv Hids. apply Forall_app. split; [done|].
  apply Forall_forall. intros [i m] (j & [= -> ->] & Hj)%list_elem_of_fmap.
  split; [done|]. exists gv. split; [done|].
  eapply subseteq_drop, subseteq_take, Hj.
Qed.

Lemma more_pages_reported (species method gv : string) (retmax : nat) :
  gv ∈ gene_variants →
  ∀ fuel count ids retstart w,
    reported species method ids →
    reported species method
      (more_pages fuel (query_of gv species) method retmax count ids
         retstart w).1.1.1.
Proof.
  intros Hgv. induction fuel as [|fuel IH]; intros count ids retstart w Hids;
    simpl.
  - by destruct (_ <? _)%nat.
  - destruct (_ <? _)%nat; [|done].
    destruct (esearch_outcome "nucleotide" (query_of gv species) retmax
                (retstart + retmax) w) as (w' & [-> | ->]); [done|].
    simpl. apply IH. by apply reported_page.
Qed.

Lemma search_variant_reported (species method : string) (retmax : nat)
    (ids ids' : list (string * string)) (retstart retstart' : nat)
    (gv : string) (w w' : World) :
  gv ∈ gene_variants →
  reported species method ids →
  search_variant species method retmax (ids, retstart) gv w
    = (Ok (ids', retstart'), w') →
  reported species method ids'.
Proof.
  intros Hgv Hids. unfold search_variant.
  destruct (esearch_outcome "nucleotide" (query_of gv species) retmax
              retstart w) as (w1 & [-> | ->]).
  - simpl. by intros [= <- _ _].
  - simpl.
    pose proof (more_pages_reported species method gv retmax Hgv
                  (length (search_hits "nucleotide" (query_of gv species)))
                  (length (search_hits "nucleotide" (query_of gv species)))
                  _ retstart w1
                  (reported_page species method gv retmax retstart ids Hgv
                     Hids)) as Hpages.
    destruct (more_pages _ _ _ _ _ _ _ w1) as [[[ids1 retstart1] [u|e]] w2];
      simpl in *.
    + by intros [= <- _ _].
    + destruct (is_Exception e); [|discriminate]. by intros [= <- _ _].
Qed.

Lemma foldM_invariant_elem {A X : Type} (P : A → Prop)
    (body : A → X → M A) (l : list X) :
  (∀ acc x w acc' w',
     x ∈ l → P acc → body acc x w = (Ok acc', w') → P acc') →
  ∀ acc w acc' w', P acc → foldM body acc l w = (Ok acc', w') → P acc'.
Proof.
  induction l as [|x l IH]; intros Hbody acc w acc' w' Hacc; simpl.
  - by intros [= <- _].
  - intros (a & w1 & Hx & Hrest)%bind_Ok_inv.
    eapply IH; [|eapply Hbody; [|exact Hacc|exact Hx]|exact Hrest].
    + intros ????? Hin. eapply Hbody. by right.
    + by left.
Qed.

Lemma esearch_world (db term : string) (retmax retstart : nat) (w : World) :
  esearch db term retmax retstart w
  = (if search_raises db term retstart then Raise IOError
     else Ok {| IdList := take retmax (drop retstart (search_hits db term));
                Count := length (search_hits db term) |},
     {| info_secuencias := info_secuencias w;
        requests := requests w ++ [Esearch db term retmax retstart];
        stdout := stdout w |}).
Proof.
  unfold esearch. rewrite bind_unfold. simpl.
  by destruct (search_raises db term retstart).
Qed.

Lemma cons_snoc {A : Type} (x : A) (l : list A) :
  ∃ before last, x :: l = before ++ [last].
Proof.
  revert x. induction l as [|y l IH]; intros x.
  - by exists [], x.
  - destruct (IH y) as (before & last & ->). by exists (x :: before), last.
Qed.

(** The loop over the further pages asks in order, prints nothing and
    stops at the first request that fails. *)
Lemma more_pages_turn (species gv method : string) (retmax : nat) :
  ∀ fuel count ids retstart w,
    let run :=
      more_pages fuel (query_of gv species) method retmax count ids retstart
        w in
    ∃ offsets,
      requests run.2 = requests w ++ pages_asked species gv retmax offsets ∧
      stdout run.2 = stdout w ∧
      match run.1.2 with
      | Ok _ =>
          Forall (λ rs, search_raises "nucleotide" (query_of gv species) rs
                        = false) offsets
      | Raise e =>
          e = LoopsForever ∨
          e = IOError ∧
          ∃ before last,
            offsets = before ++ [last] ∧
            Forall (λ rs, search_raises "nucleotide" (query_of gv species) rs
                          = false) before ∧
            search_raises "nucleotide" (query_of gv species) last = true
      end.
Proof.
  induction fuel as [|fuel IH]; intros count ids retstart w; simpl.
  - exists []. destruct (_ <? _)%nat; simpl; rewrite app_nil_r;
      (split; [done|]); (split; [done|]); [by left|done].
  - destruct (retstart + retmax <? count)%nat.
    + rewrite esearch_world.
      destruct (search_raises "nucleotide" (query_of gv species)
                  (retstart + retmax)) eqn:Hr.
      * exists [(retstart + retmax)%nat]. simpl.
        split; [done|]. split; [done|]. right. split; [done|].
        by exists [], (retstart + retmax)%nat.
      * simpl.
        edestruct (IH (length (search_hits "nucleotide" (query_of gv species)))
                     (ids ++ tagged method
                        (take retmax (drop (retstart + retmax)
                           (search_hits "nucleotide" (query_of gv species)))))
                     (retstart + retmax)%nat)
          as (offsets & Hreq & Hout & Hcase).
        exists ((retstart + retmax)%nat :: offsets).
        split; [rewrite Hreq; simpl; by rewrite <- app_assoc|].
        split; [exact Hout|].
        destruct (more_pages _ _ _ _ _ _ _ _).1.2 as [u|e].
        -- by constructor.
        -- destruct Hcase as [->|(-> & before & last & -> & Hok & Hlast)];
             [by left|right].
           split; [done|].
           exists ((retstart + retmax)%nat :: before), last.
           split; [done|]. split; [by constructor|done].
    + exists []. simpl. rewrite app_nil_r. done.
Qed.

(** One turn of the loop over the gene variants. *)
Lemma search_variant_turn (species method : string) (retmax : nat)
    (locals : list (string * string) * nat) (gv : string) (w : World) :
  (0 < retmax)%nat →
  ∃ locals' w' turn,
    search_variant species method retmax locals gv w = (Ok locals', w') ∧
    variant_turn species retmax gv turn ∧
    requests w' = requests w ++ turn.1 ∧
    stdout w' = stdout w ++ turn.2.
Proof.
  intros Hpos. destruct locals as [ids retstart]. unfold search_variant.
  rewrite esearch_world.
  destruct (search_raises "nucleotide" (query_of gv species) retstart)
    eqn:Hfirst.
  - simpl.
    eexists _, _,
      (pages_asked species gv retmax [retstart],
       [SearchError (query_of gv species) IOError]).
    split; [reflexivity|]. simpl.
    split; [|done].
    exists [], retstart. simpl. rewrite Hfirst. done.
  - simpl.
    set (w1 := {| info_secuencias := _; requests := _; stdout := _ |}).
    set (ids1 := ids ++ _).
    pose proof (more_pages_ends (query_of gv species) method retmax Hpos
                  (length (search_hits "nucleotide" (query_of gv species)))
                  ids1 retstart w1 ltac:(lia)) as Hends.
    destruct (more_pages_turn species gv method retmax
                (length (search_hits "nucleotide" (query_of gv species)))
                (length (search_hits "nucleotide" (query_of gv species)))
                ids1 retstart w1)
      as (offsets & Hreq & Hout & Hcase).
    destruct (more_pages
                (length (search_hits "nucleotide" (query_of gv species)))
                (query_of gv species) method retmax
                (length (search_hits "nucleotide" (query_of gv species)))
                ids1 retstart w1)
      as [[[ids' retstart'] [u|e]] w2]; simpl in *.
    + exists (ids', retstart'), w2,
        (pages_asked species gv retmax (retstart :: offsets), []).
      split; [reflexivity|]. simpl.
      destruct (cons_snoc retstart offsets) as (before & last & Hsnoc).
      split.
      * exists before, last. simpl. split; [by rewrite <- Hsnoc|].
        assert (Hall : Forall (λ rs, search_raises "nucleotide"
                                       (query_of gv species) rs = false)
                         (retstart :: offsets)) by (by constructor).
        rewrite Hsnoc in Hall. apply Forall_app in Hall as [Hb Hl].
        split; [done|]. inversion Hl as [|? ? Hlast _]. by rewrite Hlast.
      * rewrite Hreq, Hout. subst w1. simpl.
        rewrite <- app_assoc, app_nil_r. done.
    + destruct Hcase as [->|(-> & before & last & -> & Hok & Hlast)];
        [done|].
      simpl.
      exists (ids', retstart'),
        {| info_secuencias := info_secuencias w2;
           requests := requests w2;
           stdout := stdout w2 ++ [SearchError (query_of gv species) IOError]
        |},
        (pages_asked species gv retmax (retstart :: before ++ [last]),
         [SearchError (query_of gv species) IOError]).
      split; [reflexivity|]. simpl.
      split.
      * exists (retstart :: before), last. simpl. split; [reflexivity|].
        split; [by constructor|]. by rewrite Hlast.
      * rewrite Hreq, Hout. subst w1. simpl.
        rewrite <- app_assoc. done.
Qed.

Lemma search_variants_turns (species method : string) (retmax : nat)
    (gvs : list string) :
  (0 < retmax)%nat →
  ∀ locals w,
    ∃ locals' w' turns,
      foldM (search_variant species method retmax) locals gvs w
      = (Ok locals', w') ∧
      Forall2 (variant_turn species retmax) gvs turns ∧
      requests w' = requests w ++ concat turns.*1 ∧
      stdout w' = stdout w ++ concat turns.*2.
Proof.
  intros Hpos. induction gvs as [|gv gvs IH]; intros locals w; simpl.
  - exists locals, w, []. simpl. rewrite !app_nil_r. by repeat split.
  - destruct (search_variant_turn species method retmax locals gv w Hpos)
      as (locals1 & w1 & turn & Hrun & Hturn & Hreq & Hout).
    destruct (IH locals1 w1) as (locals' & w' & turns & Hrest & Hall & Hreqs
                                 & Houts).
    exists locals', w', (turn :: turns).
    rewrite bind_unfold, Hrun. split; [exact Hrest|].
    split; [by constructor|]. simpl.
    rewrite Hreqs, Houts, Hreq, Hout, <- !app_assoc. done.
Qed.

(** X9.  A search by species with a positive page size always returns
    a list, and each gene variant has its turn: the turn asks for at
    least one page of the variant, only its last request can have
    failed, and when it has the failure is printed and the search goes
    on with the next variant; a turn without failure prints nothing.
    The requests and the lines of the run are those of the turns, in the
    order of the gene variants.  Every identifier returned carries the
    method of the search and was reported by the service for the query
    of one gene variant, and the registry is not touched. *)
Theorem search_by_species_absorbs_failures (species method : string)
    (retmax retstart : nat) (w : World) :
  (0 < retmax)%nat →
  ∃ ids w' turns,
    search_genbank species method retmax retstart w = (Ok ids, w') ∧
    reported species method ids ∧
    info_secuencias w' = info_secuencias w ∧
    Forall2 (variant_turn species retmax) gene_variants turns ∧
    requests w' = requests w ++ concat turns.*1 ∧
    stdout w' = stdout w ++ concat turns.*2.
Proof.
  intros Hpos.
  destruct (search_variants_turns species method retmax gene_variants Hpos
              ([], retstart) w)
    as ([ids rs] & w' & turns & Hloop & Hturns & Hreq & Hout).
  assert (Hrun : search_genbank species method retmax retstart w
                 = (Ok ids, w')).
  { unfold search_genbank. rewrite bind_unfold, Hloop. reflexivity. }
  exists ids, w', turns. split; [exact Hrun|]. split_and!; [| |done..].
  - apply (foldM_invariant_elem (λ locals, reported species method locals.1))
      in Hloop; [done| |by constructor].
    intros [a rs0] gv w0 [a' rs'] w0' Hgv Ha Hstep. simpl in *.
    by eapply search_variant_reported.
  - by eapply stable_run; [apply stable_search_genbank|].
Qed.



Lemma taxa_of_rank_fetched (rank : string) (all_ids : list string) :
  ∀ tax_ids names w,
    tax_ids ⊆ all_ids →
    fetched_of_rank rank all_ids names →
    fetched_of_rank rank all_ids (taxa_of_rank rank tax_ids names w).1.1.
Proof.
  induction tax_ids as [|tax_id rest IH]; intros names w Hsub Hnames; simpl;
    [done|].
  destruct (fetch_taxonomy tax_id) as [fetch_results|e] eqn:Hfetch; [|done].
  apply IH; [set_solver|].
  apply Forall_app. split; [done|].
  apply Forall_forall. intros name (t & -> & Ht)%list_elem_of_fmap.
  apply list_elem_of_filter in Ht as [Hrank Ht].
  exists tax_id, fetch_results, t. split_and!; [set_solver|done..].
Qed.

(** X11.  A taxonomy lookup (the families of an order, the genera of a
    family) lets no exception out: a failed search gives the empty list
    and a failed fetch the names gathered before it.  Every name
    returned is the scientific name of a taxon of the wanted rank,
    fetched for one of the first 500 identifiers of the search. *)
Theorem taxonomy_lookup_outcome (taxon_name rank : string) (w : World) :
  match (taxa_under taxon_name rank w).1 with
  | Ok names =>
      fetched_of_rank rank
        (take 500 (search_hits "taxonomy"
                     (taxon_name +:+ "[ORGN] AND " +:+ rank +:+ "[Rank]")))
        names
  | Raise e => is_Exception e = false
  end.
Proof.
  unfold taxa_under.
  destruct (esearch_outcome "taxonomy"
              (taxon_name +:+ "[ORGN] AND " +:+ rank +:+ "[Rank]") 500 0 w)
    as (w1 & [-> | ->]); [by constructor|].
  cbn [IdList]. rewrite drop_0.
  destruct (take 500 _) as [|tax_id rest] eqn:Hids; [by constructor|].
  pose proof (taxa_of_rank_fetched rank (tax_id :: rest) (tax_id :: rest) []
                w1 ltac:(done) ltac:(by constructor)) as Hnames.
  destruct (taxa_of_rank rank (tax_id :: rest) [] w1)
    as [[names [u|e]] w2]; [exact Hnames|].
  destruct (is_Exception e) eqn:He; [exact Hnames|exact He].
Qed.

End Searches.

(** Witness of X9: the second page of one gene variant and the only
    request of the next one fail; the 100 identifiers of the first page
    are returned. *)
Lemma search_by_species_absorbs_failures_witness :
  ∃ ids w',
    search_genbank (H:=flaky_service) "Alpha a" "From ITIS" 100 0
      initial_world = (Ok ids, w') ∧
    length ids = 100%nat ∧
    length (stdout w') = 2%nat.
Proof.
  destruct (search_by_species_absorbs_failures (H:=flaky_service) "Alpha a"
              "From ITIS" 100 0 initial_world ltac:(lia))
    as (ids & w' & turns & Hrun & _).
  exists ids, w'. split; [exact Hrun|].
  vm_compute in Hrun. injection Hrun as <- <-. split; reflexivity.
Defined.


End GenbiSearches.

(* ===================================================================== *)
(** ** Texts: the confirmation and the coordinates                        *)
(* ===================================================================== *)

Module GenbiTexts.
Import Genbi GenbiFacts GenbiTables.

Lemma lower_ascii_not_upper (c : ascii) :
  is_upper_ascii (lower_ascii c) = false.
Proof. destruct c as [[] [] [] [] [] [] [] []]; vm_compute; reflexivity. Qed.

(** A lower-cased text holds no capital letter. *)
Lemma lower_no_capital (s : string) :
  all_chars (λ c, negb (is_upper_ascii c)) (lower s) = true.
Proof.
  unfold lower. induction s as [|c s IH]; [done|].
  cbn [map_string all_chars]. by rewrite lower_ascii_not_upper, IH.
Qed.

Lemma lower_differs (s t : string) :
  all_chars (λ c, negb (is_upper_ascii c)) t = false → lower s ≠ t.
Proof. intros Ht <-. by rewrite lower_no_capital in Ht. Qed.

(** X12.  The first question of [main], on an answer of ASCII
    characters, is decided on the answer with the blanks around it
    removed and its letters lower-cased: the run goes on exactly for
    yes, y and si, ends by the user's choice exactly for no, n and not,
    and ends as unrecognised otherwise.  The capitalised entries of the
    two lists never match. *)
Theorem confirmation_ignores_case_and_blanks (typed : string) :
  is_ascii_text typed = true →
  let respuesta := lower (strip typed) in
  (confirm typed = Continue ↔ respuesta ∈ ["yes"; "y"; "si"]) ∧
  (confirm typed = Terminated ↔ respuesta ∈ ["no"; "n"; "not"]) ∧
  (confirm typed = Unrecognized ↔
     respuesta ∉ ["yes"; "y"; "si"; "no"; "n"; "not"]).
Proof.
  intros _ respuesta. unfold confirm. fold respuesta.
  assert (Hcap : ∀ t, all_chars (λ c, negb (is_upper_ascii c)) t = false →
                      respuesta ≠ t) by (intros t; apply lower_differs).
  pose proof (Hcap "YES" eq_refl). pose proof (Hcap "Yes" eq_refl).
  pose proof (Hcap "Y" eq_refl). pose proof (Hcap "SI" eq_refl).
  pose proof (Hcap "NO" eq_refl). pose proof (Hcap "No" eq_refl).
  pose proof (Hcap "N" eq_refl). pose proof (Hcap "NOT" eq_refl).
  pose proof (Hcap "Not" eq_refl). clear Hcap. clearbody respuesta.
  assert (Hneg : respuesta ∈ respuestas_negativas ↔
                 respuesta ∈ ["no"; "n"; "not"]).
  { unfold respuestas_negativas. set_unfold. naive_solver. }
  assert (Hafi : respuesta ∈ respuestas_afirmativas ↔
                 respuesta ∈ ["yes"; "y"; "si"]).
  { unfold respuestas_afirmativas. set_unfold. naive_solver. }
  assert (Hsep : respuesta ∈ ["no"; "n"; "not"] →
                 respuesta ∉ ["yes"; "y"; "si"]).
  { set_unfold. naive_solver. }
  assert (Hall : respuesta ∈ ["yes"; "y"; "si"; "no"; "n"; "not"] ↔
                 respuesta ∈ ["yes"; "y"; "si"] ∨
                 respuesta ∈ ["no"; "n"; "not"]).
  { set_unfold. naive_solver. }
  rewrite Hall. repeat case_bool_decide; split_and!; split;
    try discriminate; try done; try tauto.
Qed.

(** Witness of X12: a capitalised yes between blanks continues the
    run, a capitalised not ends it. *)
Lemma confirmation_ignores_case_and_blanks_witness :
  confirm "  YES " = Continue ∧ confirm "Not" = Terminated ∧
  confirm "maybe" = Unrecognized.
Proof.
  destruct (confirmation_ignores_case_and_blanks "  YES " eq_refl)
    as (Hyes & _ & _).
  destruct (confirmation_ignores_case_and_blanks "Not" eq_refl)
    as (_ & Hnot & _).
  destruct (confirmation_ignores_case_and_blanks "maybe" eq_refl)
    as (_ & _ & Hother).
  split; [apply Hyes; vm_compute; set_solver|].
  split; [apply Hnot; vm_compute; set_solver|].
  apply Hother. vm_compute. set_solver.
Defined.






End GenbiTexts.

(* ===================================================================== *)
(** ** The exceptions that leave main                                     *)
(* ===================================================================== *)

Module GenbiQuiet.
Import Genbi GenbiFacts GenbiTables.

Section Quiet.
Context `{Entrez}.

Lemma quiet_ret {A : Type} (a : A) : quiet (mret a).
Proof. intros w e w' Hrun. discriminate. Qed.

Lemma quiet_print (l : Line) : quiet (print l).
Proof. intros w e w' Hrun. discriminate. Qed.

Lemma quiet_bind {A B : Type} (m : M A) (k : A → M B) :
  quiet m → (∀ a, quiet (k a)) → quiet (m ≫= k).
Proof.
  intros Hm Hk w e w'. rewrite bind_unfold.
  destruct (m w) as [[a|e1] w1] eqn:Hrun.
  - apply Hk.
  - intros [= <- <-]. by apply (Hm w e1 w1).
Qed.

Lemma quiet_always_returns {A : Type} (m : M A) :
  (∀ w, ∃ a w', m w = (Ok a, w')) → quiet m.
Proof.
  intros Hm w e w' Hrun. destruct (Hm w) as (a & w1 & Hok). congruence.
Qed.

Lemma quiet_foldM {A X : Type} (body : A → X → M A) (l : list X) :
  (∀ acc x, quiet (body acc x)) → ∀ acc, quiet (foldM body acc l).
Proof.
  intros Hb. induction l as [|x l IH]; intros acc; simpl.
  - apply quiet_ret.
  - apply quiet_bind; [apply Hb|]. intros a. apply IH.
Qed.

(** A [try] whose handler lets nothing out lets nothing out. *)
Lemma quiet_try_catch {A : Type} (body : M A) (handler : exn → M A) :
  (∀ e, quiet (handler e)) → quiet (try_catch body handler).
Proof.
  intros Hh w e w'. unfold try_catch.
  destruct (body w) as [[a|e1] w1]; [discriminate|].
  destruct (is_Exception e1) eqn:He1.
  - apply Hh.
  - by intros [= <- <-].
Qed.

Lemma quiet_process_accessions (name_of : SeqRecord → option string)
    (method incl : string) (ids : list (string * string))
    (df : list DfRow) :
  quiet (process_accessions name_of method incl ids df).
Proof.
  unfold process_accessions. apply quiet_foldM. intros acc accession.
  unfold process_accession. apply quiet_try_catch. intros e.
  apply quiet_bind; [apply quiet_print|]. intros _. apply quiet_ret.
Qed.

Lemma quiet_search_genbank (species method : string) :
  quiet (search_genbank species method 100 0).
Proof.
  apply quiet_always_returns. intros w.
  apply search_genbank_returns. lia.
Qed.

Lemma quiet_search_especie (incl : string)
    (locals : gset string * list DfRow) (especie : Especie) :
  quiet (search_especie incl locals especie).
Proof.
  unfold search_especie. destruct locals as [nombres df].
  case_bool_decide; [apply quiet_ret|].
  apply quiet_bind; [apply quiet_search_genbank|].
  intros [|accession ids]; [apply quiet_ret|].
  apply quiet_bind; [apply quiet_process_accessions|].
  intros df'. apply quiet_ret.
Qed.

Lemma quiet_search_sinonimia (incl nombre_valido : string)
    (locals : gset string * list DfRow) (sinonimia : string) :
  quiet (search_sinonimia incl nombre_valido locals sinonimia).
Proof.
  unfold search_sinonimia. destruct locals as [nombres df].
  case_bool_decide; [apply quiet_ret|].
  apply quiet_bind; [apply quiet_search_genbank|].
  intros [|accession ids]; [apply quiet_ret|].
  apply quiet_bind; [apply quiet_process_accessions|].
  intros df'. apply quiet_ret.
Qed.

Lemma quiet_search_itis_names (especies : list Especie) (incl : string) :
  especies ≠ [] → quiet (search_itis_names especies incl).
Proof.
  intros Hne. unfold search_itis_names.
  apply quiet_bind; [apply quiet_foldM, quiet_search_especie|].
  intros locals.
  destruct (last especies) as [ultima|] eqn:Hlast.
  - apply quiet_bind; [apply quiet_ret|]. intros especie.
    apply quiet_foldM, quiet_search_sinonimia.
  - by apply last_None in Hlast.
Qed.

Lemma quiet_taxa_under (taxon_name rank : string) :
  quiet (taxa_under taxon_name rank).
Proof.
  intros w e w'. unfold taxa_under.
  destruct (esearch _ _ _ _ w) as [[search_results|e1] w1].
  - destruct (IdList search_results) as [|tax_id tax_ids]; [discriminate|].
    destruct (taxa_of_rank _ _ _ w1) as [[names [[]|e2]] w2];
      [discriminate|].
    destruct (is_Exception e2) eqn:He2; [discriminate|].
    by intros [= <- <-].
  - destruct (is_Exception e1) eqn:He1; [discriminate|].
    by intros [= <- <-].
Qed.

Lemma quiet_search_family (incl : string) (df : list DfRow)
    (family : string) :
  quiet (search_family incl df family).
Proof.
  unfold search_family.
  apply quiet_bind; [apply quiet_print|]. intros _.
  apply quiet_bind.
  - apply quiet_always_returns. intros w.
    destruct (search_genbank_family_run family w) as (ids & w' & Hrun & _).
    by exists ids, w'.
  - intros ids. apply quiet_process_accessions.
Qed.

Lemma quiet_search_genus (incl : string) (df : list DfRow) (genus : string) :
  quiet (search_genus incl df genus).
Proof.
  unfold search_genus.
  apply quiet_bind; [apply quiet_print|]. intros _.
  apply quiet_bind.
  - apply quiet_always_returns. intros w.
    destruct (search_genbank_genus_run genus w) as (ids & w' & Hrun & _).
    by exists ids, w'.
  - intros ids. apply quiet_process_accessions.
Qed.

Lemma quiet_main (answer : string) (especies : list Especie)
    (nombre_taxon : string) :
  especies ≠ [] → quiet (main answer especies nombre_taxon).
Proof.
  intros Hne. unfold main.
  apply quiet_bind; [by apply quiet_search_itis_names|]. intros locals.
  apply quiet_bind; [apply quiet_print|]. intros _.
  apply quiet_bind.
  { apply quiet_always_returns. intros w.
    destruct (search_genbank_directly_run nombre_taxon w)
      as (ids & w' & Hrun & _).
    by exists ids, w'. }
  intros ids.
  apply quiet_bind; [apply quiet_process_accessions|]. intros df.
  apply quiet_bind; [apply quiet_print|]. intros _.
  apply quiet_bind; [apply quiet_taxa_under|]. intros families.
  apply quiet_bind; [apply quiet_foldM, quiet_search_family|]. intros df'.
  apply quiet_bind; [apply quiet_print|]. intros _.
  apply quiet_foldM. intros df'' family.
  apply quiet_bind; [apply quiet_taxa_under|]. intros genera.
  apply quiet_foldM, quiet_search_genus.
Qed.

(** X14.  Lines 434-518 of [main], the harvest from GenBank that
    follows the resolution of the species by ITIS: an exception leaves
    them only when the list of species is empty, and it is then the
    NameError of line 458, raised before these lines have requested,
    printed or registered anything.  With at least one species every
    failure of a search, of a fetch and of [extract_info] is caught, and
    the lines end with their table unless a loop does not end. *)
Theorem only_an_empty_species_list_raises (answer : string)
    (especies : list Especie) (nombre_taxon : string) (w : World) :
  (especies = [] →
     main answer especies nombre_taxon w = (Raise NameError, w)) ∧
  (∀ e w',
     main answer especies nombre_taxon w = (Raise e, w') →
     is_Exception e = true →
     especies = [] ∧ e = NameError ∧ w' = w).
Proof.
  split.
  - by intros ->.
  - intros e w' Hrun He. destruct especies as [|especie especies].
    + by injection Hrun as <- <-.
    + apply quiet_main in Hrun; [congruence|done].
Qed.

End Quiet.

End GenbiQuiet.

(* ===================================================================== *)
(** ** The scorers as functions of a number                               *)
(* ===================================================================== *)

Module PriorizationOrder.
Import Priorization PriorizationFacts.

(** The order of binary64 is transitive, on the specification of the
    comparisons. *)
Ltac compare_cases :=
  repeat match goal with
         | |- context [(?x ?= ?y)%Z] => destruct (Z.compare_spec x y)
         | |- context [Pos.compare_cont Eq ?x ?y] =>
             change (Pos.compare_cont Eq x y) with (Pos.compare x y);
             destruct (Pos.compare_spec x y)
         end;
  simpl; intros; subst;
  try discriminate; try reflexivity; exfalso; lia.

Lemma SFltb_leb_trans (a b c : spec_float) :
  SFltb a b = true → SFleb b c = true → SFltb a c = true.
Proof.
  unfold SFltb, SFleb, SFcompare.
  destruct a as [[]|[]| |[] ma ea], b as [[]|[]| |[] mb eb],
    c as [[]|[]| |[] mc ec]; try (simpl; intros; done); compare_cases.
Qed.

Lemma SFleb_ltb_trans (a b c : spec_float) :
  SFleb a b = true → SFltb b c = true → SFltb a c = true.
Proof.
  unfold SFltb, SFleb, SFcompare.
  destruct a as [[]|[]| |[] ma ea], b as [[]|[]| |[] mb eb],
    c as [[]|[]| |[] mc ec]; try (simpl; intros; done); compare_cases.
Qed.

Lemma ltb_leb_trans (x y z : float) :
  (x <? y)%float = true → (y <=? z)%float = true → (x <? z)%float = true.
Proof. rewrite !ltb_spec, leb_spec. apply SFltb_leb_trans. Qed.

Lemma leb_ltb_trans (x y z : float) :
  (x <=? y)%float = true → (y <? z)%float = true → (x <? z)%float = true.
Proof. rewrite !ltb_spec, leb_spec. apply SFleb_ltb_trans. Qed.

(** Two numbers that compare are numbers. *)
Lemma leb_not_nan (x y : float) :
  (x <=? y)%float = true →
  PrimFloat.is_nan x = false ∧ PrimFloat.is_nan y = false.
Proof.
  unfold PrimFloat.is_nan. rewrite leb_spec, !FloatAxioms.eqb_spec.
  unfold SFleb, SFeqb, SFcompare.
  destruct (Prim2SF x) as [[]|[]| |[] mx ex],
    (Prim2SF y) as [[]|[]| |[] my ey];
    try (simpl; intros; done); intros _;
    rewrite ?Z.compare_refl;
    change (Pos.compare_cont Eq ?p ?q) with (Pos.compare p q);
    rewrite ?Pos.compare_refl; done.
Qed.

Section Monotone.
Context `{Builtins}.

Ltac bands_done :=
  do 2 eexists; split; [reflexivity|split; [reflexivity|lia]].

(** X15.  The scorers of a number follow its size: of two numbers the
    larger never has the smaller area-loss score or the smaller human
    footprint score, and never the larger EOO score. *)
Theorem scores_follow_the_size_of_the_number (x y : float) :
  (x <=? y)%float = true →
  (∃ a b, calculate_area_loss_score (PyFloat x) = Ok a ∧
          calculate_area_loss_score (PyFloat y) = Ok b ∧ a ≤ b) ∧
  (∃ a b, calculate_human_footprint_score (PyFloat x) = Ok a ∧
          calculate_human_footprint_score (PyFloat y) = Ok b ∧ a ≤ b) ∧
  (∃ a b, calculate_eoo_score (PyFloat x) = Ok a ∧
          calculate_eoo_score (PyFloat y) = Ok b ∧ b ≤ a).
Proof.
  intros Hle. destruct (leb_not_nan x y Hle) as [Hx Hy].
  assert (Hup : ∀ c, (c <? x)%float = true → (c <? y)%float = true)
    by (intros c Hc; exact (ltb_leb_trans c x y Hc Hle)).
  assert (Hdown : ∀ c, (y <? c)%float = true → (x <? c)%float = true)
    by (intros c Hc; exact (leb_ltb_trans x y c Hle Hc)).
  unfold calculate_area_loss_score, calculate_human_footprint_score,
    calculate_eoo_score, missing.
  simpl pd_isna. rewrite Hx, Hy. simpl.
  split_and!.
  - destruct (80 <? x)%float eqn:H80; [rewrite (Hup _ H80); bands_done|].
    destruct (60 <? x)%float eqn:H60;
      [rewrite (Hup _ H60); destruct (80 <? y)%float; bands_done|].
    destruct (40 <? x)%float eqn:H40;
      [rewrite (Hup _ H40); destruct (80 <? y)%float, (60 <? y)%float;
       bands_done|].
    destruct (20 <? x)%float eqn:H20;
      [rewrite (Hup _ H20);
       destruct (80 <? y)%float, (60 <? y)%float, (40 <? y)%float;
       bands_done|].
    destruct (80 <? y)%float, (60 <? y)%float, (40 <? y)%float,
      (20 <? y)%float; bands_done.
  - destruct (80 <? x)%float eqn:H80; [rewrite (Hup _ H80); bands_done|].
    destruct (60 <? x)%float eqn:H60;
      [rewrite (Hup _ H60); destruct (80 <? y)%float; bands_done|].
    destruct (40 <? x)%float eqn:H40;
      [rewrite (Hup _ H40); destruct (80 <? y)%float, (60 <? y)%float;
       bands_done|].
    destruct (20 <? x)%float eqn:H20;
      [rewrite (Hup _ H20);
       destruct (80 <? y)%float, (60 <? y)%float, (40 <? y)%float;
       bands_done|].
    destruct (80 <? y)%float, (60 <? y)%float, (40 <? y)%float,
      (20 <? y)%float; bands_done.
  - destruct (y <? 100)%float eqn:H1; [rewrite (Hdown _ H1); bands_done|].
    destruct (y <? 5000)%float eqn:H2;
      [rewrite (Hdown _ H2); destruct (x <? 100)%float; bands_done|].
    destruct (y <? 20000)%float eqn:H3;
      [rewrite (Hdown _ H3); destruct (x <? 100)%float, (x <? 5000)%float;
       bands_done|].
    destruct (y <? 50000)%float eqn:H4;
      [rewrite (Hdown _ H4);
       destruct (x <? 100)%float, (x <? 5000)%float, (x <? 20000)%float;
       bands_done|].
    destruct (x <? 100)%float, (x <? 5000)%float, (x <? 20000)%float,
      (x <? 50000)%float; bands_done.
Qed.

End Monotone.

(** Witness of X15: 30 and 70 per cent, 30 and 70 km2. *)
Lemma scores_follow_the_size_of_the_number_witness :
  (∃ a b, calculate_area_loss_score (H:=sample_builtins) (PyFloat 30) = Ok a ∧
          calculate_area_loss_score (H:=sample_builtins) (PyFloat 70) = Ok b ∧
          a ≤ b) ∧
  (∃ a b,
     calculate_human_footprint_score (H:=sample_builtins) (PyFloat 30) = Ok a ∧
     calculate_human_footprint_score (H:=sample_builtins) (PyFloat 70) = Ok b ∧
     a ≤ b) ∧
  (∃ a b, calculate_eoo_score (H:=sample_builtins) (PyFloat 30) = Ok a ∧
          calculate_eoo_score (H:=sample_builtins) (PyFloat 70) = Ok b ∧
          b ≤ a).
Proof.
  exact (scores_follow_the_size_of_the_number (H:=sample_builtins) 30 70
           eq_refl).
Defined.

End PriorizationOrder.

(* ===================================================================== *)
(** ** The final score and the two scenarios                              *)
(* ===================================================================== *)

Module PriorizationMore.
Import Priorization PriorizationFacts PriorizationTables PriorizationOrder.

Section Quarters.
Context `{Builtins}.

(** The floating-point sum of the four contributions is exact. *)
Lemma final_score_exact (r : SpeciesRow) (a b c d : Z) :
  1 ≤ a ≤ 7 → 1 ≤ b ≤ 5 → 1 ≤ c ≤ 5 → 1 ≤ d ≤ 5 →
  final_score (contribution_columns r a b c d)
  = (float_of_Z (a + b + c + d) * 0.25)%float.
Proof.
  intros Ha Hb Hc Hd.
  assert (Hall :
    forallb (λ a, forallb (λ b, forallb (λ c, forallb (λ d,
      PrimFloat.Leibniz.eqb
        (final_score (contribution_columns r a b c d))
        (float_of_Z (a + b + c + d) * 0.25)%float)
      (seqZ 1 5)) (seqZ 1 5)) (seqZ 1 5)) (seqZ 1 7) = true)
    by (vm_compute; reflexivity).
  rewrite forallb_forall in Hall.
  specialize (Hall a (in_seqZ a 1 7 ltac:(lia))). cbv beta in Hall.
  rewrite forallb_forall in Hall.
  specialize (Hall b (in_seqZ b 1 5 ltac:(lia))). cbv beta in Hall.
  rewrite forallb_forall in Hall.
  specialize (Hall c (in_seqZ c 1 5 ltac:(lia))). cbv beta in Hall.
  rewrite forallb_forall in Hall.
  specialize (Hall d (in_seqZ d 1 5 ltac:(lia))). cbv beta in Hall.
  by apply FloatAxioms.Leibniz.eqb_spec.
Qed.

(** Quarters of small integers compare and subtract as the integers. *)
Lemma quarters_compare (t1 t2 : Z) :
  4 ≤ t1 ≤ 22 → 4 ≤ t2 ≤ 22 →
  (float_of_Z t1 * 0.25 <? float_of_Z t2 * 0.25)%float = (t1 <? t2) ∧
  (float_of_Z t1 * 0.25 =? float_of_Z t2 * 0.25)%float = (t1 =? t2) ∧
  (float_of_Z t2 * 0.25 - float_of_Z t1 * 0.25)%float
  = (float_of_Z (t2 - t1) * 0.25)%float.
Proof.
  intros H1 H2.
  assert (Hall :
    forallb (λ t1, forallb (λ t2,
      Bool.eqb (float_of_Z t1 * 0.25 <? float_of_Z t2 * 0.25)%float
               (t1 <? t2) &&
      Bool.eqb (float_of_Z t1 * 0.25 =? float_of_Z t2 * 0.25)%float
               (t1 =? t2) &&
      PrimFloat.Leibniz.eqb
        (float_of_Z t2 * 0.25 - float_of_Z t1 * 0.25)%float
        (float_of_Z (t2 - t1) * 0.25)%float)
      (seqZ 4 19)) (seqZ 4 19) = true)
    by (vm_compute; reflexivity).
  rewrite forallb_forall in Hall.
  specialize (Hall t1 (in_seqZ t1 4 19 ltac:(lia))). cbv beta in Hall.
  rewrite forallb_forall in Hall.
  specialize (Hall t2 (in_seqZ t2 4 19 ltac:(lia))). cbv beta in Hall.
  apply andb_prop in Hall as [[Hlt Heq]%andb_prop Hsub].
  apply Bool.eqb_prop in Hlt, Heq.
  apply FloatAxioms.Leibniz.eqb_spec in Hsub. done.
Qed.

Lemma score_row_scores (sc : Scenario) (r : SpeciesRow) (s : ScoredRow) :
  score_row sc r = Ok s →
  ∃ a b c d,
    s = contribution_columns r a b c d ∧
    calculate_iucn_score (iucn_status r) = Ok a ∧
    calculate_area_loss_score (area_loss sc r) = Ok b ∧
    calculate_eoo_score (eoo r) = Ok c ∧
    calculate_human_footprint_score (human_footprint r) = Ok d ∧
    1 ≤ a ≤ 7 ∧ 1 ≤ b ≤ 5 ∧ 1 ≤ c ≤ 5 ∧ 1 ≤ d ≤ 5.
Proof.
  destruct (iucn_band (iucn_status r)) as (a & Ha & ?).
  destruct (area_loss_band (area_loss sc r)) as (b & Hb & ?).
  destruct (eoo_band (eoo r)) as (c & Hc & ?).
  destruct (human_footprint_band (human_footprint r)) as (d & Hd & ?).
  unfold score_row.
  rewrite Ha; simpl. rewrite Hb; simpl. rewrite Hc; simpl. rewrite Hd; simpl.
  intros [= <-]. by exists a, b, c, d.
Qed.

(** X16.  The final score of a line is exactly a quarter of the sum of
    its four scores, a sum from 4 to 22: the floating-point additions
    lose nothing.  So of two scored lines, of either scenario, one has
    the smaller final score exactly when it has the smaller sum of
    scores, and equal sums give equal final scores. *)
Theorem final_score_is_a_quarter_of_the_total (sc1 sc2 : Scenario)
    (r1 r2 : SpeciesRow) (s1 s2 : ScoredRow) :
  score_row sc1 r1 = Ok s1 → score_row sc2 r2 = Ok s2 →
  final_score s1 = (float_of_Z (total_score s1) * 0.25)%float ∧
  4 ≤ total_score s1 ≤ 22 ∧
  (final_score s1 <? final_score s2)%float
  = (total_score s1 <? total_score s2) ∧
  (final_score s1 =? final_score s2)%float
  = (total_score s1 =? total_score s2).
Proof.
  intros (a1 & b1 & c1 & d1 & -> & _ & _ & _ & _ & ? & ? & ? & ?)%score_row_scores
         (a2 & b2 & c2 & d2 & -> & _ & _ & _ & _ & ? & ? & ? & ?)%score_row_scores.
  rewrite !final_score_exact by done.
  unfold total_score; cbn [iucn_score area_loss_score eoo_score
    human_footprint_score contribution_columns].
  destruct (quarters_compare (a1 + b1 + c1 + d1) (a2 + b2 + c2 + d2))
    as (Hlt & Heq & _); [lia..|].
  split_and!; [done|lia|lia|done|done].
Qed.

(** X17.  The two scenarios score a line alike but for the area loss:
    the IUCN, EOO and human footprint scores are the same, and the
    final score under SSP585 minus the one under SSP245 is exactly a
    quarter of the difference of the two area-loss scores, hence between
    -1 and 1. *)
Theorem scenarios_differ_by_area_loss_only (r : SpeciesRow)
    (s245 s585 : ScoredRow) :
  score_row SSP245 r = Ok s245 → score_row SSP585 r = Ok s585 →
  iucn_score s585 = iucn_score s245 ∧
  eoo_score s585 = eoo_score s245 ∧
  human_footprint_score s585 = human_footprint_score s245 ∧
  score_difference s245 s585
  = (float_of_Z (area_loss_score s585 - area_loss_score s245) * 0.25)%float ∧
  (-1 <=? score_difference s245 s585)%float = true ∧
  (score_difference s245 s585 <=? 1)%float = true.
Proof.
  intros (a1 & b1 & c1 & d1 & -> & Ha1 & _ & Hc1 & Hd1 & ? & ? & ? & ?)%score_row_scores
         (a2 & b2 & c2 & d2 & -> & Ha2 & _ & Hc2 & Hd2 & ? & ? & ? & ?)%score_row_scores.
  rewrite Ha1 in Ha2. rewrite Hc1 in Hc2. rewrite Hd1 in Hd2.
  injection Ha2 as <-. injection Hc2 as <-. injection Hd2 as <-.
  unfold score_difference. rewrite !final_score_exact by done.
  cbn [iucn_score area_loss_score eoo_score human_footprint_score
    contribution_columns].
  destruct (quarters_compare (a1 + b1 + c1 + d1) (a1 + b2 + c1 + d1))
    as (_ & _ & ->); [lia..|].
  replace (a1 + b2 + c1 + d1 - (a1 + b1 + c1 + d1)) with (b2 - b1) by lia.
  assert (Hall :
    forallb (λ n, (-1 <=? float_of_Z n * 0.25)%float &&
                  (float_of_Z n * 0.25 <=? 1)%float) (seqZ (-4) 9) = true)
    by (vm_compute; reflexivity).
  rewrite forallb_forall in Hall.
  specialize (Hall (b2 - b1) (in_seqZ (b2 - b1) (-4) 9 ltac:(lia))).
  cbv beta in Hall. apply andb_prop in Hall as [Hlo Hhi].
  split_and!; done.
Qed.

End Quarters.

(** Witness of X16: the critical line and the line without data. *)
Lemma final_score_is_a_quarter_of_the_total_witness :
  let s1 := contribution_columns (H:=sample_builtins) critical_row 7 5 5 5 in
  let s2 := contribution_columns (H:=sample_builtins) missing_row 3 3 3 3 in
  final_score s1 = (float_of_Z (total_score s1) * 0.25)%float ∧
  4 ≤ total_score s1 ≤ 22 ∧
  (final_score s1 <? final_score s2)%float
  = (total_score s1 <? total_score s2) ∧
  (final_score s1 =? final_score s2)%float
  = (total_score s1 =? total_score s2).
Proof.
  exact (final_score_is_a_quarter_of_the_total (H:=sample_builtins)
           SSP245 SSP585 critical_row missing_row _ _ eq_refl eq_refl).
Defined.

(** A line whose area loss is 12.5 per cent under SSP245 and 90 per
    cent under SSP585: the final score rises by one. *)
Lemma scenarios_differ_by_area_loss_only_witness :
  let r := {| species_name := PyStr "Alpha a";
              iucn_status := PyStr "CR";
              area_loss_ssp245 := PyStr "12.5";
              area_loss_ssp585 := PyStr "90";
              eoo := PyStr "50";
              human_footprint := PyFloat 90 |} in
  let s245 := contribution_columns (H:=sample_builtins) r 7 1 5 5 in
  let s585 := contribution_columns (H:=sample_builtins) r 7 5 5 5 in
  score_difference s245 s585 = 1%float ∧
  (-1 <=? score_difference s245 s585)%float = true ∧
  (score_difference s245 s585 <=? 1)%float = true.
Proof.
  intros r s245 s585.
  destruct (scenarios_differ_by_area_loss_only (H:=sample_builtins)
              r s245 s585 eq_refl eq_refl)
    as (_ & _ & _ & Hdiff & Hlo & Hhi).
  split; [|by split]. rewrite Hdiff. reflexivity.
Defined.

End PriorizationMore.

(* ===================================================================== *)
(** ** The columns read from the file                                     *)
(* ===================================================================== *)

Module PriorizationColumns.
Import Priorization PriorizationFacts PriorizationTables PriorizationOrder.

(** A column copied under its own name reads as before. *)
Lemma copy_keeps (df acc : gmap string pyval) (col k : string) :
  acc !! k = df !! k →
  (match df !! col with
   | Some v => <[col := v]> acc
   | None => acc
   end) !! k = df !! k.
Proof.
  intros Hk. destruct (df !! col) as [v|] eqn:Hcol; [|done].
  destruct (decide (k = col)) as [->|Hne].
  - by rewrite lookup_insert_eq.
  - by rewrite lookup_insert_ne.
Qed.

(** A column written under another name leaves the other columns. *)
Lemma copy_elsewhere (df acc : gmap string pyval) (orig new k : string) :
  k ≠ new →
  (match df !! orig with
   | Some v => <[new := v]> acc
   | None => acc
   end) !! k = acc !! k.
Proof.
  intros Hne. destruct (df !! orig); [|done]. by rewrite lookup_insert_ne.
Qed.

Lemma normalize_columns_other (df : gmap string pyval) (k : string) :
  k ≠ "eoo" → normalize_columns df !! k = df !! k.
Proof.
  intros Hk. unfold normalize_columns.
  cbn [foldl column_mapping].
  apply copy_keeps. rewrite copy_elsewhere by done.
  do 4 apply copy_keeps. reflexivity.
Qed.

Lemma normalize_columns_eoo (df : gmap string pyval) :
  normalize_columns df !! "eoo"
  = match df !! "terrestrial_eoo" with
    | Some v => Some v
    | None => df !! "eoo"
    end.
Proof.
  unfold normalize_columns.
  cbn [foldl column_mapping].
  rewrite copy_elsewhere by done.
  destruct (df !! "terrestrial_eoo") as [v|]; [by rewrite lookup_insert_eq|].
  do 4 apply copy_keeps. reflexivity.
Qed.

Lemma with_species_name_other (df : gmap string pyval) (k : string) :
  k ≠ "species_name" → with_species_name df !! k = df !! k.
Proof.
  intros Hk. unfold with_species_name.
  destruct (df !! "species_name"), (df !! "species"); try done.
  by rewrite lookup_insert_ne.
Qed.

Lemma with_species_name_name (df : gmap string pyval) :
  with_species_name df !! "species_name"
  = match df !! "species_name" with
    | Some v => Some v
    | None => df !! "species"
    end.
Proof.
  unfold with_species_name.
  destruct (df !! "species_name") eqn:Hname, (df !! "species"); try done.
  by rewrite lookup_insert_eq.
Qed.

Lemma ensure_step (acc : gmap string pyval) (col k : string) :
  (match acc !! col with
   | Some _ => acc
   | None => <[col := PyFloat nan]> acc
   end) !! k
  = if decide (k = col) then Some (default (PyFloat nan) (acc !! k))
    else acc !! k.
Proof.
  destruct (decide (k = col)) as [->|Hne].
  - destruct (acc !! col) as [v|] eqn:Hcol; [by rewrite Hcol|].
    by rewrite lookup_insert_eq.
  - destruct (acc !! col); [done|]. by rewrite lookup_insert_ne.
Qed.

Lemma ensure_columns_lookup (cols : list string) (acc : gmap string pyval)
    (k : string) :
  k ∈ cols →
  foldl (λ df_normalized col,
           match df_normalized !! col with
           | Some _ => df_normalized
           | None => <[col := PyFloat nan]> df_normalized
           end) acc cols !! k
  = Some (default (PyFloat nan) (acc !! k)).
Proof.
  assert (Hkeep : ∀ (cols : list string) (acc : gmap string pyval) v,
    acc !! k = Some v →
    foldl (λ df_normalized col,
             match df_normalized !! col with
             | Some _ => df_normalized
             | None => <[col := PyFloat nan]> df_normalized
             end) acc cols !! k = Some v).
  { clear. induction cols as [|col cols IH]; intros acc v Hv; [done|].
    simpl. apply IH. rewrite ensure_step. rewrite Hv. by case_decide. }
  revert acc. induction cols as [|col cols IH]; intros acc Hin.
  - by apply elem_of_nil in Hin.
  - simpl. destruct (decide (k = col)) as [->|Hne].
    + apply Hkeep. rewrite ensure_step. by rewrite decide_True.
    + apply elem_of_cons in Hin as [?|Hin]; [done|].
      rewrite IH by done. rewrite ensure_step. by rewrite decide_False.
Qed.

(** What the scoring reads of a line of the file. *)
Lemma normalized_row_reads (df : gmap string pyval) :
  normalized_row df = Some
    {| species_name :=
         match df !! "species_name" with
         | Some v => v
         | None => default (PyFloat nan) (df !! "species")
         end;
       iucn_status := default (PyFloat nan) (df !! "iucn_status");
       area_loss_ssp245 := default (PyFloat nan) (df !! "area_loss_ssp245");
       area_loss_ssp585 := default (PyFloat nan) (df !! "area_loss_ssp585");
       eoo :=
         match df !! "terrestrial_eoo" with
         | Some v => v
         | None => default (PyFloat nan) (df !! "eoo")
         end;
       human_footprint := default (PyFloat nan) (df !! "human_footprint") |}.
Proof.
  unfold normalized_row, species_row, ensure_columns.
  rewrite !ensure_columns_lookup
    by (unfold needed_columns; rewrite !elem_of_cons; tauto).
  rewrite normalize_columns_eoo, !normalize_columns_other by done.
  rewrite with_species_name_name, !with_species_name_other by done.
  simpl. do 2 f_equal.
  - by destruct (df !! "species_name").
  - by destruct (df !! "terrestrial_eoo").
Qed.

Section Columns.
Context `{Builtins}.

(** X18.  The extent of occurrence is read from the column
    [terrestrial_eoo] when the file has it, whatever a column [eoo]
    holds, and from [eoo] otherwise; the species from [species_name], and
    from [species] only when [species_name] is not a column.  A line is
    always read: a needed column the file lacks counts as NaN. *)
Theorem terrestrial_eoo_read_before_eoo (df : gmap string pyval) :
  ∃ r, normalized_row df = Some r ∧
    (∀ v, df !! "terrestrial_eoo" = Some v → eoo r = v) ∧
    (df !! "terrestrial_eoo" = None →
       eoo r = default (PyFloat nan) (df !! "eoo")) ∧
    (∀ v, df !! "species_name" = Some v → species_name r = v) ∧
    (df !! "species_name" = None →
       species_name r = default (PyFloat nan) (df !! "species")) ∧
    iucn_status r = default (PyFloat nan) (df !! "iucn_status") ∧
    area_loss_ssp245 r = default (PyFloat nan) (df !! "area_loss_ssp245") ∧
    area_loss_ssp585 r = default (PyFloat nan) (df !! "area_loss_ssp585") ∧
    human_footprint r = default (PyFloat nan) (df !! "human_footprint").
Proof.
  eexists. split; [apply normalized_row_reads|]. simpl.
  split_and!; try done.
  - by intros v ->.
  - by intros ->.
  - by intros v ->.
  - by intros ->.
Qed.

(** X19.  A file without any of the metric columns still gives a
    table: every line scores 3 on each criterion in both scenarios, its
    final score is 3.0 and each contribution is 25 per cent, in number
    and in the text of the four percentage columns. *)
Theorem absent_metric_columns_score_three (df : gmap string pyval)
    (sc : Scenario) :
  (∀ col, col ∈ ["iucn_status"; "area_loss_ssp245"; "area_loss_ssp585";
                 "terrestrial_eoo"; "eoo"; "human_footprint"] →
          df !! col = None) →
  ∃ r s, normalized_row df = Some r ∧ score_row sc r = Ok s ∧
    [iucn_score s; area_loss_score s; eoo_score s; human_footprint_score s]
      = [3; 3; 3; 3] ∧
    final_score s = 3%float ∧
    percentages s = [25; 25; 25; 25]%float ∧
    [iucn_contribution s; area_loss_contribution s; eoo_contribution s;
     human_footprint_contribution s]
      = replicate 4 (str_of_float 25 +:+ "%").
Proof.
  intros Habsent.
  assert (Hcol : ∀ col,
    col ∈ ["iucn_status"; "area_loss_ssp245"; "area_loss_ssp585";
           "terrestrial_eoo"; "eoo"; "human_footprint"] →
    default (PyFloat nan) (df !! col) = PyFloat nan).
  { intros col Hin. by rewrite (Habsent col Hin). }
  eexists. eexists. split; [apply normalized_row_reads|].
  rewrite (Habsent "terrestrial_eoo") by (rewrite !elem_of_cons; tauto).
  rewrite (Hcol "iucn_status"), (Hcol "area_loss_ssp245"),
    (Hcol "area_loss_ssp585"), (Hcol "eoo"), (Hcol "human_footprint")
    by (rewrite !elem_of_cons; tauto).
  destruct sc; (split; [reflexivity|]); vm_compute; done.
Qed.

End Columns.

(** Witness of X19: a file that lists the species only. *)
Lemma absent_metric_columns_score_three_witness :
  ∃ r s, normalized_row species_only = Some r ∧
    score_row (H:=sample_builtins) SSP245 r = Ok s ∧
    final_score s = 3%float.
Proof.
  destruct (absent_metric_columns_score_three (H:=sample_builtins)
              species_only SSP245) as (r & s & Hr & Hs & _ & Hfinal & _).
  - intros col Hin. unfold species_only.
    apply lookup_singleton_None.
    rewrite !elem_of_cons, elem_of_nil in Hin.
    intros <-. repeat destruct Hin as [Hin|Hin]; done.
  - exists r, s. split; [exact Hr|]. split; [exact Hs|exact Hfinal].
Defined.

End PriorizationColumns.

(* ===================================================================== *)
(** ** The highlighted cell of the HTML tables                            *)
(* ===================================================================== *)

Module PriorizationHtml.
Import Priorization PriorizationFacts PriorizationTables PriorizationOrder.








Section Html.
Context `{Builtins}.


End Html.


(** The highlighted cell of the sample line. *)
Example sample_line_highlight :
  tr (H:=sample_builtins) contributions_columns sample_contributions
  = "<tr>" +:+ nl +:+
    "<td>Alpha a</td>" +:+ nl +:+
    "<td>12.5%</td>" +:+ nl +:+
    "<td class=" +:+ quote +:+ "max-value" +:+ quote +:+ ">50%</td>" +:+ nl +:+
    "<td> 50 %</td>" +:+ nl +:+
    "<td>n/a</td>" +:+ nl +:+
    "</tr>" +:+ nl.
Proof. vm_compute. reflexivity. Qed.

End PriorizationHtml.

(* ===================================================================== *)
(** ** The functions for ITIS                                             *)
(* ===================================================================== *)

Module ItisFacts.
Import Itis.

Lemma itis_bind_unfold {A B : Type} (m : M A) (k : A → M B) (w : World) :
  (m ≫= k) w
  = match m w with
    | (Done a, w') => k a w'
    | (Failed f, w') => (Failed f, w')
    end.
Proof. reflexivity. Qed.

Lemma itis_bind_Done_inv {A B : Type} (m : M A) (k : A → M B)
    (w w' : World) (b : B) :
  (m ≫= k) w = (Done b, w') →
  ∃ a w1, m w = (Done a, w1) ∧ k a w1 = (Done b, w').
Proof.
  rewrite itis_bind_unfold. destruct (m w) as [[a|f] w1]; [|discriminate].
  intros Hk. by exists a, w1.
Qed.

Lemma itis_lift_Done_inv {A : Type} (r : result A) (w w' : World) (a : A) :
  lift r w = (Done a, w') → r = Ok a ∧ w' = w.
Proof. unfold lift. destruct r; simpl; [by intros [= -> ->]|discriminate]. Qed.

Lemma itis_ret_Done_inv {A : Type} (a b : A) (w w' : World) :
  mret (M:=M) a w = (Done b, w') → a = b ∧ w' = w.
Proof. by intros [= -> ->]. Qed.

Section Retry.
Context `{Service}.

Lemma get_sent (r : Request) (w : World) :
  sent (get r w).2 = sent w ++ [r] ∧
  slept (get r w).2 = slept w ∧
  (get r w).1 = match answer r (length (sent w)) with
                | Data data => Done data
                | Fails f => Failed f
                end.
Proof. unfold get. by destruct (answer r (length (sent w))). Qed.

(** One attempt: the request and the reading of the answer. *)
Lemma attempt_run (tsn : Json) (w : World) :
  let run := (data ← get (FullRecord tsn); lift (sinonimias_of data)) w in
  sent run.2 = sent w ++ [FullRecord tsn] ∧
  slept run.2 = slept w ∧
  run.1 = match answer (FullRecord tsn) (length (sent w)) with
          | Data data => of_result (sinonimias_of data)
          | Fails f => Failed f
          end.
Proof.
  simpl. rewrite itis_bind_unfold. unfold get.
  by destruct (answer (FullRecord tsn) (length (sent w))).
Qed.

Lemma of_result_not_retried {A : Type} (r : result A) :
  of_result r ≠ Failed Timeout ∧ of_result r ≠ Failed RequestException.
Proof. by destruct r. Qed.

(** One attempt, by the answer of the service. *)
Lemma intentos_step (tsn : Json) (intento : nat) (rest : list nat)
    (w : World) :
  let w1 := {| sent := sent w ++ [FullRecord tsn]; slept := slept w;
               printed := printed w; progress := progress w |} in
  let again line :=
    intentos tsn rest
      {| sent := sent w1; slept := (slept w + ESPERA)%nat;
         printed := printed w ++ [line]; progress := progress w |} in
  intentos tsn (intento :: rest) w
  = match answer (FullRecord tsn) (length (sent w)) with
    | Data data => (of_result (sinonimias_of data), w1)
    | Fails Timeout => again (TimedOut (intento + 1))
    | Fails RequestException => again (RequestFailed (intento + 1))
    | Fails (Python e) => (Failed (Python e), w1)
    end.
Proof.
  cbn [intentos]. rewrite itis_bind_unfold. unfold get.
  destruct (answer (FullRecord tsn) (length (sent w))) as [d|[| |e]];
    try reflexivity.
  unfold lift. by destruct (sinonimias_of d).
Qed.

Lemma attempts_decided (tsn : Json) (m : nat) (w w1 : World)
    (o : outcome (list Json)) :
  retried (answer (FullRecord tsn) (length (sent w))) = false →
  o = match answer (FullRecord tsn) (length (sent w)) with
      | Data data => of_result (sinonimias_of data)
      | Fails f => Failed f
      end →
  sent w1 = sent w ++ [FullRecord tsn] → slept w1 = slept w →
  attempts_outcome tsn (S m) w (o, w1).
Proof.
  intros Hnot Ho Hsent Hslept. exists 0%nat.
  split; [lia|]. split; [lia|]. rewrite decide_False by lia.
  replace (length (sent w) + 0)%nat with (length (sent w)) by lia.
  simpl. split; [unfold ESPERA; lia|].
  split_and!; [exact Hnot|exact Ho|exact Hsent].
Qed.

Lemma attempts_retried (tsn : Json) (m : nat) (w w2 : World)
    (run : outcome (list Json) * World) :
  retried (answer (FullRecord tsn) (length (sent w))) = true →
  sent w2 = sent w ++ [FullRecord tsn] →
  slept w2 = (slept w + ESPERA)%nat →
  attempts_outcome tsn m w2 run →
  attempts_outcome tsn (S m) w run.
Proof.
  intros Hfirst Hsent Hslept (n & Hn & Hall & Hsl & Hcase).
  assert (Hlen : length (sent w2) = S (length (sent w))).
  { rewrite Hsent, length_app. simpl. lia. }
  exists (S n). split; [lia|]. split.
  { intros [|i] Hi; [by rewrite Nat.add_0_r|].
    specialize (Hall i ltac:(lia)). rewrite Hlen in Hall.
    by replace (length (sent w) + S i)%nat
      with (S (length (sent w)) + i)%nat by lia. }
  split; [rewrite Hsl, Hslept; unfold ESPERA; lia|].
  destruct (decide (n = m)) as [->|Hne].
  - rewrite decide_True by done. destruct Hcase as [Hres Hs].
    split; [done|]. rewrite Hs, Hsent. by rewrite <- app_assoc.
  - rewrite decide_False by lia. destruct Hcase as (Hnot & Hres & Hs).
    rewrite Hlen in Hnot, Hres.
    replace (length (sent w) + S n)%nat
      with (S (length (sent w)) + n)%nat by lia.
    split_and!; [done|done|]. rewrite Hs, Hsent. by rewrite <- app_assoc.
Qed.

Lemma intentos_run (tsn : Json) (m k : nat) (w : World) :
  attempts_outcome tsn m w (intentos tsn (seq k m) w).
Proof.
  revert k w. induction m as [|m IH]; intros k w.
  - exists 0%nat. split; [lia|]. split; [lia|].
    rewrite decide_True by done. simpl.
    split; [unfold ESPERA; lia|]. by rewrite app_nil_r.
  - cbn [seq]. rewrite intentos_step. cbv zeta.
    destruct (answer (FullRecord tsn) (length (sent w))) as [d|[| |e]] eqn:Ha.
    + apply attempts_decided; rewrite ?Ha; done.
    + eapply attempts_retried; [by rewrite Ha| | |apply IH]; done.
    + eapply attempts_retried; [by rewrite Ha| | |apply IH]; done.
    + apply attempts_decided; rewrite ?Ha; done.
Qed.

(** X21.  [obtener_sinonimias] asks ITIS at most five times and never
    raises a failure of the transport: after each request that times
    out or fails in the transport it waits five seconds and asks again;
    the first other answer decides the outcome, and after five such
    failures the result is the empty list, as for a species without
    synonyms. *)
Theorem synonyms_asked_at_most_five_times (tsn : Json) (w : World) :
  let run := obtener_sinonimias tsn w in
  run.1 ≠ Failed Timeout ∧ run.1 ≠ Failed RequestException ∧
  ∃ n, (n ≤ 5)%nat ∧
    (∀ i, (i < n)%nat →
       retried (answer (FullRecord tsn) (length (sent w) + i)) = true) ∧
    slept run.2 = (slept w + 5 * n)%nat ∧
    if decide (n = 5%nat) then
      run.1 = Done [] ∧
      sent run.2 = sent w ++ replicate 5 (FullRecord tsn)
    else
      retried (answer (FullRecord tsn) (length (sent w) + n)) = false ∧
      run.1 = match answer (FullRecord tsn) (length (sent w) + n) with
              | Data data => of_result (sinonimias_of data)
              | Fails f => Failed f
              end ∧
      sent run.2 = sent w ++ replicate (S n) (FullRecord tsn).
Proof.
  pose proof (intentos_run tsn 5 0 w) as Hrun. cbv zeta.
  split_and!; [..|exact Hrun];
    destruct Hrun as (n & Hn & Hall & Hsl & Hcase);
    unfold obtener_sinonimias, MAX_REINTENTOS;
    (destruct (decide (n = 5%nat)) as [->|Hne];
     [destruct Hcase as [-> _]; done|]);
    destruct Hcase as (Hnot & -> & _);
    (destruct (answer (FullRecord tsn) (length (sent w) + n)) as [d|[| |e]];
     try done); apply of_result_not_retried.
Qed.

(** A call sends at least one request, and requests for full records
    only. *)
Lemma obtener_sinonimias_sends (tsn : Json) (w : World) :
  ∃ n, (1 ≤ n)%nat ∧
    sent (obtener_sinonimias tsn w).2 = sent w ++ replicate n (FullRecord tsn).
Proof.
  destruct (intentos_run tsn 5 0 w) as (n & Hn & _ & _ & Hcase).
  unfold obtener_sinonimias, MAX_REINTENTOS.
  destruct (decide (n = 5%nat)) as [->|Hne].
  - exists 5%nat. split; [lia|]. by destruct Hcase.
  - exists (S n). split; [lia|]. by destruct Hcase as (_ & _ & ?).
Qed.

Lemma full_records_app (l1 l2 : list Request) :
  full_records (l1 ++ l2) = (full_records l1 + full_records l2)%nat.
Proof. unfold full_records. by rewrite List.filter_app, length_app. Qed.

Lemma full_records_replicate (n : nat) (tsn : Json) :
  full_records (replicate n (FullRecord tsn)) = n.
Proof.
  unfold full_records. induction n as [|n IH]; simpl; [done|]. by rewrite IH.
Qed.

Lemma obtener_sinonimias_full (tsn : Json) (w w' : World)
    (o : outcome (list Json)) :
  obtener_sinonimias tsn w = (o, w') →
  (full_records (sent w) + 1 ≤ full_records (sent w'))%nat.
Proof.
  intros Hrun. destruct (obtener_sinonimias_sends tsn w) as (n & Hn & Hs).
  rewrite Hrun in Hs. simpl in Hs.
  rewrite Hs, full_records_app, full_records_replicate. lia.
Qed.

Lemma get_Done_inv (r : Request) (w w' : World) (data : Json) :
  get r w = (Done data, w') →
  answer r (length (sent w)) = Data data ∧ sent w' = sent w ++ [r].
Proof.
  unfold get. destruct (answer r (length (sent w))); [|discriminate].
  by intros [= -> <-].
Qed.

Lemma foldM_Done_invariant {A X : Type} (P : A → World → Prop)
    (body : A → X → M A) (l : list X) :
  (∀ acc x w acc' w',
     P acc w → body acc x w = (Done acc', w') → P acc' w') →
  ∀ acc w acc' w',
    P acc w → foldM body acc l w = (Done acc', w') → P acc' w'.
Proof.
  intros Hbody. induction l as [|x l IH]; intros acc w acc' w' HP; simpl.
  - by intros [= <- <-].
  - intros (acc1 & w1 & Hx & Hrest)%itis_bind_Done_inv.
    eapply IH; [|exact Hrest]. eapply Hbody; [exact HP|exact Hx].
Qed.

Lemma intentos_progress (tsn : Json) (left : list nat) (w : World) :
  progress (intentos tsn left w).2 = progress w.
Proof.
  revert w. induction left as [|intento rest IH]; intros w; [done|].
  rewrite intentos_step. cbv zeta.
  destruct (answer (FullRecord tsn) (length (sent w))) as [d|[| |e]];
    try done; by rewrite IH.
Qed.

Lemma obtener_sinonimias_progress (tsn : Json) (w w' : World)
    (o : outcome (list Json)) :
  obtener_sinonimias tsn w = (o, w') → progress w' = progress w.
Proof.
  intros Hrun. pose proof (intentos_progress tsn (seq 0 MAX_REINTENTOS) w) as Hp.
  unfold obtener_sinonimias in Hrun. by rewrite Hrun in Hp.
Qed.

(** The recursion moves the progress bar by one for each species. *)
Lemma recursion_progress (fuel : nat) :
  ∀ tsn w especies w',
    obtener_especies_recursivamente fuel tsn w = (Done especies, w') →
    progress w' = (progress w + length especies)%nat.
Proof.
  induction fuel as [|fuel IH]; intros tsn w especies w' Hrun;
    [discriminate|].
  cbn [obtener_especies_recursivamente] in Hrun.
  apply itis_bind_Done_inv in Hrun as (data & w1 & Hget & Hrun).
  assert (Hbase : progress w1 = progress w).
  { unfold get in Hget. destruct (answer _ _); [|discriminate].
    by injection Hget as _ <-. }
  apply itis_bind_Done_inv in Hrun as (hl & w2 & Hhl & Hrun).
  apply itis_lift_Done_inv in Hhl as [_ ->].
  destruct (truthy hl).
  - apply itis_bind_Done_inv in Hrun as (registros & w2 & Hregs & Hrun).
    apply itis_lift_Done_inv in Hregs as [_ ->].
    revert Hrun.
    apply (foldM_Done_invariant
             (λ acc w0, progress w0 = (progress w + length acc)%nat)).
    + clear -IH. intros acc registro w0 acc' w' HP Hbody.
      destruct (truthy registro);
        [|by apply itis_ret_Done_inv in Hbody as [<- ->]].
      apply itis_bind_Done_inv in Hbody as (rank & w1 & Hrank & Hbody).
      apply itis_lift_Done_inv in Hrank as [_ ->].
      destruct (negb (String.eqb rank "species")).
      * apply itis_bind_Done_inv in Hbody as (child & w1 & Hchild & Hbody).
        apply itis_lift_Done_inv in Hchild as [_ ->].
        apply itis_bind_Done_inv in Hbody as (found & w1 & Hfound & Hbody).
        apply itis_ret_Done_inv in Hbody as [<- ->].
        apply IH in Hfound. rewrite length_app. lia.
      * apply itis_bind_Done_inv in Hbody as (t & w1 & Ht & Hbody).
        apply itis_lift_Done_inv in Ht as [_ ->].
        apply itis_bind_Done_inv in Hbody as (nombre & w1 & Hnombre & Hbody).
        apply itis_lift_Done_inv in Hnombre as [_ ->].
        apply itis_bind_Done_inv in Hbody as (sins & w1 & Hsins & Hbody).
        apply itis_bind_Done_inv in Hsins as (t' & w2 & Ht' & Hsins).
        apply itis_lift_Done_inv in Ht' as [_ ->].
        apply obtener_sinonimias_progress in Hsins.
        apply itis_bind_Done_inv in Hbody as ([] & w2 & Hupd & Hbody).
        apply itis_ret_Done_inv in Hbody as [<- ->].
        injection Hupd as <-. simpl. rewrite length_app. simpl. lia.
    + simpl. lia.
  - apply itis_ret_Done_inv in Hrun as [<- ->]. simpl. lia.
Qed.

(** The loop over the list asks once more for each species and keeps
    the list as long as it was. *)
Lemma second_pass_run (l done result : list Especie) (w0 w2 : World) :
  foldM (λ done '(MkEspecie tsn_especie nombre _),
           sinonimias ← obtener_sinonimias tsn_especie;
           mret (done ++ [MkEspecie tsn_especie nombre sinonimias]))
    done l w0 = (Done result, w2) →
  length result = (length done + length l)%nat ∧
  (full_records (sent w0) + length l ≤ full_records (sent w2))%nat ∧
  progress w2 = progress w0.
Proof.
  revert done w0. induction l as [|[t nombre old] l IH];
    intros done w0 Hrun; simpl in Hrun.
  - apply itis_ret_Done_inv in Hrun as [<- ->]. simpl. lia.
  - apply itis_bind_Done_inv in Hrun as (done1 & w1 & Hone & Hrun).
    apply itis_bind_Done_inv in Hone as (sins & w3 & Hsins & Hone).
    apply itis_ret_Done_inv in Hone as [<- ->].
    pose proof (obtener_sinonimias_progress _ _ _ _ Hsins) as Hp.
    apply obtener_sinonimias_full in Hsins.
    apply IH in Hrun as (Hlen & Hfull & Hprog).
    rewrite length_app in Hlen. simpl in Hlen |- *. lia.
Qed.

Lemma obtener_sinonimias_asks (t : Json) (w w' : World)
    (o : outcome (list Json)) :
  obtener_sinonimias t w = (o, w') →
  ∃ reqs, sent w' = sent w ++ reqs ∧ asked_for [t] reqs.
Proof.
  intros Hrun.
  destruct (intentos_run t 5 0 w) as (n & Hn & _ & _ & Hcase).
  unfold obtener_sinonimias, MAX_REINTENTOS in Hrun. rewrite Hrun in Hcase.
  simpl in Hcase.
  assert (Hsent : ∃ m, (1 ≤ m ≤ 5)%nat ∧
                       sent w' = sent w ++ replicate m (FullRecord t)).
  { destruct (decide (n = 5%nat)) as [->|Hne].
    - exists 5%nat. split; [lia|]. by destruct Hcase.
    - exists (S n). split; [lia|]. by destruct Hcase as (_ & _ & ?). }
  destruct Hsent as (m & Hm & Hsent).
  exists (replicate m (FullRecord t)). split; [exact Hsent|].
  exists [replicate m (FullRecord t)]. split.
  - constructor; [|constructor]. by exists m.
  - simpl. by rewrite app_nil_r.
Qed.

Lemma asked_for_nil : asked_for [] [].
Proof. exists []. split; [constructor|done]. Qed.

Lemma asked_for_app (tsns1 tsns2 : list Json) (reqs1 reqs2 : list Request) :
  asked_for tsns1 reqs1 → asked_for tsns2 reqs2 →
  asked_for (tsns1 ++ tsns2) (reqs1 ++ reqs2).
Proof.
  intros (g1 & H1 & ->) (g2 & H2 & ->). exists (g1 ++ g2).
  split; [by apply Forall2_app|]. by rewrite concat_app.
Qed.

Lemma asked_for_full_records (tsns : list Json) (reqs : list Request) :
  asked_for tsns reqs → List.filter is_full_record reqs = reqs.
Proof.
  intros (groups & Hgroups & ->).
  induction Hgroups as [|t group tsns groups (n & _ & ->) _ IH]; [done|].
  simpl. rewrite List.filter_app, IH. f_equal.
  clear. induction n as [|n IHn]; simpl; [done|]. by rewrite IHn.
Qed.

(** The recursion asks for the full record of each species it finds,
    in the order of its result. *)
Lemma recursion_asks (fuel : nat) :
  ∀ t w especies w',
    obtener_especies_recursivamente fuel t w = (Done especies, w') →
    ∃ reqs,
      sent w' = sent w ++ reqs ∧
      asked_for (tsn <$> especies) (List.filter is_full_record reqs).
Proof.
  induction fuel as [|fuel IH]; intros t w especies w' Hrun;
    [discriminate|].
  cbn [obtener_especies_recursivamente] in Hrun.
  apply itis_bind_Done_inv in Hrun as (data & w1 & Hget & Hrun).
  apply get_Done_inv in Hget as [_ Hsent].
  apply itis_bind_Done_inv in Hrun as (hl & w2 & Hhl & Hrun).
  apply itis_lift_Done_inv in Hhl as [_ ->].
  assert (Hgoal : ∃ reqs,
            sent w' = sent w1 ++ reqs ∧
            asked_for (tsn <$> especies) (List.filter is_full_record reqs)).
  { destruct (truthy hl).
    - apply itis_bind_Done_inv in Hrun as (registros & w2 & Hregs & Hrun).
      apply itis_lift_Done_inv in Hregs as [_ ->].
      revert Hrun.
      apply (foldM_Done_invariant
               (λ acc w0, ∃ reqs,
                  sent w0 = sent w1 ++ reqs ∧
                  asked_for (tsn <$> acc)
                    (List.filter is_full_record reqs))).
      + clear -IH. intros acc registro w0 acc' w' (reqs & Hs & Hasked) Hbody.
        destruct (truthy registro);
          [|apply itis_ret_Done_inv in Hbody as [<- ->]; by exists reqs].
        apply itis_bind_Done_inv in Hbody as (rank & w2 & Hrank & Hbody).
        apply itis_lift_Done_inv in Hrank as [_ ->].
        destruct (negb (String.eqb rank "species")).
        * apply itis_bind_Done_inv in Hbody as (child & w2 & Hchild & Hbody).
          apply itis_lift_Done_inv in Hchild as [_ ->].
          apply itis_bind_Done_inv in Hbody as (found & w2 & Hfound & Hbody).
          apply itis_ret_Done_inv in Hbody as [<- ->].
          apply IH in Hfound as (reqs' & Hs' & Hasked').
          exists (reqs ++ reqs'). split.
          -- by rewrite Hs', Hs, <- app_assoc.
          -- rewrite List.filter_app, fmap_app. by apply asked_for_app.
        * apply itis_bind_Done_inv in Hbody as (t1 & w2 & Ht1 & Hbody).
          apply itis_lift_Done_inv in Ht1 as [Ht1 ->].
          apply itis_bind_Done_inv in Hbody as (nombre & w2 & Hnombre & Hbody).
          apply itis_lift_Done_inv in Hnombre as [_ ->].
          apply itis_bind_Done_inv in Hbody as (sins & w2 & Hsins & Hbody).
          apply itis_bind_Done_inv in Hsins as (t2 & w3 & Ht2 & Hsins).
          apply itis_lift_Done_inv in Ht2 as [Ht2 ->].
          rewrite Ht1 in Ht2. injection Ht2 as <-.
          apply obtener_sinonimias_asks in Hsins as (reqs' & Hs' & Hasked').
          apply itis_bind_Done_inv in Hbody as ([] & w3 & Hupd & Hbody).
          apply itis_ret_Done_inv in Hbody as [<- ->].
          injection Hupd as <-. simpl.
          exists (reqs ++ reqs'). split.
          -- by rewrite Hs', Hs, <- app_assoc.
          -- rewrite List.filter_app, fmap_app.
             apply asked_for_app; [done|].
             by rewrite (asked_for_full_records _ _ Hasked').
      + exists []. rewrite app_nil_r. split; [done|apply asked_for_nil].
    - apply itis_ret_Done_inv in Hrun as [<- ->].
      exists []. rewrite app_nil_r. split; [done|apply asked_for_nil]. }
  destruct Hgoal as (reqs & Hs & Hasked).
  exists (HierarchyDown t :: reqs). split.
  - rewrite Hs, Hsent, <- app_assoc. done.
  - exact Hasked.
Qed.

(** The loop over the list asks again for each species, in order, and
    keeps the TSN of each. *)
Lemma second_pass_asks (l done result : list Especie) (w0 w2 : World) :
  foldM (λ done '(MkEspecie tsn_especie nombre _),
           sinonimias ← obtener_sinonimias tsn_especie;
           mret (done ++ [MkEspecie tsn_especie nombre sinonimias]))
    done l w0 = (Done result, w2) →
  tsn <$> result = (tsn <$> done) ++ (tsn <$> l) ∧
  ∃ reqs, sent w2 = sent w0 ++ reqs ∧ asked_for (tsn <$> l) reqs.
Proof.
  revert done w0. induction l as [|[t nombre old] l IH];
    intros done w0 Hrun; simpl in Hrun.
  - apply itis_ret_Done_inv in Hrun as [<- ->]. simpl.
    rewrite app_nil_r. split; [done|].
    exists []. rewrite app_nil_r. split; [done|apply asked_for_nil].
  - apply itis_bind_Done_inv in Hrun as (done1 & w1 & Hone & Hrun).
    apply itis_bind_Done_inv in Hone as (sins & w3 & Hsins & Hone).
    apply itis_ret_Done_inv in Hone as [<- ->].
    apply obtener_sinonimias_asks in Hsins as (reqs1 & Hs1 & Hasked1).
    apply IH in Hrun as (Htsn & reqs & Hs & Hasked).
    split.
    + rewrite Htsn, fmap_app, <- app_assoc. done.
    + exists (reqs1 ++ reqs). split.
      * by rewrite Hs, Hs1, <- app_assoc.
      * by apply (asked_for_app [t]).
Qed.

(** X22.  [obtener_especies_desde_tsn] asks ITIS for the synonyms of
    every species twice, each time for the TSN of the species.  The
    requests of a run that returns are those of the walk down the
    hierarchy followed by those of the loop over the list.  Among the
    requests of the walk, the ones for a full record are in groups, one
    group for each species of the result, in its order, of one to five
    requests for the TSN of that species; the requests of the loop are
    again such groups, one for each species, and nothing else. *)
Theorem synonyms_of_each_species_asked_twice (fuel : nat) (tsn : Json)
    (total_tsn : nat) (especies : list Especie) (w w' : World) :
  obtener_especies_desde_tsn fuel tsn total_tsn w = (Done especies, w') →
  ∃ found w1 first second,
    obtener_especies_recursivamente fuel tsn w = (Done found, w1) ∧
    Itis.tsn <$> found = Itis.tsn <$> especies ∧
    sent w1 = sent w ++ first ∧
    sent w' = sent w ++ first ++ second ∧
    asked_for (Itis.tsn <$> especies) (List.filter is_full_record first) ∧
    asked_for (Itis.tsn <$> especies) second.
Proof.
  unfold obtener_especies_desde_tsn.
  intros (found & w1 & Hfound & Hloop)%itis_bind_Done_inv.
  pose proof (recursion_asks _ _ _ _ _ Hfound) as (first & Hfirst & Hasked1).
  apply second_pass_asks in Hloop as (Htsn & second & Hsecond & Hasked2).
  simpl in Htsn.
  exists found, w1, first, second.
  split; [exact Hfound|]. split; [done|]. split; [exact Hfirst|].
  split; [by rewrite Hsecond, Hfirst, <- app_assoc|].
  rewrite Htsn. done.
Qed.

(** Two loops over the same list keep a relation their bodies keep. *)
Lemma foldM_related {A B X : Type} (R : A → B → Prop)
    (bodyA : A → X → M A) (bodyB : B → X → M B) (l : list X) :
  (∀ a b x wa wb a' b' wa' wb',
     R a b → bodyA a x wa = (Done a', wa') → bodyB b x wb = (Done b', wb') →
     R a' b') →
  ∀ a b, R a b →
  ∀ wa wb a' b' wa' wb',
    foldM bodyA a l wa = (Done a', wa') →
    foldM bodyB b l wb = (Done b', wb') →
    R a' b'.
Proof.
  intros Hbody. induction l as [|x l IH];
    intros a b HR wa wb a' b' wa' wb'; simpl.
  - by intros [= <- <-] [= <- <-].
  - intros (a1 & wa1 & Ha & Hresta)%itis_bind_Done_inv
           (b1 & wb1 & Hb & Hrestb)%itis_bind_Done_inv.
    eapply IH; [|exact Hresta|exact Hrestb].
    eapply Hbody; [exact HR|exact Ha|exact Hb].
Qed.

(** With answers that do not change, the count and the recursion see
    the same hierarchy. *)
Lemma count_is_length (Hstationary : stationary) (fuel1 : nat) :
  ∀ fuel2 tsn w1 w2 n especies w1' w2',
    obtener_cantidad_tsn fuel1 tsn w1 = (Done n, w1') →
    obtener_especies_recursivamente fuel2 tsn w2 = (Done especies, w2') →
    n = length especies.
Proof.
  induction fuel1 as [|fuel1 IH];
    intros [|fuel2] tsn w1 w2 n especies w1' w2' Hcount Hrec;
    try discriminate.
  cbn [obtener_cantidad_tsn] in Hcount.
  cbn [obtener_especies_recursivamente] in Hrec.
  apply itis_bind_Done_inv in Hcount as (data & w3 & Hget & Hcount).
  apply get_Done_inv in Hget as [Hdata _].
  apply itis_bind_Done_inv in Hrec as (data' & w4 & Hget' & Hrec).
  apply get_Done_inv in Hget' as [Hdata' _].
  rewrite (Hstationary _ _ (length (sent w2))) in Hdata.
  rewrite Hdata in Hdata'. injection Hdata' as <-.
  apply itis_bind_Done_inv in Hcount as (hl & w5 & Hhl & Hcount).
  apply itis_lift_Done_inv in Hhl as [Hhl ->].
  apply itis_bind_Done_inv in Hrec as (hl' & w6 & Hhl' & Hrec).
  apply itis_lift_Done_inv in Hhl' as [Hhl' ->].
  rewrite Hhl in Hhl'. injection Hhl' as <-.
  destruct (truthy hl).
  - apply itis_bind_Done_inv in Hcount as (registros & w5 & Hregs & Hcount).
    apply itis_lift_Done_inv in Hregs as [Hregs ->].
    apply itis_bind_Done_inv in Hrec as (registros' & w6 & Hregs' & Hrec).
    apply itis_lift_Done_inv in Hregs' as [Hregs' ->].
    rewrite Hregs in Hregs'. injection Hregs' as <-.
    revert Hcount Hrec.
    apply (foldM_related (λ (contador : nat) (acc : list Especie),
                            contador = length acc)); [|done].
    clear -IH.
    intros contador acc registro wa wb contador1 acc1 wa1 wb1 Hacc Hc Hr.
    destruct (truthy registro).
    + apply itis_bind_Done_inv in Hc as (rank & wa2 & Hrank & Hc).
      apply itis_lift_Done_inv in Hrank as [Hrank ->].
      apply itis_bind_Done_inv in Hr as (rank' & wb2 & Hrank' & Hr).
      apply itis_lift_Done_inv in Hrank' as [Hrank' ->].
      rewrite Hrank in Hrank'. injection Hrank' as <-.
      destruct (negb (String.eqb rank "species")).
      * apply itis_bind_Done_inv in Hc as (child & wa2 & Hchild & Hc).
        apply itis_lift_Done_inv in Hchild as [Hchild ->].
        apply itis_bind_Done_inv in Hr as (child' & wb2 & Hchild' & Hr).
        apply itis_lift_Done_inv in Hchild' as [Hchild' ->].
        rewrite Hchild in Hchild'. injection Hchild' as <-.
        apply itis_bind_Done_inv in Hc as (m & wa2 & Hm & Hc).
        apply itis_ret_Done_inv in Hc as [<- ->].
        apply itis_bind_Done_inv in Hr as (found & wb2 & Hfound & Hr).
        apply itis_ret_Done_inv in Hr as [<- ->].
        rewrite length_app, (IH _ _ _ _ _ _ _ _ Hm Hfound). lia.
      * apply itis_ret_Done_inv in Hc as [<- ->].
        apply itis_bind_Done_inv in Hr as (t & wb2 & Ht & Hr).
        apply itis_bind_Done_inv in Hr as (nombre & wb3 & Hnombre & Hr).
        apply itis_bind_Done_inv in Hr as (sins & wb4 & Hsins & Hr).
        apply itis_bind_Done_inv in Hr as ([] & wb5 & Hupd & Hr).
        apply itis_ret_Done_inv in Hr as [<- ->].
        rewrite length_app. simpl. lia.
    + apply itis_ret_Done_inv in Hc as [<- ->].
      apply itis_ret_Done_inv in Hr as [<- ->]. done.
  - apply itis_ret_Done_inv in Hcount as [<- ->].
    apply itis_ret_Done_inv in Hrec as [<- ->]. done.
Qed.

(** X23.  When the answers of ITIS do not change between the two
    functions, the number [obtener_cantidad_tsn] returns, which is the
    length given to the progress bar, is the number of species
    [obtener_especies_desde_tsn] returns: the bar ends exactly full. *)
Theorem count_is_number_of_species (fuel1 fuel2 : nat) (tsn : Json)
    (total_tsn : nat) (especies : list Especie) (w1 w1' w2 w2' : World) :
  stationary →
  obtener_cantidad_tsn fuel1 tsn w1 = (Done total_tsn, w1') →
  obtener_especies_desde_tsn fuel2 tsn total_tsn w2 = (Done especies, w2') →
  total_tsn = length especies ∧
  progress w2' = (progress w2 + total_tsn)%nat.
Proof.
  intros Hstationary Hcount.
  unfold obtener_especies_desde_tsn.
  intros (found & w3 & Hfound & Hloop)%itis_bind_Done_inv.
  rewrite (count_is_length Hstationary _ _ _ _ _ _ _ _ _ Hcount Hfound).
  apply recursion_progress in Hfound.
  apply second_pass_run in Hloop as (Hlen & _ & Hprog). simpl in Hlen. lia.
Qed.

End Retry.

(** Two time-outs, then the answer: three requests, ten seconds. *)
Example synonyms_after_two_timeouts :
  obtener_sinonimias (H:=slow_itis) (JStr "4") nothing_sent
  = (Done [JStr "Alpha old"],
     {| sent := replicate 3 (FullRecord (JStr "4"));
        slept := 10;
        printed := [TimedOut 1; TimedOut 2];
        progress := 0 |}).
Proof. reflexivity. Qed.

(** Witness of X22: two species; the walk sends three requests for the
    hierarchy and one for the full record of each species, the loop one
    more for each species. *)
Lemma synonyms_of_each_species_asked_twice_witness :
  let run :=
    obtener_especies_desde_tsn (H:=sample_itis) 3 (JStr "1") 2 nothing_sent in
  run.1 = Done sample_especies ∧
  ∃ first second,
    sent run.2 = first ++ second ∧
    asked_for [JStr "4"; JStr "3"] (List.filter is_full_record first) ∧
    asked_for [JStr "4"; JStr "3"] second.
Proof.
  split; [reflexivity|].
  destruct (synonyms_of_each_species_asked_twice (H:=sample_itis)
              3 (JStr "1") 2 sample_especies nothing_sent
              (obtener_especies_desde_tsn (H:=sample_itis) 3 (JStr "1") 2
                 nothing_sent).2 eq_refl)
    as (found & w1 & first & second & _ & _ & _ & Hsent & Hfirst & Hsecond).
  exists first, second. split; [exact Hsent|]. split; assumption.
Defined.

(** Witness of X23: the count of the sample order is two. *)
Lemma count_is_number_of_species_witness :
  let run :=
    obtener_especies_desde_tsn (H:=sample_itis) 3 (JStr "1") 2 nothing_sent in
  (2 = length sample_especies)%nat ∧
  progress run.2 = (progress nothing_sent + 2)%nat.
Proof.
  apply (count_is_number_of_species (H:=sample_itis) 3 3 (JStr "1") 2
           sample_especies nothing_sent
           (obtener_cantidad_tsn (H:=sample_itis) 3 (JStr "1") nothing_sent).2
           nothing_sent).
  - intros r i j. reflexivity.
  - reflexivity.
  - reflexivity.
Defined.

End ItisFacts.
